(** * Garmin Connect activity exporter: the incremental export state machine

    A shallow embedding of [source/file_type.py], [source/activity.py],
    [source/file_manager/per_activity.py], [source/file_manager/all.py] and
    of the export pass of [source/exporter.py], with the properties of the
    filename codec, of the ledger and of the rolling boundary watermark.

    Conventions of the embedding:
    - a Python [str] is a list of Unicode code points ([list N]), so slicing
      and [len] count code points as Python does;
    - [bytes] is [list Byte.byte];
    - a Python [dict] is a [gmap], a [set] a [gset];
    - a method that may raise returns a [result]; a method that mutates the
      file manager, the file system or the exporter is a state transformer
      over [World] that gives the state back also when it raises. *)

From Stdlib Require Import ZArith NArith List String Ascii Lia Bool.
From Stdlib.Strings Require Import Byte.
From Stdlib Require Import DecimalZ DecimalPos DecimalN.
From stdpp Require Import base decidable option list countable gmap sets sorting.

Local Open Scope Z_scope.

(** ** Python strings *)

Abbreviation str := (list N).

(** The code points of an ASCII literal. *)
Definition lit (s : string) : str :=
  List.map N_of_ascii (list_ascii_of_string s).

Definition chr (a : ascii) : N := N_of_ascii a.

(** The parts of the Unicode character database that [str.isalnum],
    [int()] and [str.lower] read for code points outside ASCII.  They are
    tables of the runtime, not of this repository. *)
Record UnicodeDB := {
  unicode_isalnum : N -> bool;          (* [c.isalnum()] for [c >= 128] *)
  unicode_decimal : N -> option N;      (* decimal digit value, [c >= 128] *)
  unicode_lower : N -> str              (* [c.lower()] for [c >= 128] *)
}.

Definition is_ascii_digit (c : N) : bool := ((48 <=? c) && (c <=? 57))%N.
Definition is_ascii_upper (c : N) : bool := ((65 <=? c) && (c <=? 90))%N.
Definition is_ascii_lower (c : N) : bool := ((97 <=? c) && (c <=? 122))%N.

(** [c.isalnum()] *)
Definition isalnum (U : UnicodeDB) (c : N) : bool :=
  if (c <? 128)%N
  then is_ascii_digit c || is_ascii_upper c || is_ascii_lower c
  else unicode_isalnum U c.

(** [c.isspace()]: the white space that [str.strip()] removes. *)
Definition isspace (c : N) : bool :=
  (((9 <=? c) && (c <=? 13)) || ((28 <=? c) && (c <=? 32))
   || (c =? 133) || (c =? 160) || (c =? 5760)
   || ((8192 <=? c) && (c <=? 8202))
   || (c =? 8232) || (c =? 8233) || (c =? 8239) || (c =? 8287)
   || (c =? 12288))%N.

(** [s.replace(old, new)] for one-character [old] and [new]. *)
Definition replace_char (old new : N) (s : str) : str :=
  List.map (fun c => if (c =? old)%N then new else c) s.

Fixpoint lstrip_by (sp : N -> bool) (s : str) : str :=
  match s with
  | c :: r => if sp c then lstrip_by sp r else s
  | [] => []
  end.

Definition strip_by (sp : N -> bool) (s : str) : str :=
  rev (lstrip_by sp (rev (lstrip_by sp s))).

(** [s.strip()] *)
Definition strip (s : str) : str := strip_by isspace s.

(** [s.split(sep)] for a one-character separator: never empty. *)
Fixpoint split_on (sep : N) (s : str) : list str :=
  match s with
  | [] => [[]]
  | c :: r =>
      if (c =? sep)%N then [] :: split_on sep r
      else match split_on sep r with
           | p :: ps => (c :: p) :: ps
           | [] => [[c]]
           end
  end.

(** [s.lower()] *)
Definition lower (U : UnicodeDB) (s : str) : str :=
  List.flat_map (fun c =>
    if (c <? 128)%N then [if is_ascii_upper c then (c + 32)%N else c]
    else unicode_lower U c) s.

(** ** Decimal text of integers: [str(n)], zero padding and [int(s)] *)

Fixpoint uint_chars (u : Decimal.uint) : str :=
  match u with
  | Decimal.Nil => []
  | Decimal.D0 r => 48%N :: uint_chars r
  | Decimal.D1 r => 49%N :: uint_chars r
  | Decimal.D2 r => 50%N :: uint_chars r
  | Decimal.D3 r => 51%N :: uint_chars r
  | Decimal.D4 r => 52%N :: uint_chars r
  | Decimal.D5 r => 53%N :: uint_chars r
  | Decimal.D6 r => 54%N :: uint_chars r
  | Decimal.D7 r => 55%N :: uint_chars r
  | Decimal.D8 r => 56%N :: uint_chars r
  | Decimal.D9 r => 57%N :: uint_chars r
  end.

(** [str(z)] for an [int] of at most 4300 decimal digits; beyond that
    limit of the interpreter ([sys.get_int_max_str_digits()]) [str] raises
    [ValueError], which this function does not represent. *)
Definition str_of_int (z : Z) : str :=
  match Z.to_int z with
  | Decimal.Pos u => uint_chars u
  | Decimal.Neg u => chr "-" :: uint_chars u
  end.

(** [str(n)] for a natural number. *)
Definition str_of_N (n : N) : str := uint_chars (N.to_uint n).

(** A [%0wd] field: at least [w] digits, zero padded on the left. *)
Definition zfill (w : nat) (n : N) : str :=
  let d := str_of_N n in
  repeat 48%N (w - List.length d)%nat ++ d.

Definition digit_cons (d : N) (u : Decimal.uint) : Decimal.uint :=
  match d with
  | 0 => Decimal.D0 u | 1 => Decimal.D1 u | 2 => Decimal.D2 u
  | 3 => Decimal.D3 u | 4 => Decimal.D4 u | 5 => Decimal.D5 u
  | 6 => Decimal.D6 u | 7 => Decimal.D7 u | 8 => Decimal.D8 u
  | _ => Decimal.D9 u
  end%N.

(** The decimal value of one character for [int()]. *)
Definition decimal_value (U : UnicodeDB) (c : N) : option N :=
  if (c <? 128)%N
  then (if is_ascii_digit c then Some (c - 48)%N else None)
  else match unicode_decimal U c with
       | Some d => if (d <? 10)%N then Some d else None
       | None => None
       end.

(** Digits with single underscores between them, as [int()] reads them:
    [after_digit] tells whether the previous character was a digit. *)
Fixpoint parse_digits (U : UnicodeDB) (after_digit : bool) (s : str)
  : option Decimal.uint :=
  match s with
  | [] => if after_digit then Some Decimal.Nil else None
  | c :: r =>
      match decimal_value U c with
      | Some d => digit_cons d <$> parse_digits U true r
      | None =>
          if (c =? chr "_")%N && after_digit
          then parse_digits U false r
          else None
      end
  end.

(** The white space [int()] skips around the digits: the C white space of
    ASCII, and the Unicode white space outside ASCII. *)
Definition int_space (c : N) : bool :=
  (((9 <=? c) && (c <=? 13)) || (c =? 32) || ((128 <=? c) && isspace c))%N.

(** The interpreter's limit on the number of digits of a decimal text
    ([sys.get_int_max_str_digits()]). *)
Definition MAX_STR_DIGITS : Z := 4300.

(** The integers of at most [MAX_STR_DIGITS] digits: those that [str]
    writes and [int] reads back. *)
Definition within_int_limit (z : Z) : Prop := Z.abs z < 10 ^ MAX_STR_DIGITS.

(** [int(s)] in base ten; [None] stands for [ValueError].  The interpreter
    also raises [ValueError] for a text of more than [MAX_STR_DIGITS]
    digits; this function has no such limit, so it stands for [int] on
    texts within the limit only. *)
Definition int_of_str (U : UnicodeDB) (s : str) : option Z :=
  match strip_by int_space s with
  | [] => None
  | c :: r =>
      if (c =? chr "-")%N then
        (fun u => Z.of_int (Decimal.Neg u)) <$> parse_digits U false r
      else if (c =? chr "+")%N then
        (fun u => Z.of_int (Decimal.Pos u)) <$> parse_digits U false r
      else (fun u => Z.of_int (Decimal.Pos u)) <$> parse_digits U false (c :: r)
  end.

(** ** Results of operations that may raise *)

(** The [ValueError]s of the repository, by message. *)
Inductive value_error :=
  | ActivityIdMismatch          (* "Activity ID mismatch: ..." *)
  | FileTypeNotDownloadedYet    (* "File type ... not downloaded yet ..." *)
  | NoMatchingFileType          (* "Invalid filename, no matching file type" *)
  | NoActivityMarker            (* "Invalid filename, no activity marker" *)
  | ActivityIdNotNumeric        (* "... activity ID is not numeric" *)
  | InvalidFileTypeDirectory    (* "Invalid file type ... in ..." *)
  | ActivityNotTracked.         (* "Cannot mark activity ... not tracked" *)

Inductive exn :=
  | ValueError (why : value_error)
  | KeyError                    (* a [dict] subscript with an absent key *)
  | TypeError                   (* offset-naive against offset-aware *)
  | OverflowError               (* "date value out of range" *)
  | UnicodeDecodeError          (* [bytes.decode('utf-8')] *)
  | UpstreamError (code : N).   (* whatever the Garmin client raises *)

Inductive result (A : Type) :=
  | Ok (a : A)
  | Raise (e : exn).
Arguments Ok {A} a.
Arguments Raise {A} e.

Definition rbind {A B} (r : result A) (k : A -> result B) : result B :=
  match r with
  | Ok a => k a
  | Raise e => Raise e
  end.

(** ** [source/file_type.py] *)

Inductive FileType := ACTIVITY_JSON | GPX | TCX | KML | CSV.

#[export] Instance FileType_eq_dec : EqDecision FileType.
Proof. solve_decision. Defined.

Definition FileType_index (t : FileType) : nat :=
  match t with
  | ACTIVITY_JSON => 0 | GPX => 1 | TCX => 2 | KML => 3 | CSV => 4
  end%nat.

Definition FileType_of_index (n : nat) : option FileType :=
  match n with
  | 0 => Some ACTIVITY_JSON | 1 => Some GPX | 2 => Some TCX
  | 3 => Some KML | 4 => Some CSV | _ => None
  end%nat.

#[export] Instance FileType_countable : Countable FileType.
Proof.
  apply (inj_countable FileType_index FileType_of_index).
  intros []; reflexivity.
Defined.

(** The members of the enumeration, in definition order. *)
Definition all_file_types : list FileType := [ACTIVITY_JSON; GPX; TCX; KML; CSV].

(** [file_type.value] *)
Definition FileType_value (t : FileType) : str :=
  match t with
  | ACTIVITY_JSON => lit "activity_json"
  | GPX => lit "gpx"
  | TCX => lit "tcx"
  | KML => lit "kml"
  | CSV => lit "csv"
  end.

(** [FileType(value)]: [None] stands for [ValueError]. *)
Definition FileType_of_value (v : str) : option FileType :=
  List.find (fun t => bool_decide (FileType_value t = v)) all_file_types.

(** [file_type.suffix] *)
Definition suffix (t : FileType) : str :=
  match t with
  | ACTIVITY_JSON => lit "json"
  | GPX => lit "gpx"
  | TCX => lit "tcx"
  | KML => lit "kml"
  | CSV => lit "csv"
  end.

(** [FileType.gps_file_types()] *)
Definition gps_file_types : list FileType :=
  List.filter (fun t => negb (bool_decide (t = ACTIVITY_JSON))) all_file_types.

(** ** [datetime] and [timedelta]

    A [datetime] holds its calendar fields, as the Python object does, and
    whether it carries [tzinfo].  The repository builds only two kinds:
    offset-naive ones ([strptime] in the configuration) and offset-aware
    ones in UTC ([Activity.from_api_response], [datetime.now(timezone.utc)]).
    A [timedelta] is its number of microseconds. *)

Record datetime := {
  year : N; month : N; day : N;
  hour : N; minute : N; second : N; microsecond : N;
  aware : bool       (* [tzinfo is timezone.utc] rather than [None] *)
}.

Abbreviation timedelta := Z.

Definition fields (d : datetime) : list N :=
  [year d; month d; day d; hour d; minute d; second d; microsecond d].

(** Tuple comparison of the fields, as [datetime._cmp] does. *)
Fixpoint lex_compare (a b : list N) : comparison :=
  match a, b with
  | x :: a', y :: b' =>
      match N.compare x y with
      | Eq => lex_compare a' b'
      | c => c
      end
  | [], [] => Eq
  | [], _ => Lt
  | _, [] => Gt
  end.

(** [a < b] and [a > b] on datetimes: ordering an offset-naive against an
    offset-aware datetime raises [TypeError]. *)
Definition datetime_lt (a b : datetime) : result bool :=
  if eqb (aware a) (aware b)
  then Ok (match lex_compare (fields a) (fields b) with Lt => true | _ => false end)
  else Raise TypeError.

Definition datetime_gt (a b : datetime) : result bool := datetime_lt b a.

Definition is_leap (y : Z) : bool :=
  (y mod 4 =? 0) && (negb (y mod 100 =? 0) || (y mod 400 =? 0)).

Definition days_before_year (y : Z) : Z :=
  let p := y - 1 in p * 365 + p / 4 - p / 100 + p / 400.

Definition days_in_month (y m : Z) : Z :=
  if m =? 2 then (if is_leap y then 29 else 28)
  else if (m =? 4) || (m =? 6) || (m =? 9) || (m =? 11) then 30 else 31.

Definition days_before_month (y m : Z) : Z :=
  fold_right Z.add 0 (List.map (days_in_month y) (List.map Z.of_nat (seq 1 (Z.to_nat (m - 1))))).

(** [date.toordinal()]: day 1 is 0001-01-01. *)
Definition toordinal (d : datetime) : Z :=
  days_before_year (Z.of_N (year d))
  + days_before_month (Z.of_N (year d)) (Z.of_N (month d))
  + Z.of_N (day d).

Definition MAXORDINAL : Z := 3652059.   (* 9999-12-31 *)

Definition usec_per_day : Z := 86400 * 1000000.

(** The position of a datetime on the time line, in microseconds. *)
Definition to_usec (d : datetime) : Z :=
  toordinal d * usec_per_day
  + ((Z.of_N (hour d) * 60 + Z.of_N (minute d)) * 60 + Z.of_N (second d)) * 1000000
  + Z.of_N (microsecond d).

(** [_ord2ymd]: the year, month and day of an ordinal. *)
Definition ord2ymd (n0 : Z) : Z * Z * Z :=
  let n := n0 - 1 in
  let n400 := n / 146097 in
  let n := n mod 146097 in
  let n100 := n / 36524 in
  let n := n mod 36524 in
  let n4 := n / 1461 in
  let n := n mod 1461 in
  let n1 := n / 365 in
  let n := n mod 365 in
  let y := n400 * 400 + 1 + n100 * 100 + n4 * 4 + n1 in
  if (n1 =? 4) || (n100 =? 4) then (y - 1, 12, 31)
  else
    let leapyear := (n1 =? 3) && (negb (n4 =? 24) || (n100 =? 3)) in
    let before m := days_before_month 1 m + (if (2 <? m) && leapyear then 1 else 0) in
    let m := Z.shiftr (n + 50) 5 in
    let m := if n <? before m then m - 1 else m in
    (y, m, n - before m + 1).

(** [d - delta]: [OverflowError] outside years 1..9999; [tzinfo] is kept. *)
Definition datetime_sub (d : datetime) (delta : timedelta) : result datetime :=
  let t := to_usec d - delta in
  let days := t / usec_per_day in
  let rest := t mod usec_per_day in
  if (0 <? days) && (days <=? MAXORDINAL) then
    let '(y, m, dd) := ord2ymd days in
    let secs := rest / 1000000 in
    Ok {| year := Z.to_N y; month := Z.to_N m; day := Z.to_N dd;
          hour := Z.to_N (secs / 3600);
          minute := Z.to_N ((secs mod 3600) / 60);
          second := Z.to_N (secs mod 60);
          microsecond := Z.to_N (rest mod 1000000);
          aware := aware d |}
  else Raise OverflowError.

(** [start_time.strftime('%Y-%m-%d-%H-%M-%S')] with the C library of the
    container image (glibc): [%Y] is the year without padding, so [987]
    for the year 987; the other fields are padded to two digits. *)
Definition _format_start_time (t : datetime) : str :=
  str_of_N (year t) ++ lit "-" ++ zfill 2 (month t) ++ lit "-" ++ zfill 2 (day t)
  ++ lit "-" ++ zfill 2 (hour t) ++ lit "-" ++ zfill 2 (minute t)
  ++ lit "-" ++ zfill 2 (second t).

(** ** [bytes] and UTF-8 *)

Abbreviation bytes := (list byte).

#[export] Instance byte_eq_dec : EqDecision byte.
Proof.
  intros a b. destruct (decide (Byte.to_N a = Byte.to_N b)) as [H|H].
  - left. apply (f_equal Byte.of_N) in H. rewrite !Byte.of_to_N in H. congruence.
  - right. congruence.
Defined.

Definition byte_of (n : N) : byte :=
  match Byte.of_N n with Some b => b | None => x00 end.

(** [text.encode('utf-8')] on text without lone surrogates (the text of
    [json.dumps] is ASCII, its [ensure_ascii] being on). *)
Definition encode_utf8 (s : str) : bytes :=
  List.flat_map (fun c =>
    if (c <? 128)%N then [byte_of c]
    else if (c <? 2048)%N then
      [byte_of (192 + c / 64); byte_of (128 + c mod 64)]
    else if (c <? 65536)%N then
      [byte_of (224 + c / 4096); byte_of (128 + (c / 64) mod 64);
       byte_of (128 + c mod 64)]
    else
      [byte_of (240 + c / 262144); byte_of (128 + (c / 4096) mod 64);
       byte_of (128 + (c / 64) mod 64); byte_of (128 + c mod 64)])%N s.

Definition in_range (lo hi x : N) : bool := ((lo <=? x) && (x <=? hi))%N.

(** Whether [data.decode('utf-8')] succeeds: the well-formed byte sequences
    of the Unicode standard (no overlong form, no surrogate, at most
    U+10FFFF). *)
Fixpoint utf8_wellformed (l : list N) : bool :=
  match l with
  | [] => true
  | b0 :: r0 =>
      if (b0 <? 128)%N then utf8_wellformed r0
      else match r0 with
      | [] => false
      | b1 :: r1 =>
          if in_range 194 223 b0 then in_range 128 191 b1 && utf8_wellformed r1
          else match r1 with
          | [] => false
          | b2 :: r2 =>
              if in_range 224 239 b0 then
                in_range (if (b0 =? 224)%N then 160 else 128)
                         (if (b0 =? 237)%N then 159 else 191) b1
                && in_range 128 191 b2 && utf8_wellformed r2
              else match r2 with
              | [] => false
              | b3 :: r3 =>
                  in_range 240 244 b0
                  && in_range (if (b0 =? 240)%N then 144 else 128)
                              (if (b0 =? 244)%N then 143 else 191) b1
                  && in_range 128 191 b2 && in_range 128 191 b3
                  && utf8_wellformed r3
              end
          end
      end
  end.

Definition decodes_utf8 (data : bytes) : bool :=
  utf8_wellformed (List.map Byte.to_N data).

(** ** JSON values and [json.dumps(raw, indent=2, sort_keys=True)] *)

#[warnings="-register-all"] Inductive json :=
  | JNull
  | JBool (b : bool)
  | JInt (z : Z)
  | JFloat (repr : string)          (* the text the runtime prints for it *)
  | JStr (s : str)
  | JList (items : list json)
  | JDict (items : list (str * json)).   (* a [dict]: keys are distinct *)

Definition hex_digit (n : N) : N :=
  (if n <? 10 then 48 + n else 87 + n)%N.

(** [\uXXXX], in lower-case hexadecimal. *)
Definition u_escape (n : N) : str :=
  lit "\u" ++ [hex_digit (n / 4096 mod 16); hex_digit (n / 256 mod 16);
               hex_digit (n / 16 mod 16); hex_digit (n mod 16)]%N.

Definition escape_char (c : N) : str :=
  if (c =? 34)%N then [92; 34]%N
  else if (c =? 92)%N then [92; 92]%N
  else if in_range 32 126 c then [c]
  else if (c =? 8)%N then lit "\b"
  else if (c =? 12)%N then lit "\f"
  else if (c =? 10)%N then lit "\n"
  else if (c =? 13)%N then lit "\r"
  else if (c =? 9)%N then lit "\t"
  else if (c <? 65536)%N then u_escape c
  else
    let n := (c - 65536)%N in
    u_escape (N.lor 55296 (N.land (N.shiftr n 10) 1023))
    ++ u_escape (N.lor 56320 (N.land n 1023)).

(** [encode_basestring_ascii] *)
Definition encode_basestring_ascii (s : str) : str :=
  [34%N] ++ List.flat_map escape_char s ++ [34%N].

Definition str_le (a b : str) : bool :=
  match lex_compare a b with Gt => false | _ => true end.

(** A stable sort of the items by key, as [sorted(dct.items())] gives for
    distinct keys. *)
Fixpoint insert_item {V} (kv : str * V) (l : list (str * V)) : list (str * V) :=
  match l with
  | [] => [kv]
  | kv' :: r =>
      if str_le (fst kv) (fst kv') then kv :: l else kv' :: insert_item kv r
  end.

Definition sort_items {V} (l : list (str * V)) : list (str * V) :=
  fold_right insert_item [] l.

Fixpoint join (sep : str) (l : list str) : str :=
  match l with
  | [] => []
  | [x] => x
  | x :: r => x ++ sep ++ join sep r
  end.

Definition newline_indent (level : nat) : str :=
  10%N :: repeat 32%N (2 * level).

Fixpoint dumps_at (level : nat) (j : json) : str :=
  match j with
  | JNull => lit "null"
  | JBool true => lit "true"
  | JBool false => lit "false"
  | JInt z => str_of_int z
  | JFloat r => lit r
  | JStr s => encode_basestring_ascii s
  | JList [] => lit "[]"
  | JList items =>
      lit "[" ++ newline_indent (S level)
      ++ join (lit "," ++ newline_indent (S level))
              (List.map (dumps_at (S level)) items)
      ++ newline_indent level ++ lit "]"
  | JDict [] => lit "{}"
  | JDict items =>
      lit "{" ++ newline_indent (S level)
      ++ join (lit "," ++ newline_indent (S level))
              (List.map (fun kv => encode_basestring_ascii (fst kv) ++ lit ": " ++ snd kv)
                 (sort_items
                    (List.map (fun kv => (fst kv, dumps_at (S level) (snd kv))) items)))
      ++ newline_indent level ++ lit "}"
  end.

Definition json_dumps (j : json) : str := dumps_at 0 j.

(** ** [source/activity.py] *)

Abbreviation ActivityId := Z.

Record Activity := {
  raw : json;
  id : ActivityId;
  name : str;
  type : str;
  start_time_gmt : datetime;
  hasPolyline : bool
}.

(** [Activity.dump] *)
Definition dump (a : Activity) : bytes := encode_utf8 (json_dumps (raw a)).

(** ** Paths ([pathlib.PurePosixPath])

    A path is the list of its parts; the root of an absolute path is the
    part [/], or [//] for a text that starts with exactly two slashes, as
    in [Path.parts]. *)

Abbreviation Path := (list str).

Definition slash : N := chr "/".
Definition dot : N := chr ".".

(** The root of [Path(s)]: none, [/], or [//] for exactly two leading
    slashes. *)
Definition root_of_str (s : str) : Path :=
  match s with
  | c1 :: c2 :: c3 :: _ =>
      if (c1 =? slash)%N
      then (if (c2 =? slash)%N && negb (c3 =? slash)%N
            then [[slash; slash]] else [[slash]])
      else []
  | [c1; c2] =>
      if (c1 =? slash)%N
      then (if (c2 =? slash)%N then [[slash; slash]] else [[slash]])
      else []
  | [c1] => if (c1 =? slash)%N then [[slash]] else []
  | [] => []
  end.

(** Whether a part is a root: the other parts hold no slash. *)
Definition is_root (part : str) : bool :=
  bool_decide (part = [slash]) || bool_decide (part = [slash; slash]).

(** [Path(s)]: empty parts and [.] parts are dropped. *)
Definition Path_of_str (s : str) : Path :=
  let parts :=
    List.filter (fun p => negb (bool_decide (p = []) || bool_decide (p = [dot])))
                (split_on slash s) in
  root_of_str s ++ parts.

Definition is_absolute_str (s : str) : bool :=
  match s with
  | c :: _ => (c =? slash)%N
  | [] => false
  end.

(** [p / s] *)
Definition path_join (p : Path) (s : str) : Path :=
  if is_absolute_str s then Path_of_str s else p ++ Path_of_str s.

(** [p.name] *)
Definition path_name (p : Path) : str :=
  match rev p with
  | last :: _ => if is_root last then [] else last
  | [] => []
  end.

(** [p.parent] *)
Definition path_parent (p : Path) : Path :=
  match rev p with
  | last :: front => if is_root last then p else rev front
  | [] => []
  end.

(** The text before and after the last occurrence of [c] in [s], if any. *)
Fixpoint rsplit_char (c : N) (s : str) : option (str * str) :=
  match s with
  | [] => None
  | x :: r =>
      match rsplit_char c r with
      | Some (before, after) => Some (x :: before, after)
      | None => if (x =? c)%N then Some ([], r) else None
      end
  end.

(** [p.suffix]: from the last dot of the name, when that dot is neither
    its first nor its last character. *)
Definition path_suffix (p : Path) : str :=
  match rsplit_char dot (path_name p) with
  | Some (before, after) =>
      if bool_decide (before = []) || bool_decide (after = []) then []
      else dot :: after
  | None => []
  end.

(** ** [source/file_manager/per_activity.py] *)

Definition ACTIVITY_MARKER : str := lit "activity".

Record ActivityFileManager := {
  activity_id : ActivityId;
  download_file_types : gset FileType
}.

Definition _sanitize_filename_component (U : UnicodeDB) (name : str) : str :=
  (* Replace filesystem-unsafe characters *)
  let sanitized := replace_char (chr "\") (chr "_") (replace_char slash (chr "_") name) in
  (* Keep only alphanumeric, spaces, hyphens, and underscores *)
  let sanitized :=
    strip (List.filter (fun c => isalnum U c || (c =? chr " ")%N || (c =? chr "-")%N
                                  || (c =? chr "_")%N) sanitized) in
  (* Replace spaces with underscores and limit length *)
  let sanitized := firstn 50 (replace_char (chr " ") (chr "_") sanitized) in
  match sanitized with
  | [] => lit "unnamed"
  | _ => sanitized
  end.

Definition format_into_filename (U : UnicodeDB) (self : ActivityFileManager)
    (activity : Activity) (file_type : FileType) : result str :=
  (* Verify activity_id matches the activity dictionary *)
  if negb (id activity =? activity_id self) then
    Raise (ValueError ActivityIdMismatch)
  (* Verify we already have this file type *)
  else if negb (bool_decide (file_type ∈ download_file_types self)) then
    Raise (ValueError FileTypeNotDownloadedYet)
  else
    let date_prefix := _format_start_time (start_time_gmt activity) in
    let activity_name_clean := _sanitize_filename_component U (name activity) in
    Ok (date_prefix ++ lit "_" ++ ACTIVITY_MARKER ++ lit "_" ++ str_of_int (id activity)
        ++ lit "_" ++ type activity ++ lit "_" ++ activity_name_clean
        ++ lit "." ++ suffix file_type).

Definition create_from_file_path (U : UnicodeDB) (file_path : Path)
    (file_type : FileType) : result ActivityFileManager :=
  if negb (bool_decide (path_suffix file_path = dot :: suffix file_type)) then
    Raise (ValueError NoMatchingFileType)
  else
    match split_on (chr "_") (path_name file_path) with
    | _ :: marker :: id_text :: _ =>
        if negb (bool_decide (marker = ACTIVITY_MARKER)) then
          Raise (ValueError NoActivityMarker)
        else
          match int_of_str U id_text with
          | Some activity_id =>
              Ok {| activity_id := activity_id;
                    download_file_types := {[ file_type ]} |}
          | None => Raise (ValueError ActivityIdNotNumeric)
          end
    | _ => Raise (ValueError NoActivityMarker)
    end.

(** ** State, environment and the monad of the stateful code *)

(** [FileManagerConfig] *)
Record FileManagerConfig := {
  excluded_activity_ids : gset ActivityId;
  excluded_activity_types : gset str;
  excluded_file_types : gset FileType;
  start_date : option datetime;
  end_date : option datetime;
  minimum_activity_age : option timedelta
}.

(** The fields of [Config] that the export pass reads. *)
Record Config := {
  batch_size : Z;
  check_for_activity_changes_enabled : bool;   (* [check_for_activity_changes] *)
  always_recheck_all_activities : bool;
  file_manager_config : FileManagerConfig;
  download_directory : Path
}.

(** What the code reads and never writes: its configuration, the tables of
    the runtime, the wall clock (one reading per call of [datetime.now]) and
    the Garmin client. *)
Record Env := {
  unicode : UnicodeDB;
  config : Config;
  clock : nat -> datetime;
  get_activities : Z -> Z -> result (list Activity);
  download_activity : ActivityId -> FileType -> result bytes
}.

(** What the code mutates: the ledger of the file manager, the files under
    the download root, the number of clock readings so far, and the two
    counters of the exporter. *)
Record World := {
  downloaded_activities : gmap ActivityId ActivityFileManager;
  files : gmap Path bytes;
  clock_reads : nat;
  oldest_downloaded_activity_id : option ActivityId;
  cron_iteration : nat
}.

Definition set_downloaded_activities (m : gmap ActivityId ActivityFileManager)
    (w : World) : World :=
  {| downloaded_activities := m; files := files w; clock_reads := clock_reads w;
     oldest_downloaded_activity_id := oldest_downloaded_activity_id w;
     cron_iteration := cron_iteration w |}.

Definition set_files (f : gmap Path bytes) (w : World) : World :=
  {| downloaded_activities := downloaded_activities w; files := f;
     clock_reads := clock_reads w;
     oldest_downloaded_activity_id := oldest_downloaded_activity_id w;
     cron_iteration := cron_iteration w |}.

Definition set_clock_reads (n : nat) (w : World) : World :=
  {| downloaded_activities := downloaded_activities w; files := files w;
     clock_reads := n;
     oldest_downloaded_activity_id := oldest_downloaded_activity_id w;
     cron_iteration := cron_iteration w |}.

Definition set_oldest_downloaded_activity_id (o : option ActivityId)
    (w : World) : World :=
  {| downloaded_activities := downloaded_activities w; files := files w;
     clock_reads := clock_reads w;
     oldest_downloaded_activity_id := o;
     cron_iteration := cron_iteration w |}.

Definition set_cron_iteration (n : nat) (w : World) : World :=
  {| downloaded_activities := downloaded_activities w; files := files w;
     clock_reads := clock_reads w;
     oldest_downloaded_activity_id := oldest_downloaded_activity_id w;
     cron_iteration := n |}.

(** A computation returns a value or raises, and in both cases leaves a
    state behind. *)
Definition M (A : Type) : Type := World -> result A * World.

Definition ret {A} (a : A) : M A := fun w => (Ok a, w).
Definition raise {A} (e : exn) : M A := fun w => (Raise e, w).
Definition bind {A B} (m : M A) (k : A -> M B) : M B :=
  fun w => match m w with
           | (Ok a, w') => k a w'
           | (Raise e, w') => (Raise e, w')
           end.
Definition lift {A} (r : result A) : M A := fun w => (r, w).
Definition get_world : M World := fun w => (Ok w, w).
Definition modify (f : World -> World) : M unit := fun w => (Ok tt, f w).

#[export] Instance M_ret : MRet M := @ret.
#[export] Instance M_bind : MBind M := fun A B k m => bind m k.

(** [for x in l: body x] *)
Fixpoint for_each {A} (l : list A) (body : A -> M unit) : M unit :=
  match l with
  | [] => ret tt
  | x :: r => body x ;; for_each r body
  end.

(** A clock reading, taken as a UTC time. *)
Definition as_utc (t : datetime) : datetime :=
  {| year := year t; month := month t; day := day t; hour := hour t;
     minute := minute t; second := second t;
     microsecond := microsecond t; aware := true |}.

(** [datetime.now(timezone.utc)] *)
Definition datetime_now_utc (E : Env) : M datetime :=
  fun w => (Ok (as_utc (clock E (clock_reads w))),
            set_clock_reads (S (clock_reads w)) w).

(** ** [source/file_manager/all.py] *)

Section FileManager.
Context (E : Env).

Let cfg : FileManagerConfig := file_manager_config (config E).

Definition should_ignore_file (file_path : Path) : bool :=
  let ignored_filenames : list str :=
    [lit ".DS_Store"; lit "Thumbs.db"; lit ".gitkeep"; lit ".gitignore"] in
  let ignored_extensions : list str :=
    [lit ".tmp"; lit ".temp"; lit ".swp"; lit ".bak"] in
  (* Ignore system files and temporary files *)
  if bool_decide (path_name file_path ∈ ignored_filenames) then true
  else if bool_decide (lower (unicode E) (path_suffix file_path) ∈ ignored_extensions)
  then true
  else false.

Definition add_preexisting_file (file_path : Path) : M unit :=
  if should_ignore_file file_path then ret tt
  else
    match FileType_of_value (path_name (path_parent file_path)) with
    | None => raise (ValueError InvalidFileTypeDirectory)
    | Some file_type =>
        activity_file_manager ← lift (create_from_file_path (unicode E) file_path file_type);
        w ← get_world;
        match downloaded_activities w !! activity_id activity_file_manager with
        | None =>
            modify (set_downloaded_activities
                      (<[activity_id activity_file_manager := activity_file_manager]>
                         (downloaded_activities w)))
        | Some existing =>
            modify (set_downloaded_activities
                      (<[activity_id activity_file_manager :=
                           {| activity_id := activity_id existing;
                              download_file_types :=
                                {[ file_type ]} ∪ download_file_types existing |}]>
                         (downloaded_activities w)))
        end
    end.

Definition _retrieve_download_path (activity : Activity) (file_type : FileType)
  : M Path :=
  w ← get_world;
  match downloaded_activities w !! id activity with
  | None => raise KeyError
  | Some record =>
      file_name ← lift (format_into_filename (unicode E) record activity file_type);
      ret (path_join (path_join (download_directory (config E))
                                (FileType_value file_type)) file_name)
  end.

Definition _record_download_path (aid : ActivityId) (file_type : FileType)
  : M unit :=
  modify (fun w =>
    let m := downloaded_activities w in
    let m := match m !! aid with
             | None => <[aid := {| activity_id := aid; download_file_types := ∅ |}]> m
             | Some _ => m
             end in
    match m !! aid with
    | Some record =>
        set_downloaded_activities
          (<[aid := {| activity_id := activity_id record;
                       download_file_types :=
                         {[ file_type ]} ∪ download_file_types record |}]> m) w
    | None => w
    end).

(** [file_type in self.downloaded_activities[activity.id].download_file_types],
    guarded by [activity.id in self.downloaded_activities]. *)
Definition already_downloaded (w : World) (activity : Activity)
    (file_type : FileType) : bool :=
  match downloaded_activities w !! id activity with
  | Some record => bool_decide (file_type ∈ download_file_types record)
  | None => false
  end.

Definition record_and_retrieve_download_path (activity : Activity)
    (file_type : FileType) : M (option Path) :=
  w ← get_world;
  if already_downloaded w activity file_type then mret None
  else if bool_decide (id activity ∈ excluded_activity_ids cfg) then mret None
  else if bool_decide (type activity ∈ excluded_activity_types cfg) then mret None
  else if bool_decide (file_type ∈ excluded_file_types cfg) then mret None
  else
    before_start ←
      match start_date cfg with
      | Some d => lift (datetime_lt (start_time_gmt activity) d)
      | None => mret false
      end;
    if before_start : bool then mret None
    else
      after_end ←
        match end_date cfg with
        | Some d => lift (datetime_gt (start_time_gmt activity) d)
        | None => mret false
        end;
      if after_end : bool then mret None
      else
        too_recent ←
          match minimum_activity_age cfg with
          | Some age =>
              now_utc ← datetime_now_utc E;
              cutoff_time ← lift (datetime_sub now_utc age);
              lift (datetime_gt (start_time_gmt activity) cutoff_time)
          | None => mret false
          end;
        if too_recent : bool then mret None
        else if (bool_decide (file_type = GPX) || bool_decide (file_type = TCX))
                && negb (hasPolyline activity)
        then mret None
        else
          _record_download_path (id activity) file_type;;
          path ← _retrieve_download_path activity file_type;
          mret (Some path).

(** [file_path.unlink()] when [file_path.exists()] *)
Definition unlink_if_exists (file_path : Path) : M unit :=
  modify (fun w =>
    match files w !! file_path with
    | Some _ => set_files (delete file_path (files w)) w
    | None => w
    end).

Definition mark_activity_as_redownloadable (activity : Activity) : M unit :=
  w ← get_world;
  match downloaded_activities w !! id activity with
  | None => raise (ValueError ActivityNotTracked)
  | Some record =>
      (* Delete physical files for all recorded file types *)
      for_each (elements (download_file_types record)) (fun file_type =>
        file_path ← _retrieve_download_path activity file_type;
        unlink_if_exists file_path);;
      (* Clear the downloaded file types to mark for redownload *)
      w ← get_world;
      match downloaded_activities w !! id activity with
      | None => raise KeyError
      | Some record =>
          modify (set_downloaded_activities
                    (<[id activity := {| activity_id := activity_id record;
                                         download_file_types := ∅ |}]>
                       (downloaded_activities w)))
      end
  end.

Definition check_for_activity_changes (activity : Activity) : M unit :=
  w ← get_world;
  match downloaded_activities w !! id activity with
  | None => mret tt
  | Some record =>
      if negb (bool_decide (ACTIVITY_JSON ∈ download_file_types record)) then mret tt
      else
        existing_file_path ← _retrieve_download_path activity ACTIVITY_JSON;
        match files w !! existing_file_path with
        | None => mark_activity_as_redownloadable activity
        | Some existing_data =>
            let current_data := dump activity in
            if bool_decide (current_data = existing_data) then mret tt
            else
              (* Generate and log the diff: both texts are decoded first *)
              if negb (decodes_utf8 current_data) then raise UnicodeDecodeError
              else if negb (decodes_utf8 existing_data) then raise UnicodeDecodeError
              else mark_activity_as_redownloadable activity
        end
  end.

End FileManager.

(** ** [source/exporter.py]: one export pass *)

(** Python truthiness of an [Optional[int]]. *)
Definition truthy (o : option ActivityId) : bool :=
  match o with
  | Some z => negb (z =? 0)
  | None => false
  end.

(** The local variables of [download_all_activities_iteration] that the
    loops update. *)
Record LoopVars := {
  downloaded_count : nat;
  skipped_count : nat;
  current_run_oldest_downloaded_activity_id : option ActivityId;
  reached_boundary : bool
}.

(** What the pass logs for one batch: the offset it fetched at and, for
    each activity of the page in order, its id and the count [d] that
    [_maybe_download_activity] returned for it and that the pass adds to
    [downloaded_count]: the number of kinds for which a destination path
    was handed out.  A kind is counted also when the API then returns no
    bytes for it and [_write_gps_file] writes nothing. *)
Record BatchLog := {
  batch_start : Z;
  processed : list (ActivityId * nat)
}.

Section Exporter.
Context (E : Env).

(** [open(path, 'wb')] and [f.write(data)] in a directory that exists: the
    directories of the kinds do ([_ensure_download_directory_exists]), and
    the paths the exporter writes to are files of these directories unless
    the type tag of the activity holds a [/].  With such a tag the parent
    directory is one that nobody created and [open] raises
    [FileNotFoundError]; that, like the other errors of the file system,
    is not represented. *)
Definition write_file (path : Path) (data : bytes) : M unit :=
  modify (fun w => set_files (<[path := data]> (files w)) w).

Definition _write_activity_json (activity : Activity) (path : Path) : M unit :=
  write_file path (dump activity).

Definition _write_gps_file (activity : Activity) (path : Path)
    (file_type : FileType) : M unit :=
  gps_data ← lift (download_activity E (id activity) file_type);
  match gps_data with
  | [] => mret tt
  | _ => write_file path gps_data
  end.

(** The loop over [FileType.gps_file_types()] of [_maybe_download_activity]. *)
Fixpoint gps_downloads (activity : Activity) (types : list FileType)
    (counts : nat * nat) : M (nat * nat) :=
  match types with
  | [] => mret counts
  | file_type :: rest =>
      gps_path ← record_and_retrieve_download_path E activity file_type;
      match gps_path with
      | Some path =>
          _write_gps_file activity path file_type;;
          gps_downloads activity rest (S (fst counts), snd counts)
      | None => gps_downloads activity rest (fst counts, S (snd counts))
      end
  end.

Definition _maybe_download_activity (activity : Activity) : M (nat * nat) :=
  (* Activity JSON first *)
  activity_json_path ← record_and_retrieve_download_path E activity ACTIVITY_JSON;
  counts ←
    match activity_json_path with
    | Some path => _write_activity_json activity path;; mret (1, 0)%nat
    | None => mret (0, 1)%nat
    end;
  (* GPS data next *)
  gps_downloads activity gps_file_types counts.

(** The body of [for activity in activities]; it also gives the number of
    files downloaded for the activity. *)
Definition process_activity (activity : Activity) (v : LoopVars)
  : M (LoopVars * nat) :=
  let current :=
    if negb (truthy (current_run_oldest_downloaded_activity_id v))
    then Some (id activity)
    else current_run_oldest_downloaded_activity_id v in
  w ← get_world;
  let boundary :=
    if truthy (oldest_downloaded_activity_id w)
       && bool_decide (Some (id activity) = oldest_downloaded_activity_id w)
    then true else reached_boundary v in
  (if check_for_activity_changes_enabled (config E)
   then check_for_activity_changes E activity else mret tt);;
  ds ← _maybe_download_activity activity;
  let d := fst ds in
  mret ({| downloaded_count := downloaded_count v + d;
           skipped_count := skipped_count v + snd ds;
           current_run_oldest_downloaded_activity_id :=
             if (0 <? d)%nat then Some (id activity) else current;
           reached_boundary := if (0 <? d)%nat then false else boundary |}, d).

Fixpoint process_activities (activities : list Activity) (v : LoopVars)
  : M (LoopVars * list (ActivityId * nat)) :=
  match activities with
  | [] => mret (v, [])
  | activity :: rest =>
      vd ← process_activity activity v;
      vl ← process_activities rest (fst vd);
      mret (fst vl, (id activity, snd vd) :: snd vl)
  end.

Definition start_batch (v : LoopVars) : LoopVars :=
  {| downloaded_count := downloaded_count v;
     skipped_count := skipped_count v;
     current_run_oldest_downloaded_activity_id :=
       current_run_oldest_downloaded_activity_id v;
     reached_boundary := false |}.

(** The [while True] loop.  [None] means that [fuel] iterations were not
    enough; otherwise the loop ended, by [break] or by an exception. *)
Fixpoint download_loop (fuel : nat) (start : Z) (v : LoopVars) (w : World)
  : option (result (LoopVars * list BatchLog) * World) :=
  match fuel with
  | O => None
  | S fuel' =>
      match get_activities E start (batch_size (config E)) with
      | Raise e => Some (Raise e, w)
      | Ok [] => Some (Ok (v, [{| batch_start := start; processed := [] |}]), w)
      | Ok activities =>
          match process_activities activities (start_batch v) w with
          | (Raise e, w') => Some (Raise e, w')
          | (Ok (v', ds), w') =>
              let this := {| batch_start := start; processed := ds |} in
              if reached_boundary v' && negb (always_recheck_all_activities (config E))
              then Some (Ok (v', [this]), w')
              else
                match download_loop fuel' (start + batch_size (config E)) v' w' with
                | Some (Ok (v'', rest), w'') => Some (Ok (v'', this :: rest), w'')
                | other => other
                end
          end
      end
  end.

Definition initial_vars : LoopVars :=
  {| downloaded_count := 0; skipped_count := 0;
     current_run_oldest_downloaded_activity_id := None;
     reached_boundary := false |}.

(** One pass; it gives the batches it logged. *)
Definition download_all_activities_iteration (fuel : nat) (w : World)
  : option (result (list BatchLog) * World) :=
  let w := set_cron_iteration (S (cron_iteration w)) w in
  match download_loop fuel 0 initial_vars w with
  | None => None
  | Some (Raise e, w') => Some (Raise e, w')
  | Some (Ok (v, batches), w') =>
      if truthy (current_run_oldest_downloaded_activity_id v)
      then Some (Ok batches,
                 set_oldest_downloaded_activity_id
                   (current_run_oldest_downloaded_activity_id v) w')
      else Some (Ok batches, w')
  end.

End Exporter.

(** The state of a freshly constructed exporter over the files [f]. *)
Definition initial_world (f : gmap Path bytes) : World :=
  {| downloaded_activities := ∅; files := f; clock_reads := 0;
     oldest_downloaded_activity_id := None; cron_iteration := 0 |}.

(** * Specification-level definitions *)

(** The characters of dates and of integers: digits and the hyphen. *)
Definition date_char (c : N) : bool := is_ascii_digit c || (c =? chr "-")%N.

(** ** The filename format, in the words of the specification *)

Definition collapse_separators (s : str) : str :=
  List.map (fun c => if (c =? chr "/")%N || (c =? chr "\")%N then chr "_" else c) s.

Definition safe_character (U : UnicodeDB) (c : N) : bool :=
  isalnum U c || (c =? chr " ")%N || (c =? chr "-")%N || (c =? chr "_")%N.

Definition spaces_to_underscores (s : str) : str :=
  List.map (fun c => if (c =? chr " ")%N then chr "_" else c) s.

Definition or_unnamed (s : str) : str :=
  match s with
  | [] => lit "unnamed"
  | _ => s
  end.

(** The sanitized name as the specification words it: collapse the path
    separators, keep the safe characters, turn spaces into underscores,
    truncate to 50 characters, [unnamed] when nothing is left. *)
Definition spec_sanitized_name (U : UnicodeDB) (name : str) : str :=
  or_unnamed
    (firstn 50 (spaces_to_underscores
                  (List.filter (safe_character U) (collapse_separators name)))).

(** The same with the white space at both ends trimmed once the unsafe
    characters are gone. *)
Definition trimmed_sanitized_name (U : UnicodeDB) (name : str) : str :=
  or_unnamed
    (firstn 50 (spaces_to_underscores
                  (strip (List.filter (safe_character U) (collapse_separators name))))).

(** The start time as [YYYY-MM-DD-HH-MM-SS]: four digits for the year, two
    for every other field. *)
Definition spec_start_time (t : datetime) : str :=
  zfill 4 (year t) ++ lit "-" ++ zfill 2 (month t) ++ lit "-" ++ zfill 2 (day t)
  ++ lit "-" ++ zfill 2 (hour t) ++ lit "-" ++ zfill 2 (minute t)
  ++ lit "-" ++ zfill 2 (second t).

(** The years that are written with four digits. *)
Definition four_digit_year (t : datetime) : Prop := (1000 <= year t <= 9999)%N.

(** [{start}_activity_{id}_{type}_{name}.{suffix}] *)
Definition spec_filename (start : str) (i : ActivityId) (type name suffix : str) : str :=
  start ++ lit "_activity_" ++ str_of_int i ++ lit "_" ++ type ++ lit "_" ++ name
  ++ lit "." ++ suffix.

(** The filename claim as the specification states it. *)
Definition filename_claim_as_stated (U : UnicodeDB) (self : ActivityFileManager)
    (a : Activity) (k : FileType) : Prop :=
  forall fn, format_into_filename U self a k = Ok fn ->
    fn = spec_filename (spec_start_time (start_time_gmt a)) (id a) (type a)
           (spec_sanitized_name U (name a)) (suffix k).

(** The record that tracks exactly the kind [k] of activity [a]. *)
Definition record_for (a : Activity) (k : FileType) : ActivityFileManager :=
  {| activity_id := id a; download_file_types := {[ k ]} |}.

(** Encode, decode, encode again. *)
Definition roundtrip (U : UnicodeDB) (a : Activity) (k : FileType) : Prop :=
  exists fn decoded,
    format_into_filename U (record_for a k) a k = Ok fn
    /\ create_from_file_path U (Path_of_str fn) k = Ok decoded
    /\ activity_id decoded = id a
    /\ format_into_filename U decoded a k = Ok fn.

(** ** Concrete values *)

(** A character database in which no code point outside ASCII is
    alphanumeric or a digit, and lower-casing leaves them alone. *)
Definition ascii_only_db : UnicodeDB :=
  {| unicode_isalnum := fun _ => false;
     unicode_decimal := fun _ => None;
     unicode_lower := fun c => [c] |}.

(** A database that takes every code point outside ASCII for a letter. *)
Definition letters_db : UnicodeDB :=
  {| unicode_isalnum := fun _ => true;
     unicode_decimal := fun _ => None;
     unicode_lower := fun c => [c] |}.

Definition utc (y mo d h mi s : N) : datetime :=
  {| year := y; month := mo; day := d; hour := h; minute := mi; second := s;
     microsecond := 0; aware := true |}.

Definition naive (y mo d h mi s : N) : datetime :=
  {| year := y; month := mo; day := d; hour := h; minute := mi; second := s;
     microsecond := 0; aware := false |}.

(** The activity of the specification's concrete scenario. *)
Definition morning_run : Activity :=
  {| raw := JDict [(lit "activityId", JInt 12345678901);
                   (lit "activityName", JStr (lit "Morning Run in Central Park"));
                   (lit "averageHR", JInt 150);
                   (lit "hasPolyline", JBool true)];
     id := 12345678901;
     name := lit "Morning Run in Central Park";
     type := lit "running";
     start_time_gmt := utc 2024 1 15 8 30 0;
     hasPolyline := true |}.

(** An activity whose name starts with a space. *)
Definition padded_name_activity : Activity :=
  {| raw := JDict []; id := 42; name := lit " a"; type := lit "running";
     start_time_gmt := utc 2024 1 15 8 30 0; hasPolyline := true |}.

(** An activity whose type tag holds a path separator. *)
Definition slash_type_activity : Activity :=
  {| raw := JDict []; id := 1; name := lit "x"; type := lit "a/b";
     start_time_gmt := utc 2024 1 15 8 30 0; hasPolyline := true |}.

(** An activity with an adversarial name: slashes, a backslash, accented
    and astral code points, blanks at both ends, more than 50 characters. *)
Definition adversarial_activity : Activity :=
  {| raw := JDict []; id := -7;
     name := lit "  ../..\\etc/passwd " ++ [233; 26085; 128512]%N
             ++ repeat (chr "z") 60 ++ lit "  ";
     type := lit "trail_running.v2";
     start_time_gmt := utc 987 12 31 23 59 59; hasPolyline := false |}.

(** The entries of the character database for the three code points
    outside ASCII of the names below: U+00E9 and U+65E5 are letters,
    U+1F600 is not. *)
Definition sample_db : UnicodeDB :=
  {| unicode_isalnum := fun c => (c =? 233)%N || (c =? 26085)%N;
     unicode_decimal := fun _ => None;
     unicode_lower := fun c => [c] |}.

(** An activity of 2024 with an unsafe name: slashes, a backslash, blanks
    at both ends, the letters U+00E9 and U+65E5, the emoji U+1F600, more
    than 50 characters. *)
Definition unsafe_name_activity : Activity :=
  {| raw := JDict []; id := 42;
     name := lit "  ../..\\etc/passwd " ++ [233; 26085; 128512]%N
             ++ repeat (chr "z") 60 ++ lit "  ";
     type := lit "trail_running";
     start_time_gmt := utc 2024 12 31 23 59 59; hasPolyline := false |}.

(** What [unsafe_name_activity] is encoded as, for the CSV kind. *)
Definition unsafe_name_filename : str :=
  lit "2024-12-31-23-59-59_activity_42_trail_running____etc_passwd_"
  ++ [233; 26085]%N ++ repeat (chr "z") 34 ++ lit ".csv".

(** ** The ledger *)

(** Every record is stored under its own activity id. *)
Definition ledger_inv (w : World) : Prop :=
  map_Forall (fun k record => activity_id record = k) (downloaded_activities w).

(** The filename and the path the code computes for a kind of an activity. *)
Definition filename (E : Env) (a : Activity) (k : FileType) : str :=
  _format_start_time (start_time_gmt a) ++ lit "_" ++ ACTIVITY_MARKER ++ lit "_"
  ++ str_of_int (id a) ++ lit "_" ++ type a ++ lit "_"
  ++ _sanitize_filename_component (unicode E) (name a) ++ lit "." ++ suffix k.

Definition canonical_path (E : Env) (a : Activity) (k : FileType) : Path :=
  path_join (path_join (download_directory (config E)) (FileType_value k))
            (filename E a k).

(** The kinds the ledger holds for an activity; none when it has no record. *)
Definition materialized (w : World) (i : ActivityId) : gset FileType :=
  match downloaded_activities w !! i with
  | Some record => download_file_types record
  | None => ∅
  end.

Definition tracked (w : World) (i : ActivityId) : Prop :=
  is_Some (downloaded_activities w !! i).

(** The states the program can be in: those built from a fresh exporter by
    the public operations of the file manager, by export passes, and by
    whatever writes or removes files under the download root. *)
Inductive reachable (E : Env) : World -> Prop :=
  | reach_initial f : reachable E (initial_world f)
  | reach_files w f : reachable E w -> reachable E (set_files f w)
  | reach_add_preexisting_file w p :
      reachable E w -> reachable E (snd (add_preexisting_file E p w))
  | reach_decide w a k :
      reachable E w -> reachable E (snd (record_and_retrieve_download_path E a k w))
  | reach_mark w a :
      reachable E w -> reachable E (snd (mark_activity_as_redownloadable E a w))
  | reach_check w a :
      reachable E w -> reachable E (snd (check_for_activity_changes E a w))
  | reach_pass w fuel r w' :
      reachable E w -> download_all_activities_iteration E fuel w = Some (r, w') ->
      reachable E w'.

(** Filters 1 to 7 of [record_and_retrieve_download_path] let the pair
    through: the kind is not materialized, nothing is excluded, the start
    time is within the configured bounds and old enough at the next clock
    reading. *)
Definition passes_other_filters (E : Env) (w : World) (a : Activity)
    (k : FileType) : Prop :=
  let c := file_manager_config (config E) in
  (k ∉ materialized w (id a))
  /\ (id a ∉ excluded_activity_ids c)
  /\ (type a ∉ excluded_activity_types c)
  /\ (k ∉ excluded_file_types c)
  /\ (forall d, start_date c = Some d -> datetime_lt (start_time_gmt a) d = Ok false)
  /\ (forall d, end_date c = Some d -> datetime_gt (start_time_gmt a) d = Ok false)
  /\ (forall age, minimum_activity_age c = Some age ->
        exists cutoff,
          datetime_sub (as_utc (clock E (clock_reads w))) age = Ok cutoff
          /\ datetime_gt (start_time_gmt a) cutoff = Ok false).

(** The files left after the canonical paths of the kinds [ks] of [a] are
    unlinked, one after the other. *)
Definition unlink_kinds (E : Env) (a : Activity) (ks : list FileType)
    (f : gmap Path bytes) : gmap Path bytes :=
  fold_left (fun f k => delete (canonical_path E a k) f) ks f.

(** The ledger once the kind [k] is recorded for the activity id [i]. *)
Definition recorded (i : ActivityId) (k : FileType) (w : World) : World :=
  snd (_record_download_path i k w).

(** The state after the clock reading of the minimum-age filter, when that
    filter is configured. *)
Definition after_age_check (E : Env) (w : World) : World :=
  match minimum_activity_age (file_manager_config (config E)) with
  | Some _ => set_clock_reads (S (clock_reads w)) w
  | None => w
  end.

#[export] Instance ledger_inv_dec (w : World) : Decision (ledger_inv w).
Proof. unfold ledger_inv. apply _. Defined.

(** ** A concrete environment and concrete states *)

Definition demo_file_manager_config : FileManagerConfig :=
  {| excluded_activity_ids := ∅; excluded_activity_types := ∅;
     excluded_file_types := ∅; start_date := None; end_date := None;
     minimum_activity_age := None |}.

Definition demo_config : Config :=
  {| batch_size := 2; check_for_activity_changes_enabled := true;
     always_recheck_all_activities := false;
     file_manager_config := demo_file_manager_config;
     download_directory := Path_of_str (lit "/app/garmin_downloads") |}.

(** An account that holds [morning_run] only. *)
Definition demo_env : Env :=
  {| unicode := ascii_only_db;
     config := demo_config;
     clock := fun _ => utc 2025 6 1 12 0 0;
     get_activities := fun start _ => Ok (if start =? 0 then [morning_run] else []);
     download_activity := fun _ _ => Ok [x3c; x67; x70; x78; x3e] |}.

(** The state once every kind of [morning_run] is downloaded. *)
Definition demo_world : World :=
  snd (_maybe_download_activity demo_env morning_run (initial_world ∅)).

(** [morning_run] recorded indoors: no GPS polyline. *)
Definition indoor_run : Activity :=
  {| raw := raw morning_run; id := id morning_run; name := name morning_run;
     type := lit "indoor_cardio"; start_time_gmt := start_time_gmt morning_run;
     hasPolyline := false |}.

(** The configuration that [Config.from_environment] builds when
    [START_DATE=2024-01-01] is set: [strptime] gives an offset-naive
    datetime. *)
Definition start_date_config : FileManagerConfig :=
  {| excluded_activity_ids := ∅; excluded_activity_types := ∅;
     excluded_file_types := ∅;
     start_date := Some (naive 2024 1 1 0 0 0); end_date := None;
     minimum_activity_age := None |}.

Definition start_date_env : Env :=
  {| unicode := ascii_only_db;
     config := {| batch_size := 2; check_for_activity_changes_enabled := true;
                  always_recheck_all_activities := false;
                  file_manager_config := start_date_config;
                  download_directory := Path_of_str (lit "/app/garmin_downloads") |};
     clock := clock demo_env;
     get_activities := get_activities demo_env;
     download_activity := download_activity demo_env |}.

(** [demo_world] with the metadata file of [morning_run] overwritten by one
    byte that is not UTF-8. *)
Definition corrupted_world : World :=
  set_files (<[canonical_path demo_env morning_run ACTIVITY_JSON := [xff]]>
               (files demo_world)) demo_world.

(** ** Notions used in the proofs *)

(** A computation keeps a property of the state, whether it returns or
    raises. *)
Definition preserves {A} (I : World -> Prop) (m : M A) : Prop :=
  forall w, I w -> I (snd (m w)).

(** One-byte characters: what the text of [json.dumps] is made of. *)
Definition one_byte (c : N) : Prop := (c < 256)%N.


(** ** The export pass, seen through its log *)

(** The update of [current_run_oldest_downloaded_activity_id] by one
    activity with id [i] and the download count [d]. *)
Definition cursor_step (e : ActivityId * nat) (c : option ActivityId)
  : option ActivityId :=
  if (0 <? snd e)%nat then Some (fst e)
  else if negb (truthy c) then Some (fst e) else c.

Definition cursor_after (tr : list (ActivityId * nat)) (c : option ActivityId)
  : option ActivityId :=
  fold_left (fun c e => cursor_step e c) tr c.

(** The update of [reached_boundary], the watermark being [W]. *)
Definition boundary_step (W : option ActivityId) (e : ActivityId * nat) (r : bool)
  : bool :=
  if (0 <? snd e)%nat then false
  else if truthy W && bool_decide (Some (fst e) = W) then true else r.

Definition boundary_after (W : option ActivityId) (tr : list (ActivityId * nat))
    (r : bool) : bool :=
  fold_left (fun r e => boundary_step W e r) tr r.

(** Every activity the pass processed, in order. *)
Definition trace_of (log : list BatchLog) : list (ActivityId * nat) :=
  List.concat (List.map processed log).

(** The last activity of a trace with a positive download count. *)
Fixpoint last_download (tr : list (ActivityId * nat)) : option ActivityId :=
  match tr with
  | [] => None
  | e :: rest =>
      match last_download rest with
      | Some i => Some i
      | None => if (0 <? snd e)%nat then Some (fst e) else None
      end
  end.

(** No activity of the trace has a positive download count. *)
Definition no_downloads (tr : list (ActivityId * nat)) : Prop :=
  Forall (fun e => snd e = 0%nat) tr.

(** The logs a pass can leave, from the offset [start] on: pages are
    fetched [bs] apart; the pass ends with an empty page, or with a page
    that leaves the boundary flag set while full rescans are off. *)
Inductive pass_log (W : option ActivityId) (always : bool) (bs : Z)
  : Z -> list BatchLog -> Prop :=
  | log_exhausted start :
      pass_log W always bs start [{| batch_start := start; processed := [] |}]
  | log_boundary start tr :
      tr <> [] -> boundary_after W tr false = true -> always = false ->
      pass_log W always bs start [{| batch_start := start; processed := tr |}]
  | log_continue start tr rest :
      tr <> [] -> boundary_after W tr false && negb always = false ->
      pass_log W always bs (start + bs) rest ->
      pass_log W always bs start ({| batch_start := start; processed := tr |} :: rest).

(** C1 as the specification states it: the watermark becomes the id of the
    oldest (last processed) activity with a new download, and stays as it
    was when the pass downloaded nothing. *)
Definition watermark_claim_as_stated (E : Env) (fuel : nat) (w : World) : Prop :=
  forall log w',
    download_all_activities_iteration E fuel w = Some (Ok log, w') ->
    trace_of log <> [] ->
    oldest_downloaded_activity_id w'
    = match last_download (trace_of log) with
      | Some i => Some i
      | None => oldest_downloaded_activity_id w
      end.

(** C4 as the specification states it: without a download for the boundary
    activity itself the boundary flag stays set, whatever is downloaded for
    the activities after it in the page. *)
Definition boundary_claim_as_stated (E : Env) (activities : list Activity)
    (v0 : LoopVars) (w : World) : Prop :=
  forall v tr w' W pre post,
    process_activities E activities (start_batch v0) w = (Ok (v, tr), w') ->
    oldest_downloaded_activity_id w = Some W -> W <> 0 ->
    tr = pre ++ (W, 0%nat) :: post ->
    W ∉ List.map fst post ->
    reached_boundary v = true.

(** Activities with a bare payload, for the passes below. *)
Definition activity_numbered (i : ActivityId) : Activity :=
  {| raw := JDict [(lit "activityId", JInt i)]; id := i; name := lit "Run";
     type := lit "running"; start_time_gmt := utc 2024 1 15 8 30 0;
     hasPolyline := true |}.

(** An account with the activities 7, 5 and 3, newest first, fetched two
    at a time; the activity 7 is excluded by id. *)
Definition three_activities_env : Env :=
  {| unicode := ascii_only_db;
     config := {| batch_size := 2; check_for_activity_changes_enabled := true;
                  always_recheck_all_activities := false;
                  file_manager_config :=
                    {| excluded_activity_ids := {[ 7 ]};
                       excluded_activity_types := ∅; excluded_file_types := ∅;
                       start_date := None; end_date := None;
                       minimum_activity_age := None |};
                  download_directory := Path_of_str (lit "/app/garmin_downloads") |};
     clock := fun _ => utc 2025 6 1 12 0 0;
     get_activities := fun start _ =>
       Ok (if start =? 0 then [activity_numbered 7; activity_numbered 5]
           else if start =? 2 then [activity_numbered 3] else []);
     download_activity := fun _ _ => Ok [x3c; x67; x70; x78; x3e] |}.

(** A previous pass left the watermark at 7. *)
Definition watermark_7_world : World :=
  set_oldest_downloaded_activity_id (Some 7) (initial_world ∅).

(** An account whose only activity, 7, is excluded by id. *)
Definition excluded_only_env : Env :=
  {| unicode := ascii_only_db;
     config := config three_activities_env;
     clock := clock three_activities_env;
     get_activities := fun start _ =>
       Ok (if start =? 0 then [activity_numbered 7] else []);
     download_activity := download_activity three_activities_env |}.

(** A previous pass left the watermark at 9. *)
Definition watermark_9_world : World :=
  set_oldest_downloaded_activity_id (Some 9) (initial_world ∅).

(** The first activity of a trace. *)
Definition first_activity (tr : list (ActivityId * nat)) : option ActivityId :=
  match tr with
  | [] => None
  | e :: _ => Some (fst e)
  end.

(** A page that holds the watermark [W] and for which nothing was
    downloaded. *)
Definition boundary_page (W : ActivityId) (b : BatchLog) : Prop :=
  (exists d, (W, d) ∈ processed b) /\ no_downloads (processed b).

(** The state [excluded_only_env] is left in by a pass from
    [watermark_9_world]: nothing recorded, nothing written. *)
Definition after_excluded_pass : World :=
  {| downloaded_activities := ∅; files := ∅; clock_reads := 0;
     oldest_downloaded_activity_id := Some 7; cron_iteration := 1 |}.

(** The state a first pass over [three_activities_env] leaves. *)
Definition after_first_pass : World :=
  match download_all_activities_iteration three_activities_env 5 (initial_world ∅) with
  | Some (_, w) => w
  | None => initial_world ∅
  end.

(** ** Further notions: the filename codec *)

(** The characters a sanitized name is made of. *)
Definition name_character (U : UnicodeDB) (c : N) : bool :=
  isalnum U c || (c =? chr "-")%N || (c =? chr "_")%N.

(** In the character database of the runtime no white space is
    alphanumeric. *)
Definition spaces_not_alnum (U : UnicodeDB) : Prop :=
  forall c, isspace c = true -> isalnum U c = false.

(** ** Further model: the reconciliation at start-up *)

(** [Exporter._precompute_downloaded_activities]: [listing] is what
    [download_directory.glob('*/*')] yields, in the order the file system
    gives it, restricted to regular files. *)
Definition _precompute_downloaded_activities (E : Env) (listing : list Path) : M unit :=
  for_each listing (fun file_path => add_preexisting_file E file_path).

(** What [add_preexisting_file] reads off a path: nothing for an ignored
    file, else the activity id and the kind, or the error. *)
Definition observed (E : Env) (p : Path) : result (option (ActivityId * FileType)) :=
  if should_ignore_file E p then Ok None
  else match FileType_of_value (path_name (path_parent p)) with
       | None => Raise (ValueError InvalidFileTypeDirectory)
       | Some k =>
           match create_from_file_path (unicode E) p k with
           | Ok record => Ok (Some (activity_id record, k))
           | Raise e => Raise e
           end
       end.

(** The ledger once the kind [k] is observed for the id [i]. *)
Definition observe_into (i : ActivityId) (k : FileType)
    (m : gmap ActivityId ActivityFileManager) : gmap ActivityId ActivityFileManager :=
  <[i := match m !! i with
         | None => {| activity_id := i; download_file_types := {[ k ]} |}
         | Some existing =>
             {| activity_id := activity_id existing;
                download_file_types := {[ k ]} ∪ download_file_types existing |}
         end]> m.

(** The state after a path is observed. *)
Definition after_observing (E : Env) (p : Path) (w : World) : World :=
  match observed E p with
  | Ok (Some (i, k)) =>
      set_downloaded_activities (observe_into i k (downloaded_activities w)) w
  | _ => w
  end.

(** ** Further notions: the decision *)

(** The configured bounds can be compared with the start time of the
    activity (both offset-aware or both offset-naive), and the cutoff of
    the minimum-age filter, if any, can be computed at every clock
    reading. *)
Definition comparable_dates (E : Env) (a : Activity) : Prop :=
  let c := file_manager_config (config E) in
  (forall d, start_date c = Some d -> aware d = aware (start_time_gmt a))
  /\ (forall d, end_date c = Some d -> aware d = aware (start_time_gmt a))
  /\ (forall age, minimum_activity_age c = Some age ->
        aware (start_time_gmt a) = true
        /\ forall n, exists cutoff, datetime_sub (as_utc (clock E n)) age = Ok cutoff).

(** A configuration with offset-aware bounds, as the tests of the file
    manager build them, and a minimum age of one minute. *)
Definition aware_bounds_env : Env :=
  {| unicode := ascii_only_db;
     config := {| batch_size := 2; check_for_activity_changes_enabled := true;
                  always_recheck_all_activities := false;
                  file_manager_config :=
                    {| excluded_activity_ids := ∅; excluded_activity_types := ∅;
                       excluded_file_types := ∅;
                       start_date := Some (utc 2024 1 1 0 0 0);
                       end_date := Some (utc 2024 12 31 23 59 59);
                       minimum_activity_age := Some 60000000 |};
                  download_directory := Path_of_str (lit "/app/garmin_downloads") |};
     clock := fun _ => utc 2025 6 1 12 0 0;
     get_activities := get_activities demo_env;
     download_activity := download_activity demo_env |}.

(** [demo_world] with the metadata file of [morning_run] edited by hand
    into other JSON text. *)
Definition edited_world : World :=
  set_files (<[canonical_path demo_env morning_run ACTIVITY_JSON := [x7b; x7d]]>
               (files demo_world)) demo_world.

(** [demo_world] with the metadata file of [morning_run] removed. *)
Definition missing_metadata_world : World :=
  set_files (delete (canonical_path demo_env morning_run ACTIVITY_JSON)
               (files demo_world)) demo_world.

(** ** Further notions: the serialization *)

(** Two JSON values that differ only in the order of the fields of their
    objects, at any depth; the keys of an object are distinct. *)
#[warnings="-register-all"] Inductive reordered : json -> json -> Prop :=
  | reordered_same j : reordered j j
  | reordered_list l l' :
      Forall2 reordered l l' -> reordered (JList l) (JList l')
  | reordered_dict items middle items' :
      NoDup (List.map fst items) ->
      Forall2 (fun x y => fst x = fst y /\ reordered (snd x) (snd y)) items middle ->
      Permutation middle items' ->
      reordered (JDict items) (JDict items').

(** The order of the items of an object by key. *)
Definition key_le {V} (x y : str * V) : Prop := str_le (fst x) (fst y) = true.

(** [morning_run], its payload listing the fields in the opposite order. *)
Definition morning_run_reordered : Activity :=
  {| raw := JDict [(lit "hasPolyline", JBool true);
                   (lit "averageHR", JInt 150);
                   (lit "activityName", JStr (lit "Morning Run in Central Park"));
                   (lit "activityId", JInt 12345678901)];
     id := 12345678901;
     name := lit "Morning Run in Central Park";
     type := lit "running";
     start_time_gmt := utc 2024 1 15 8 30 0;
     hasPolyline := true |}.

(** ** Further notions: one activity of a pass *)

(** The metadata file of [a] holds the serialization of its payload
    whenever the ledger has the metadata kind for it. *)
Definition metadata_in_sync (E : Env) (a : Activity) (w : World) : Prop :=
  ACTIVITY_JSON ∈ materialized w (id a) ->
  files w !! canonical_path E a ACTIVITY_JSON = Some (dump a).

(** ** Further notions: the pass *)

(** An account whose feed answers with the rate-limit error of the
    client. *)
Definition rate_limited_env : Env :=
  {| unicode := ascii_only_db;
     config := config three_activities_env;
     clock := clock three_activities_env;
     get_activities := fun _ _ => Raise (UpstreamError 429);
     download_activity := download_activity three_activities_env |}.

(** [three_activities_env] with [ALWAYS_RECHECK_ALL_ACTIVITIES] on. *)
Definition full_rescan_env : Env :=
  {| unicode := ascii_only_db;
     config := {| batch_size := 2; check_for_activity_changes_enabled := true;
                  always_recheck_all_activities := true;
                  file_manager_config :=
                    file_manager_config (config three_activities_env);
                  download_directory := Path_of_str (lit "/app/garmin_downloads") |};
     clock := clock three_activities_env;
     get_activities := get_activities three_activities_env;
     download_activity := download_activity three_activities_env |}.

(** Nothing is lost from [w] to [w']: every kind the ledger holds and every
    file under the download root is still there. *)
Definition nothing_lost (w w' : World) : Prop :=
  (forall j, materialized w j ⊆ materialized w' j)
  /\ dom (files w) ⊆ dom (files w').

(** Operations that keep the ledger well formed and lose nothing. *)
Definition keeps_everything {A} (m : M A) : Prop :=
  forall w, ledger_inv w -> ledger_inv (snd (m w)) /\ nothing_lost w (snd (m w)).

(** [three_activities_env] with [CHECK_FOR_ACTIVITY_CHANGES] off. *)
Definition no_recheck_env : Env :=
  {| unicode := ascii_only_db;
     config := {| batch_size := 2; check_for_activity_changes_enabled := false;
                  always_recheck_all_activities := false;
                  file_manager_config :=
                    file_manager_config (config three_activities_env);
                  download_directory := Path_of_str (lit "/app/garmin_downloads") |};
     clock := clock three_activities_env;
     get_activities := get_activities three_activities_env;
     download_activity := download_activity three_activities_env |}.

(** ** The filters of the configuration ([Config.from_environment])

    [os.getenv] gives [None] or the text of the variable; the code reads a
    variable only when its text is not empty. *)

(** The [ValueError]s of the two parsers, by message. *)
Inductive config_error :=
  | InvalidExcludedActivityId (text : str)  (* "Invalid EXCLUDED_ACTIVITY_IDS value ..." *)
  | InvalidFileType (text : str)            (* "Invalid file type ..." *)
  | CannotExcludeActivityJson               (* "Cannot exclude 'activity_json' ..." *)
  | NotAFileType (text : str).              (* [FileType(text)] on an unknown value *)

(** [for activity_id_str in excluded_ids_env.split(','): ...] *)
Fixpoint add_excluded_activity_ids (U : UnicodeDB) (items : list str)
    (ids : gset ActivityId) : config_error + gset ActivityId :=
  match items with
  | [] => inr ids
  | activity_id_str :: rest =>
      let activity_id_str := strip activity_id_str in
      match activity_id_str with
      | [] => add_excluded_activity_ids U rest ids
      | _ =>
          match int_of_str U activity_id_str with
          | Some i => add_excluded_activity_ids U rest ({[ i ]} ∪ ids)
          | None => inl (InvalidExcludedActivityId activity_id_str)
          end
      end
  end.

(** The value of [excluded_activity_ids] for [EXCLUDED_ACTIVITY_IDS]. *)
Definition excluded_activity_ids_from_env (U : UnicodeDB) (env : option str)
  : config_error + gset ActivityId :=
  match env with
  | None | Some [] => inr ∅
  | Some text => add_excluded_activity_ids U (split_on (chr ",") text) ∅
  end.

(** [[t.strip() for t in text.split(',') if t.strip()]] *)
Definition stripped_items (text : str) : list str :=
  List.filter (fun t => negb (bool_decide (t = [])))
    (List.map strip (split_on (chr ",") text)).

(** [for file_type_str in file_type_strings: ...] *)
Fixpoint add_excluded_file_types (file_type_strings : list str)
    (types : gset FileType) : config_error + gset FileType :=
  match file_type_strings with
  | [] => inr types
  | file_type_str :: rest =>
      if negb (bool_decide (file_type_str ∈ List.map FileType_value all_file_types))
      then inl (InvalidFileType file_type_str)
      else if bool_decide (file_type_str = FileType_value ACTIVITY_JSON)
      then inl CannotExcludeActivityJson
      else match FileType_of_value file_type_str with
           | Some t => add_excluded_file_types rest ({[ t ]} ∪ types)
           | None => inl (NotAFileType file_type_str)
           end
  end.

(** The value of [excluded_file_types] for [EXCLUDED_FILE_TYPES]. *)
Definition excluded_file_types_from_env (env : option str)
  : config_error + gset FileType :=
  match env with
  | None | Some [] => inr ∅
  | Some text => add_excluded_file_types (stripped_items text) ∅
  end.

(** White space only. *)
Definition blank (s : str) : Prop := Forall (fun c => isspace c = true) s.

(** The text of a list of values, separated by commas, each with white
    space before and after it. *)
Definition comma_separated {A} (show : A -> str) (items : list (str * A * str)) : str :=
  join (lit ",") (List.map (fun item => fst (fst item) ++ show (snd (fst item)) ++ snd item)
                           items).

Definition values {A} (items : list (str * A * str)) : list A :=
  List.map (fun item => snd (fst item)) items.

Definition padding_is_blank {A} (items : list (str * A * str)) : Prop :=
  Forall (fun item => blank (fst (fst item)) /\ blank (snd item)) items.

(** [EXCLUDED_FILE_TYPES=gpx, tcx] *)
Definition gpx_and_tcx : str := lit "gpx, tcx".

(** [EXCLUDED_ACTIVITY_IDS= 12345678901,-7 ] as a list of padded values. *)
Definition two_padded_ids : list (str * ActivityId * str) :=
  [(lit " ", 12345678901, []); ([], -7, lit " ")].

Definition two_padded_types : list (str * FileType * str) :=
  [([], KML, lit "  "); (lit " ", CSV, [])].

(** A file that is not an export, in the directory of the GPX files. *)
Definition stray_file : Path := Path_of_str (lit "/app/garmin_downloads/gpx/notes.txt").

(** ** Further notions: renamed activities and empty answers *)

(** [morning_run] once it is renamed on Garmin Connect: the same id, type
    and start time, another name. *)
Definition evening_run : Activity :=
  {| raw := JDict [(lit "activityId", JInt 12345678901);
                   (lit "activityName", JStr (lit "Evening Run"));
                   (lit "averageHR", JInt 150);
                   (lit "hasPolyline", JBool true)];
     id := 12345678901;
     name := lit "Evening Run";
     type := lit "running";
     start_time_gmt := utc 2024 1 15 8 30 0;
     hasPolyline := true |}.

(** [three_activities_env] with an API that answers every download with
    no bytes. *)
Definition empty_response_env : Env :=
  {| unicode := ascii_only_db;
     config := config three_activities_env;
     clock := clock three_activities_env;
     get_activities := get_activities three_activities_env;
     download_activity := fun _ _ => Ok [] |}.

(** The state after a restart over the metadata files of the activities 5
    and 3: the start-up scan recorded them, the watermark is unset. *)
Definition restarted_world : World :=
  snd (_precompute_downloaded_activities empty_response_env
         [canonical_path empty_response_env (activity_numbered 5) ACTIVITY_JSON;
          canonical_path empty_response_env (activity_numbered 3) ACTIVITY_JSON]
         (initial_world
            (<[canonical_path empty_response_env (activity_numbered 5) ACTIVITY_JSON
                 := dump (activity_numbered 5)]>
               (<[canonical_path empty_response_env (activity_numbered 3) ACTIVITY_JSON
                    := dump (activity_numbered 3)]> ∅)))).

(** * Properties *)

(** Boolean tests on characters, turned into arithmetic for [lia]. *)
Ltac eval_chars :=
  unfold slash, dot in *; unfold chr in *;
  repeat match goal with
    | |- context [N_of_ascii ?a] =>
        let v := eval vm_compute in (N_of_ascii a) in
        change (N_of_ascii a) with v in *
    | H : context [N_of_ascii ?a] |- _ =>
        let v := eval vm_compute in (N_of_ascii a) in
        change (N_of_ascii a) with v in *
    end.

Ltac char_arith :=
  unfold date_char, is_ascii_digit, is_ascii_upper, is_ascii_lower,
    int_space, isspace, in_range in *;
  eval_chars;
  repeat progress
    (rewrite ?andb_true_iff, ?orb_true_iff, ?andb_false_iff, ?orb_false_iff,
       ?negb_true_iff, ?negb_false_iff,
       ?N.leb_le, ?N.eqb_eq, ?N.leb_gt, ?N.eqb_neq, ?N.ltb_lt, ?N.ltb_ge in * );
  lia.

(** ** Text lemmas *)

Lemma lstrip_by_unchanged (sp : N -> bool) (s : str) :
  Forall (fun c => sp c = false) s -> lstrip_by sp s = s.
Proof.
  destruct 1 as [|c r Hc _]; simpl; [reflexivity|]. now rewrite Hc.
Qed.

Lemma strip_by_unchanged (sp : N -> bool) (s : str) :
  Forall (fun c => sp c = false) s -> strip_by sp s = s.
Proof.
  intros H. unfold strip_by. rewrite (lstrip_by_unchanged sp s H).
  rewrite lstrip_by_unchanged; [apply rev_involutive|].
  now apply Forall_rev.
Qed.

Lemma lstrip_by_Forall (P : N -> Prop) (sp : N -> bool) (s : str) :
  Forall P s -> Forall P (lstrip_by sp s).
Proof.
  induction 1 as [|c r Hc Hr IH]; simpl; [constructor|].
  destruct (sp c); [exact IH | now constructor].
Qed.

Lemma strip_by_Forall (P : N -> Prop) (sp : N -> bool) (s : str) :
  Forall P s -> Forall P (strip_by sp s).
Proof.
  intros H. unfold strip_by.
  apply Forall_rev, lstrip_by_Forall, Forall_rev, lstrip_by_Forall, H.
Qed.

Lemma split_on_cons (sep : N) (s : str) :
  exists p ps, split_on sep s = p :: ps.
Proof.
  induction s as [|c r (p & ps & IH)]; simpl; [eauto|].
  destruct (c =? sep)%N; [eauto|]. rewrite IH. eauto.
Qed.

Lemma split_on_app (sep : N) (a r : str) :
  sep ∉ a -> split_on sep (a ++ sep :: r) = a :: split_on sep r.
Proof.
  induction a as [|c a IH]; intros Ha; simpl.
  - now rewrite N.eqb_refl.
  - apply not_elem_of_cons in Ha as [Hc Ha].
    destruct (N.eqb_spec c sep) as [->|_]; [congruence|].
    now rewrite IH.
Qed.

Lemma split_on_without (sep : N) (a : str) :
  sep ∉ a -> split_on sep a = [a].
Proof.
  induction a as [|c a IH]; intros Ha; simpl; [reflexivity|].
  apply not_elem_of_cons in Ha as [Hc Ha].
  destruct (N.eqb_spec c sep) as [->|_]; [congruence|].
  now rewrite IH.
Qed.

Lemma rsplit_char_without (c : N) (s : str) :
  c ∉ s -> rsplit_char c s = None.
Proof.
  induction s as [|x s IH]; intros Hs; simpl; [reflexivity|].
  apply not_elem_of_cons in Hs as [Hx Hs]. rewrite IH by assumption.
  destruct (N.eqb_spec x c) as [->|_]; [congruence | reflexivity].
Qed.

Lemma rsplit_char_app (c : N) (x s : str) :
  c ∉ s -> rsplit_char c (x ++ c :: s) = Some (x, s).
Proof.
  intros Hs. induction x as [|y x IH]; simpl.
  - now rewrite rsplit_char_without, N.eqb_refl.
  - now rewrite IH.
Qed.

(** ** Decimal text *)

Lemma uint_chars_digit (u : Decimal.uint) :
  Forall (fun c => is_ascii_digit c = true) (uint_chars u).
Proof. induction u; simpl; constructor; auto. Qed.

Lemma uint_chars_date_char (u : Decimal.uint) :
  Forall (fun c => date_char c = true) (uint_chars u).
Proof.
  eapply Forall_impl; [apply uint_chars_digit|].
  intros c Hc. unfold date_char. now rewrite Hc.
Qed.

Lemma uint_chars_nil (u : Decimal.uint) : uint_chars u = [] -> u = Decimal.Nil.
Proof. destruct u; simpl; congruence. Qed.

Lemma str_of_int_date_char (z : Z) :
  Forall (fun c => date_char c = true) (str_of_int z).
Proof.
  unfold str_of_int. destruct (Z.to_int z).
  - apply uint_chars_date_char.
  - constructor; [reflexivity | apply uint_chars_date_char].
Qed.

Lemma zfill_date_char (w : nat) (n : N) :
  Forall (fun c => date_char c = true) (zfill w n).
Proof.
  unfold zfill. apply Forall_app. split.
  - apply List.Forall_forall. intros c Hc. apply repeat_spec in Hc. now subst.
  - apply uint_chars_date_char.
Qed.

Lemma _format_start_time_date_char (t : datetime) :
  Forall (fun c => date_char c = true) (_format_start_time t).
Proof.
  unfold _format_start_time.
  apply Forall_app; split; [apply uint_chars_date_char|].
  repeat match goal with
    | |- Forall _ (zfill _ _ ++ _) =>
        apply Forall_app; split; [apply zfill_date_char|]
    | |- Forall _ (lit _ ++ _) =>
        apply Forall_app; split; [repeat (constructor; try reflexivity)|]
    end.
  apply zfill_date_char.
Qed.

Lemma date_char_lacks (c : N) (s : str) :
  date_char c = false -> Forall (fun c => date_char c = true) s -> c ∉ s.
Proof.
  intros Hc Hs Hin. rewrite Forall_forall in Hs.
  apply Hs in Hin. congruence.
Qed.

Lemma parse_digits_uint_chars (U : UnicodeDB) (u : Decimal.uint) (b : bool) :
  u <> Decimal.Nil \/ b = true ->
  parse_digits U b (uint_chars u) = Some u.
Proof.
  revert b. induction u as [|u IH|u IH|u IH|u IH|u IH|u IH|u IH|u IH|u IH|u IH];
    intros b Hb; simpl.
  1: destruct Hb as [Hb| ->]; [congruence | reflexivity].
  all: unfold decimal_value; simpl; rewrite IH by (now right); reflexivity.
Qed.

Lemma Pos_to_uint_nonnil (p : positive) : Pos.to_uint p <> Decimal.Nil.
Proof.
  intros H. pose proof (DecimalPos.Unsigned.of_to p) as Hp.
  rewrite H in Hp. discriminate.
Qed.

(** [int(str(z)) == z] *)
Lemma int_of_str_str_of_int (U : UnicodeDB) (z : Z) :
  int_of_str U (str_of_int z) = Some z.
Proof.
  unfold int_of_str.
  rewrite strip_by_unchanged.
  2:{ eapply Forall_impl; [apply str_of_int_date_char|].
      intros c Hc. char_arith. }
  pose proof (DecimalZ.of_to z) as Hz.
  assert (Hn : forall u, (Z.to_int z = Decimal.Pos u \/ Z.to_int z = Decimal.Neg u) ->
                         u <> Decimal.Nil).
  { intros u [Hu|Hu]; destruct z; simpl in Hu; inversion Hu; subst;
      solve [discriminate | apply Pos_to_uint_nonnil]. }
  unfold str_of_int. destruct (Z.to_int z) as [u|u] eqn:Hu.
  - specialize (Hn u (or_introl eq_refl)).
    pose proof (uint_chars_digit u) as Hd.
    destruct (uint_chars u) as [|c r] eqn:Hc.
    { now apply uint_chars_nil in Hc. }
    apply Forall_cons in Hd as [Hd _].
    replace (c =? chr "-")%N with false by (symmetry; char_arith).
    replace (c =? chr "+")%N with false by (symmetry; char_arith).
    rewrite <- Hc, parse_digits_uint_chars by (now left).
    simpl. f_equal. exact Hz.
  - specialize (Hn u (or_intror eq_refl)). simpl.
    rewrite parse_digits_uint_chars by (now left).
    simpl. f_equal. exact Hz.
Qed.

(** ** The filename codec *)

Lemma format_into_filename_Ok (U : UnicodeDB) (self : ActivityFileManager)
    (a : Activity) (k : FileType) (fn : str) :
  format_into_filename U self a k = Ok fn ->
  id a = activity_id self /\ k ∈ download_file_types self
  /\ fn = _format_start_time (start_time_gmt a) ++ lit "_" ++ ACTIVITY_MARKER
          ++ lit "_" ++ str_of_int (id a) ++ lit "_" ++ type a ++ lit "_"
          ++ _sanitize_filename_component U (name a) ++ lit "." ++ suffix k.
Proof.
  unfold format_into_filename.
  destruct (Z.eqb_spec (id a) (activity_id self)) as [Hid|]; simpl; [|discriminate].
  destruct (decide (k ∈ download_file_types self)) as [Hk|Hk].
  - rewrite bool_decide_true by assumption. simpl. intros [= <-]. auto.
  - rewrite bool_decide_false by assumption. discriminate.
Qed.

Lemma format_into_filename_record_for (U : UnicodeDB) (a : Activity) (k : FileType) :
  format_into_filename U (record_for a k) a k
  = Ok (_format_start_time (start_time_gmt a) ++ lit "_" ++ ACTIVITY_MARKER
        ++ lit "_" ++ str_of_int (id a) ++ lit "_" ++ type a ++ lit "_"
        ++ _sanitize_filename_component U (name a) ++ lit "." ++ suffix k).
Proof.
  unfold format_into_filename, record_for. simpl.
  rewrite Z.eqb_refl. simpl.
  rewrite bool_decide_true by (now apply elem_of_singleton). reflexivity.
Qed.

Lemma replace_char_twice (s : str) :
  replace_char (chr "\") (chr "_") (replace_char slash (chr "_") s)
  = collapse_separators s.
Proof.
  unfold replace_char, collapse_separators. rewrite List.map_map.
  apply List.map_ext. intros c. cbv beta. eval_chars.
  destruct (N.eqb_spec c 47) as [->|]; [reflexivity|].
  destruct (N.eqb_spec c 92) as [->|]; reflexivity.
Qed.

Lemma _sanitize_filename_component_spec (U : UnicodeDB) (s : str) :
  _sanitize_filename_component U s = trimmed_sanitized_name U s.
Proof.
  unfold _sanitize_filename_component, trimmed_sanitized_name.
  rewrite replace_char_twice. reflexivity.
Qed.

(** A literal lacks a character: decided by evaluation. *)
Ltac lacks_lit := apply (bool_decide_unpack _); vm_compute; exact I.

Lemma safe_character_not_slash (U : UnicodeDB) (c : N) :
  safe_character U c = true -> c <> slash.
Proof. intros H ->. vm_compute in H. discriminate. Qed.

Lemma trimmed_sanitized_name_lacks_slash (U : UnicodeDB) (s : str) :
  slash ∉ trimmed_sanitized_name U s.
Proof.
  unfold trimmed_sanitized_name.
  assert (H : Forall (fun c => c <> slash)
                (firstn 50 (spaces_to_underscores
                   (strip (List.filter (safe_character U) (collapse_separators s)))))).
  { apply Forall_take. unfold spaces_to_underscores. apply List.Forall_map.
    eapply Forall_impl.
    - apply strip_by_Forall. apply List.Forall_forall. intros c Hc.
      apply List.filter_In in Hc as [_ Hc]. exact (safe_character_not_slash U c Hc).
    - intros c Hc. cbv beta in *. destruct (c =? chr " ")%N; [|exact Hc].
      intros H. vm_compute in H. discriminate H. }
  destruct (firstn 50 _) as [|c r]; simpl.
  - lacks_lit.
  - intros Hin. rewrite Forall_forall in H. now apply (H _ Hin).
Qed.

Lemma suffix_lacks (c : N) (k : FileType) :
  c = slash \/ c = dot -> c ∉ suffix k.
Proof. intros [-> | ->]; destruct k; lacks_lit. Qed.

Lemma suffix_nonempty (k : FileType) : suffix k <> [].
Proof. destruct k; discriminate. Qed.

Lemma root_of_str_relative (s : str) : slash ∉ s -> root_of_str s = [].
Proof.
  intros Hs. destruct s as [|c r]; [reflexivity|].
  apply not_elem_of_cons in Hs as [Hc _]. unfold root_of_str.
  destruct (N.eqb_spec c slash) as [->|_]; [congruence|].
  destruct r as [|c2 [|c3 r]]; reflexivity.
Qed.

Lemma is_root_false (s : str) : slash ∉ s -> is_root s = false.
Proof.
  intros Hs. unfold is_root.
  rewrite !bool_decide_false; [reflexivity| |]; intros ->; apply Hs; now left.
Qed.

Lemma Path_of_str_single (s : str) :
  slash ∉ s -> s <> [] -> s <> [dot] -> Path_of_str s = [s].
Proof.
  intros Hs Hn Hd. unfold Path_of_str. rewrite split_on_without by assumption.
  simpl. rewrite !bool_decide_false by assumption. simpl.
  now rewrite root_of_str_relative.
Qed.

(** The text of an encoded filename, cut where the decoder cuts it. *)
Lemma encoded_shape (start i type name suf : str) :
  start ++ lit "_" ++ ACTIVITY_MARKER ++ lit "_" ++ i ++ lit "_" ++ type
    ++ lit "_" ++ name ++ lit "." ++ suf
  = start ++ chr "_" :: (ACTIVITY_MARKER ++ chr "_" :: (i ++ chr "_" ::
      (type ++ chr "_" :: name ++ dot :: suf))).
Proof. reflexivity. Qed.

Lemma encoded_shape_suffix (start i type name suf : str) :
  start ++ chr "_" :: (ACTIVITY_MARKER ++ chr "_" :: (i ++ chr "_" ::
      (type ++ chr "_" :: name ++ dot :: suf)))
  = (start ++ chr "_" :: (ACTIVITY_MARKER ++ chr "_" :: (i ++ chr "_" ::
      (type ++ chr "_" :: name)))) ++ dot :: suf.
Proof.
  rewrite <- !app_assoc, <- !app_comm_cons.
  repeat (rewrite <- ?app_assoc, <- ?app_comm_cons; f_equal).
Qed.

(** Decoding what [format_into_filename] wrote, for a type tag without a
    path separator, finds the id it was written with. *)
Lemma create_from_encoded (U : UnicodeDB) (a : Activity) (k : FileType) :
  slash ∉ type a ->
  create_from_file_path U
    (Path_of_str (_format_start_time (start_time_gmt a) ++ lit "_" ++ ACTIVITY_MARKER
        ++ lit "_" ++ str_of_int (id a) ++ lit "_" ++ type a ++ lit "_"
        ++ _sanitize_filename_component U (name a) ++ lit "." ++ suffix k)) k
  = Ok (record_for a k).
Proof.
  intros Htype.
  rewrite encoded_shape.
  set (start := _format_start_time (start_time_gmt a)).
  set (i := str_of_int (id a)).
  set (nm := _sanitize_filename_component U (name a)).
  assert (Hstart : forall c, date_char c = false -> c ∉ start).
  { intros c Hc. apply date_char_lacks; [exact Hc|]. apply _format_start_time_date_char. }
  assert (Hi : forall c, date_char c = false -> c ∉ i).
  { intros c Hc. apply date_char_lacks; [exact Hc|]. apply str_of_int_date_char. }
  assert (Hnm : slash ∉ nm).
  { subst nm. rewrite _sanitize_filename_component_spec.
    apply trimmed_sanitized_name_lacks_slash. }
  set (fn := start ++ _).
  assert (Hfn : slash ∉ fn).
  { subst fn.
    repeat (rewrite ?not_elem_of_app, ?not_elem_of_cons).
    repeat split; try (apply Hstart; reflexivity); try (apply Hi; reflexivity);
      try assumption; try discriminate; try lacks_lit.
    apply suffix_lacks; auto. }
  assert (Hlen : fn <> [] /\ fn <> [dot] /\ fn <> [slash]).
  { subst fn. unfold ACTIVITY_MARKER.
    destruct start as [|c [|c' r]]; simpl; repeat split; discriminate. }
  destruct Hlen as (Hne & Hnd & Hns).
  unfold create_from_file_path.
  rewrite Path_of_str_single by assumption.
  assert (Hname : path_name [fn] = fn).
  { unfold path_name. simpl. now rewrite is_root_false. }
  unfold path_suffix. rewrite Hname.
  subst fn. rewrite encoded_shape_suffix.
  rewrite rsplit_char_app by (apply suffix_lacks; auto).
  rewrite (bool_decide_false (suffix k = [])) by apply suffix_nonempty.
  rewrite (bool_decide_false (start ++ _ = []))
    by (intros H; symmetry in H; exact (app_cons_not_nil _ _ _ H)).
  simpl negb. rewrite bool_decide_true by reflexivity. simpl negb. cbv iota.
  rewrite <- encoded_shape_suffix.
  rewrite split_on_app by (apply Hstart; reflexivity).
  rewrite split_on_app by lacks_lit.
  rewrite split_on_app by (apply Hi; reflexivity).
  rewrite bool_decide_true by reflexivity. simpl negb. cbv iota.
  subst i. rewrite int_of_str_str_of_int. reflexivity.
Qed.

(** C7, as stated, fails: the name [" a"] is encoded as [a], while the
    stated steps, which never trim, give [_a]. *)
Lemma filename_claim_as_stated_fails :
  ~ filename_claim_as_stated ascii_only_db
      (record_for padded_name_activity GPX) padded_name_activity GPX.
Proof.
  intros H. specialize (H _ eq_refl). vm_compute in H. discriminate H.
Qed.

Lemma four_digit_text (y : N) :
  (1000 <= y <= 9999)%N -> str_of_N y = zfill 4 y.
Proof.
  intros Hy.
  assert (Hall : forallb (fun n => (4 <=? List.length (str_of_N (N.of_nat n)))%nat)
                   (seq (N.to_nat 1000) (N.to_nat 9000)) = true)
    by (vm_compute; reflexivity).
  rewrite forallb_forall in Hall.
  assert (Hlen : (4 <= List.length (str_of_N y))%nat).
  { rewrite <- (N2Nat.id y). apply Nat.leb_le, Hall, in_seq. lia. }
  unfold zfill. cbv zeta.
  replace (4 - List.length (str_of_N y))%nat with 0%nat by lia. reflexivity.
Qed.

(** For a year of four digits the text of [strftime] is
    [YYYY-MM-DD-HH-MM-SS]. *)
Lemma _format_start_time_spec (t : datetime) :
  four_digit_year t -> _format_start_time t = spec_start_time t.
Proof.
  intros Hy. unfold _format_start_time, spec_start_time.
  now rewrite (four_digit_text _ Hy).
Qed.

(** Below the year 1000 the text has fewer characters than
    [YYYY-MM-DD-HH-MM-SS]: no padding of the year. *)
Lemma _format_start_time_short_year :
  _format_start_time (utc 987 12 31 23 59 59) = lit "987-12-31-23-59-59"
  /\ spec_start_time (utc 987 12 31 23 59 59) = lit "0987-12-31-23-59-59".
Proof. split; vm_compute; reflexivity. Qed.

(** C7 (amended): whenever [format_into_filename] returns for an activity
    whose start year has four digits, the filename is
    [{start as YYYY-MM-DD-HH-MM-SS}_activity_{id}_{type}_{name}.{suffix}]
    where the name has its path separators collapsed to underscores, its
    unsafe characters removed, the white space at both ends trimmed, its
    spaces turned into underscores, is cut at 50 characters and is
    [unnamed] when empty; and the activity of the specification's scenario
    is encoded as the specification says. *)
Theorem filename_encoding :
  (forall (U : UnicodeDB) (self : ActivityFileManager) (a : Activity)
          (k : FileType) (fn : str),
     four_digit_year (start_time_gmt a) ->
     format_into_filename U self a k = Ok fn ->
     fn = spec_filename (spec_start_time (start_time_gmt a)) (id a) (type a)
            (trimmed_sanitized_name U (name a)) (suffix k))
  /\ (forall U : UnicodeDB,
        format_into_filename U (record_for morning_run ACTIVITY_JSON)
          morning_run ACTIVITY_JSON
        = Ok (lit "2024-01-15-08-30-00_activity_12345678901_running_Morning_Run_in_Central_Park.json")).
Proof.
  split.
  - intros U self a k fn Hy H.
    apply format_into_filename_Ok in H as (_ & _ & ->).
    rewrite _sanitize_filename_component_spec, (_format_start_time_spec _ Hy).
    reflexivity.
  - intros U. vm_compute. reflexivity.
Qed.

Lemma filename_encoding_witness :
  four_digit_year (start_time_gmt unsafe_name_activity)
  /\ format_into_filename sample_db (record_for unsafe_name_activity CSV)
       unsafe_name_activity CSV = Ok unsafe_name_filename
  /\ unsafe_name_filename
     = spec_filename (lit "2024-12-31-23-59-59") 42 (lit "trail_running")
         (lit "___etc_passwd_" ++ [233; 26085]%N ++ repeat (chr "z") 34)
         (lit "csv").
Proof.
  assert (Hy : four_digit_year (start_time_gmt unsafe_name_activity))
    by (unfold four_digit_year; simpl; lia).
  assert (Hrun : format_into_filename sample_db (record_for unsafe_name_activity CSV)
                   unsafe_name_activity CSV = Ok unsafe_name_filename)
    by (vm_compute; reflexivity).
  split; [exact Hy|]. split; [exact Hrun|].
  exact (proj1 filename_encoding sample_db
           (record_for unsafe_name_activity CSV) unsafe_name_activity CSV
           unsafe_name_filename Hy Hrun).
Defined.

(** C2, as stated, fails: with the type tag [a/b] the encoded filename is a
    path of two parts, and decoding it raises. *)
Lemma roundtrip_fails_for_slash_type :
  ~ roundtrip ascii_only_db slash_type_activity GPX.
Proof.
  intros (fn & decoded & Hfn & Hdec & _).
  vm_compute in Hfn. injection Hfn as <-.
  vm_compute in Hdec. discriminate Hdec.
Qed.

(** C2 (amended): for every activity whose type tag holds no path
    separator and every file kind, decoding the encoded filename gives a
    record with the activity's id, and encoding again from that record
    gives the same filename; whatever the name. *)
Theorem encode_decode_roundtrip (U : UnicodeDB) (a : Activity) (k : FileType) :
  slash ∉ type a -> roundtrip U a k.
Proof.
  intros Htype. unfold roundtrip.
  eexists _, (record_for a k).
  rewrite format_into_filename_record_for.
  split; [reflexivity|].
  split; [now apply create_from_encoded|].
  split; reflexivity.
Qed.

Lemma encode_decode_roundtrip_witness :
  roundtrip letters_db adversarial_activity CSV.
Proof.
  apply encode_decode_roundtrip. lacks_lit.
Defined.

(** ** Reasoning about the monad *)

Ltac unfold_monad :=
  unfold mbind, mret, M_bind, M_ret, bind, ret, raise, lift, get_world, modify in *.

Section Preserves.
Context (I : World -> Prop).

Lemma preserves_ret {A} (a : A) : preserves I (mret a).
Proof. intros w H. exact H. Qed.

Lemma preserves_raise {A} (e : exn) : preserves I (@raise A e).
Proof. intros w H. exact H. Qed.

Lemma preserves_lift {A} (r : result A) : preserves I (lift r).
Proof. intros w H. exact H. Qed.

Lemma preserves_get_world : preserves I get_world.
Proof. intros w H. exact H. Qed.

Lemma preserves_modify (f : World -> World) :
  (forall w, I w -> I (f w)) -> preserves I (modify f).
Proof. intros Hf w H. exact (Hf w H). Qed.

Lemma preserves_bind {A B} (m : M A) (k : A -> M B) :
  preserves I m -> (forall a, preserves I (k a)) -> preserves I (m ≫= k).
Proof.
  intros Hm Hk w H. unfold_monad. specialize (Hm w H).
  destruct (m w) as [[a|e] w1]; simpl in *; [now apply Hk | exact Hm].
Qed.

(** After [get_world] the continuation runs in the state it was given. *)
Lemma preserves_get_bind {B} (k : World -> M B) :
  (forall w, I w -> I (snd (k w w))) -> preserves I (get_world ≫= k).
Proof. intros Hk w H. unfold_monad. now apply Hk. Qed.

Lemma preserves_for_each {A} (l : list A) (body : A -> M unit) :
  (forall x, preserves I (body x)) -> preserves I (for_each l body).
Proof.
  intros Hb. induction l as [|x l IH]; simpl.
  - apply preserves_ret.
  - apply preserves_bind; [apply Hb | intros _; exact IH].
Qed.

End Preserves.

(** Breaks a goal [preserves I m] along the structure of [m]. *)
Ltac preserves_step :=
  match goal with
  | |- preserves _ (mret _) => apply preserves_ret
  | |- preserves _ (ret _) => apply preserves_ret
  | |- preserves _ (modify _) => apply preserves_modify; intros ? ?
  | |- preserves _ (raise _) => apply preserves_raise
  | |- preserves _ (lift _) => apply preserves_lift
  | |- preserves _ get_world => apply preserves_get_world
  | |- preserves _ (_ ≫= _) => apply preserves_bind; [|intros ?]
  | |- preserves _ (for_each _ _) => apply preserves_for_each; intros ?
  | |- preserves _ (if ?c then _ else _) => destruct c
  | |- preserves _ (match ?x with _ => _ end) => destruct x
  end.

(** ** What each setter leaves alone *)

Lemma ledger_inv_set_files (f : gmap Path bytes) (w : World) :
  ledger_inv w -> ledger_inv (set_files f w).
Proof. intros H. exact H. Qed.

Lemma ledger_inv_set_clock_reads (n : nat) (w : World) :
  ledger_inv w -> ledger_inv (set_clock_reads n w).
Proof. intros H. exact H. Qed.

Lemma ledger_inv_insert (i : ActivityId) (record : ActivityFileManager) (w : World) :
  activity_id record = i -> ledger_inv w ->
  ledger_inv (set_downloaded_activities (<[i := record]> (downloaded_activities w)) w).
Proof.
  intros Hi Hw. unfold ledger_inv. simpl. now apply map_Forall_insert_2.
Qed.

Lemma ledger_inv_lookup (w : World) (i : ActivityId) (record : ActivityFileManager) :
  ledger_inv w -> downloaded_activities w !! i = Some record ->
  activity_id record = i.
Proof. intros Hw Hl. exact (Hw i record Hl). Qed.

(** ** The invariant of the ledger *)

Lemma unlink_if_exists_inv (p : Path) : preserves ledger_inv (unlink_if_exists p).
Proof.
  apply preserves_modify. intros w Hw.
  destruct (files w !! p); [now apply ledger_inv_set_files | exact Hw].
Qed.

Lemma _retrieve_download_path_inv (E : Env) (a : Activity) (k : FileType) :
  preserves ledger_inv (_retrieve_download_path E a k).
Proof. unfold _retrieve_download_path. repeat preserves_step. Qed.

Lemma _record_download_path_inv (i : ActivityId) (k : FileType) :
  preserves ledger_inv (_record_download_path i k).
Proof.
  apply preserves_modify. intros w Hw. cbv zeta.
  destruct (downloaded_activities w !! i) as [record|] eqn:Hl.
  - rewrite Hl. apply ledger_inv_insert; [|exact Hw].
    exact (ledger_inv_lookup w i record Hw Hl).
  - rewrite lookup_insert_eq. unfold ledger_inv. simpl.
    apply map_Forall_insert_2; [reflexivity|].
    apply map_Forall_insert_2; [reflexivity | exact Hw].
Qed.

Lemma datetime_now_utc_inv (E : Env) : preserves ledger_inv (datetime_now_utc E).
Proof. intros w Hw. exact Hw. Qed.

Lemma add_preexisting_file_inv (E : Env) (p : Path) :
  preserves ledger_inv (add_preexisting_file E p).
Proof.
  unfold add_preexisting_file.
  destruct (should_ignore_file E p); [apply preserves_ret|].
  destruct (FileType_of_value _) as [k|]; [|apply preserves_raise].
  apply preserves_bind; [apply preserves_lift|]. intros afm.
  apply preserves_get_bind. intros w Hw.
  destruct (downloaded_activities w !! activity_id afm) as [existing|] eqn:Hl; simpl.
  - apply ledger_inv_insert; [|exact Hw]. simpl.
    exact (ledger_inv_lookup w _ existing Hw Hl).
  - now apply ledger_inv_insert.
Qed.

Lemma record_and_retrieve_download_path_inv (E : Env) (a : Activity) (k : FileType) :
  preserves ledger_inv (record_and_retrieve_download_path E a k).
Proof.
  unfold record_and_retrieve_download_path.
  repeat first
    [ apply _record_download_path_inv
    | apply _retrieve_download_path_inv
    | apply datetime_now_utc_inv
    | preserves_step ].
Qed.

Lemma mark_activity_as_redownloadable_inv (E : Env) (a : Activity) :
  preserves ledger_inv (mark_activity_as_redownloadable E a).
Proof.
  unfold mark_activity_as_redownloadable.
  apply preserves_bind; [apply preserves_get_world|]. intros w0.
  destruct (downloaded_activities w0 !! id a); [|apply preserves_raise].
  apply preserves_bind.
  - apply preserves_for_each. intros k.
    apply preserves_bind; [apply _retrieve_download_path_inv|].
    intros p. apply unlink_if_exists_inv.
  - intros _. apply preserves_get_bind. intros w Hw.
    destruct (downloaded_activities w !! id a) as [record|] eqn:Hl; simpl; [|exact Hw].
    apply ledger_inv_insert; [|exact Hw]. simpl.
    exact (ledger_inv_lookup w _ record Hw Hl).
Qed.

Lemma check_for_activity_changes_inv (E : Env) (a : Activity) :
  preserves ledger_inv (check_for_activity_changes E a).
Proof.
  unfold check_for_activity_changes.
  repeat first
    [ apply mark_activity_as_redownloadable_inv
    | apply _retrieve_download_path_inv
    | preserves_step ].
Qed.

(** ** What the operations of the file manager compute *)

Lemma world_eta (w : World) :
  {| downloaded_activities := downloaded_activities w; files := files w;
     clock_reads := clock_reads w;
     oldest_downloaded_activity_id := oldest_downloaded_activity_id w;
     cron_iteration := cron_iteration w |} = w.
Proof. destruct w; reflexivity. Qed.

Lemma _retrieve_download_path_Ok (E : Env) (a : Activity) (k : FileType)
    (w : World) (record : ActivityFileManager) :
  downloaded_activities w !! id a = Some record ->
  activity_id record = id a ->
  k ∈ download_file_types record ->
  _retrieve_download_path E a k w = (Ok (canonical_path E a k), w).
Proof.
  intros Hl Hid Hk. unfold _retrieve_download_path. unfold_monad.
  rewrite Hl. unfold format_into_filename.
  rewrite Hid, Z.eqb_refl. simpl.
  rewrite bool_decide_true by assumption. reflexivity.
Qed.

Lemma unlink_if_exists_eq (p : Path) (w : World) :
  unlink_if_exists p w = (Ok tt, set_files (delete p (files w)) w).
Proof.
  unfold unlink_if_exists, modify. f_equal.
  destruct (files w !! p) eqn:Hp; [reflexivity|].
  rewrite delete_id by assumption. unfold set_files. now rewrite world_eta.
Qed.

Lemma for_each_unlink (E : Env) (a : Activity) (record : ActivityFileManager)
    (ks : list FileType) (w : World) :
  downloaded_activities w !! id a = Some record ->
  activity_id record = id a ->
  (forall k, k ∈ ks -> k ∈ download_file_types record) ->
  for_each ks (fun file_type =>
      file_path ← _retrieve_download_path E a file_type;
      unlink_if_exists file_path) w
  = (Ok tt, set_files (unlink_kinds E a ks (files w)) w).
Proof.
  intros Hl Hid. revert w Hl.
  induction ks as [|k ks IH]; intros w Hl Hks; simpl.
  - unfold mret, M_ret, ret, set_files. now rewrite world_eta.
  - unfold mbind, M_bind, bind at 1.
    unfold mbind, M_bind, bind at 1.
    rewrite (_retrieve_download_path_Ok E a k w record Hl Hid)
      by (apply Hks; left).
    rewrite unlink_if_exists_eq.
    rewrite IH; [reflexivity | exact Hl |].
    intros k' Hk'. apply Hks. now right.
Qed.

Lemma unlink_kinds_absent (E : Env) (a : Activity) (ks : list FileType)
    (f : gmap Path bytes) (p : Path) :
  f !! p = None -> unlink_kinds E a ks f !! p = None.
Proof.
  revert f. induction ks as [|k ks IH]; intros f Hp; simpl; [exact Hp|].
  apply IH. rewrite lookup_delete. case_decide; [reflexivity | exact Hp].
Qed.

Lemma unlink_kinds_deleted (E : Env) (a : Activity) (ks : list FileType)
    (f : gmap Path bytes) (k : FileType) :
  k ∈ ks -> unlink_kinds E a ks f !! canonical_path E a k = None.
Proof.
  revert f. induction ks as [|k' ks IH]; intros f Hk; simpl.
  - now apply elem_of_nil in Hk.
  - apply elem_of_cons in Hk as [->|Hk]; [|now apply IH].
    apply unlink_kinds_absent, lookup_delete_eq.
Qed.

Lemma unlink_kinds_other (E : Env) (a : Activity) (ks : list FileType)
    (f : gmap Path bytes) (p : Path) :
  (forall k, k ∈ ks -> p <> canonical_path E a k) ->
  unlink_kinds E a ks f !! p = f !! p.
Proof.
  revert f. induction ks as [|k ks IH]; intros f Hp; simpl; [reflexivity|].
  rewrite IH by (intros k' Hk'; apply Hp; now right).
  apply lookup_delete_ne. intros Heq. apply (Hp k); [now left | now symmetry].
Qed.

(** What [mark_activity_as_redownloadable] does to a tracked activity. *)
Lemma mark_activity_as_redownloadable_tracked (E : Env) (a : Activity)
    (w : World) (record : ActivityFileManager) :
  ledger_inv w ->
  downloaded_activities w !! id a = Some record ->
  mark_activity_as_redownloadable E a w
  = (Ok tt,
     set_downloaded_activities
       (<[id a := {| activity_id := id a; download_file_types := ∅ |}]>
          (downloaded_activities w))
       (set_files (unlink_kinds E a (elements (download_file_types record)) (files w)) w)).
Proof.
  intros Hw Hl. pose proof (ledger_inv_lookup w _ record Hw Hl) as Hid.
  unfold mark_activity_as_redownloadable.
  unfold mbind, M_bind, bind at 1. unfold get_world at 1. rewrite Hl.
  unfold mbind, M_bind, bind at 1.
  rewrite (for_each_unlink E a record) by
    (try assumption; intros k Hk; now apply elem_of_elements in Hk).
  unfold mbind, M_bind, bind, get_world, modify. simpl.
  rewrite Hl. now rewrite Hid.
Qed.

Lemma mark_activity_as_redownloadable_untracked (E : Env) (a : Activity) (w : World) :
  downloaded_activities w !! id a = None ->
  mark_activity_as_redownloadable E a w = (Raise (ValueError ActivityNotTracked), w).
Proof.
  intros Hl. unfold mark_activity_as_redownloadable.
  unfold mbind, M_bind, bind, get_world. now rewrite Hl.
Qed.

(** C8: [mark_activity_as_redownloadable] raises the not-tracked error
    exactly when the activity has no record; for a tracked activity it
    returns, no file is left at the canonical path of any kind that was
    materialized (whether or not there was one), every other file is kept,
    and the activity is left tracked with an empty set of kinds, the other
    records being untouched. *)
Theorem mark_redownloadable (E : Env) (a : Activity) (w : World) :
  ledger_inv w ->
  (fst (mark_activity_as_redownloadable E a w) = Raise (ValueError ActivityNotTracked)
   <-> ~ tracked w (id a))
  /\ (tracked w (id a) ->
      let w' := snd (mark_activity_as_redownloadable E a w) in
      fst (mark_activity_as_redownloadable E a w) = Ok tt
      /\ (forall k, k ∈ materialized w (id a) ->
            files w' !! canonical_path E a k = None)
      /\ (forall p, (forall k, k ∈ materialized w (id a) -> p <> canonical_path E a k) ->
            files w' !! p = files w !! p)
      /\ tracked w' (id a)
      /\ materialized w' (id a) = ∅
      /\ (forall j, j <> id a ->
            downloaded_activities w' !! j = downloaded_activities w !! j)).
Proof.
  intros Hw. unfold tracked, materialized.
  destruct (downloaded_activities w !! id a) as [record|] eqn:Hl.
  - rewrite (mark_activity_as_redownloadable_tracked E a w record Hw Hl). simpl.
    split.
    + split; [discriminate|]. intros H. exfalso. apply H. eauto.
    + intros _. split; [reflexivity|]. split; [|split; [|split; [|split]]].
      * intros k Hk. apply unlink_kinds_deleted. now apply elem_of_elements.
      * intros p Hp. apply unlink_kinds_other. intros k Hk.
        apply Hp. now apply elem_of_elements in Hk.
      * rewrite lookup_insert_eq. eauto.
      * now rewrite lookup_insert_eq.
      * intros j Hj. now apply lookup_insert_ne.
  - rewrite (mark_activity_as_redownloadable_untracked E a w Hl). simpl.
    split.
    + split; [|reflexivity]. intros _ [x Hx]. discriminate Hx.
    + intros [x Hx]. discriminate Hx.
Qed.

Lemma mark_redownloadable_witness :
  fst (mark_activity_as_redownloadable demo_env morning_run demo_world) = Ok tt
  /\ files (snd (mark_activity_as_redownloadable demo_env morning_run demo_world))
       !! canonical_path demo_env morning_run GPX = None
  /\ materialized (snd (mark_activity_as_redownloadable demo_env morning_run demo_world))
       (id morning_run) = ∅.
Proof.
  assert (Hinv : ledger_inv demo_world)
    by (apply (bool_decide_unpack _); vm_compute; exact I).
  assert (Ht : tracked demo_world (id morning_run))
    by (apply (bool_decide_unpack _); vm_compute; exact I).
  destruct (proj2 (mark_redownloadable demo_env morning_run demo_world Hinv) Ht)
    as (Hok & Hdel & _ & _ & Hempty & _).
  split; [exact Hok|]. split; [|exact Hempty].
  apply Hdel. apply (bool_decide_unpack _). vm_compute. exact I.
Defined.

(** C10: in the initial state every record of the ledger is stored under
    its own activity id, and observing a pre-existing file, deciding,
    marking redownloadable and detecting changes all keep it so, whether
    they return or raise. *)
Theorem ledger_invariant (E : Env) :
  (forall f, ledger_inv (initial_world f))
  /\ (forall w p, ledger_inv w -> ledger_inv (snd (add_preexisting_file E p w)))
  /\ (forall w a k, ledger_inv w ->
        ledger_inv (snd (record_and_retrieve_download_path E a k w)))
  /\ (forall w a, ledger_inv w ->
        ledger_inv (snd (mark_activity_as_redownloadable E a w)))
  /\ (forall w a, ledger_inv w ->
        ledger_inv (snd (check_for_activity_changes E a w))).
Proof.
  split; [|split; [|split; [|split]]].
  - intros f. unfold ledger_inv, initial_world. simpl. apply map_Forall_empty.
  - intros w p. apply add_preexisting_file_inv.
  - intros w a k. apply record_and_retrieve_download_path_inv.
  - intros w a. apply mark_activity_as_redownloadable_inv.
  - intros w a. apply check_for_activity_changes_inv.
Qed.

Lemma ledger_invariant_witness :
  ledger_inv (snd (check_for_activity_changes demo_env morning_run
    (snd (add_preexisting_file demo_env
            (Path_of_str (lit "/app/garmin_downloads/tcx/2024-03-10-09-45-15_activity_34567890123_cycling_Bike_Ride.tcx"))
            (snd (record_and_retrieve_download_path demo_env morning_run KML
                    (initial_world ∅))))))).
Proof.
  destruct (ledger_invariant demo_env) as (Hinit & Hadd & Hdecide & _ & Hcheck).
  apply Hcheck, Hadd, Hdecide, Hinit.
Defined.

Lemma lookup_recorded (i : ActivityId) (k : FileType) (w : World) :
  ledger_inv w ->
  exists record,
    downloaded_activities (recorded i k w) !! i = Some record
    /\ activity_id record = i
    /\ download_file_types record = {[ k ]} ∪ materialized w i.
Proof.
  intros Hw. unfold recorded, _record_download_path, modify, materialized. simpl.
  destruct (downloaded_activities w !! i) as [record|] eqn:Hl.
  - rewrite Hl. simpl. rewrite lookup_insert_eq. eexists. split; [reflexivity|].
    split; [|reflexivity]. exact (ledger_inv_lookup w i record Hw Hl).
  - rewrite lookup_insert_eq. simpl. rewrite lookup_insert_eq.
    eexists. split; [reflexivity|]. split; reflexivity.
Qed.

(** Once the kind is recorded, the path is retrieved without error: under
    the invariant the two error branches of [format_into_filename] cannot
    be taken. *)
Lemma record_then_retrieve (E : Env) (a : Activity) (k : FileType) (w : World) :
  ledger_inv w ->
  (_record_download_path (id a) k ≫= fun _ =>
     _retrieve_download_path E a k ≫= fun path => mret (Some path)) w
  = (Ok (Some (canonical_path E a k)), recorded (id a) k w).
Proof.
  intros Hw. destruct (lookup_recorded (id a) k w Hw) as (record & Hl & Hid & Hk).
  unfold mbind, M_bind, bind at 1.
  change (_record_download_path (id a) k w) with (Ok tt, recorded (id a) k w).
  cbv iota beta. unfold mbind, M_bind, bind at 1.
  rewrite (_retrieve_download_path_Ok E a k _ record Hl Hid); [reflexivity|].
  rewrite Hk. apply elem_of_union_l. now apply elem_of_singleton.
Qed.

Lemma datetime_lt_raises (a b : datetime) (e : exn) :
  datetime_lt a b = Raise e -> e = TypeError.
Proof.
  unfold datetime_lt. destruct (eqb _ _); [discriminate|]. now intros [= <-].
Qed.

Lemma datetime_sub_raises (d : datetime) (delta : timedelta) (e : exn) :
  datetime_sub d delta = Raise e -> e = OverflowError.
Proof.
  unfold datetime_sub. destruct (_ && _).
  - destruct (ord2ymd _) as [[y m] dd]. discriminate.
  - now intros [= <-].
Qed.

(** From [record_and_retrieve_download_path] only the comparison and the
    subtraction of datetimes can raise: the error branches of the encoder
    are unreachable. *)
Lemma decide_raises_only_datetime_errors (E : Env) (a : Activity) (k : FileType)
    (w : World) (e : exn) :
  ledger_inv w ->
  fst (record_and_retrieve_download_path E a k w) = Raise e ->
  e = TypeError \/ e = OverflowError.
Proof.
  intros Hw. unfold record_and_retrieve_download_path. cbv zeta.
  set (tail := _record_download_path (id a) k ≫= _).
  assert (Htail : forall w', ledger_inv w' -> fst (tail w') <> Raise e).
  { intros w' Hw'. subst tail. now rewrite (record_then_retrieve E a k w' Hw'). }
  unfold mbind, M_bind, bind, get_world, lift, mret, M_ret, ret, datetime_now_utc.
  repeat case_match; simplify_eq; simpl; try discriminate;
    try (let Hf := fresh in
         intros Hf; exfalso; revert Hf; apply Htail;
         try apply ledger_inv_set_clock_reads; assumption).
  all: intros [= <-].
  all: try (left; eapply datetime_lt_raises; eassumption).
  all: try (right; eapply datetime_sub_raises; eassumption).
Qed.

(** What [record_and_retrieve_download_path] computes once filters 1 to 7
    let the pair through: only the polyline gate is left. *)
Lemma decide_passes (E : Env) (a : Activity) (k : FileType) (w : World) :
  ledger_inv w -> passes_other_filters E w a k ->
  record_and_retrieve_download_path E a k w
  = if (bool_decide (k = GPX) || bool_decide (k = TCX)) && negb (hasPolyline a)
    then (Ok None, after_age_check E w)
    else (Ok (Some (canonical_path E a k)),
          recorded (id a) k (after_age_check E w)).
Proof.
  intros Hw (Hmat & Hid & Htype & Hkind & Hstart & Hend & Hage).
  unfold record_and_retrieve_download_path. cbv zeta.
  set (tail := _record_download_path (id a) k ≫= _).
  assert (Htail : forall w', ledger_inv w' ->
            tail w' = (Ok (Some (canonical_path E a k)), recorded (id a) k w')).
  { intros w' Hw'. subst tail. apply (record_then_retrieve E a k w' Hw'). }
  unfold mbind, M_bind, bind, get_world, lift, mret, M_ret, ret, datetime_now_utc.
  assert (Hal : already_downloaded w a k = false).
  { unfold already_downloaded, materialized in *.
    destruct (downloaded_activities w !! id a); [|reflexivity].
    now apply bool_decide_false. }
  rewrite Hal.
  rewrite (bool_decide_false (id a ∈ _)) by assumption.
  rewrite (bool_decide_false (type a ∈ _)) by assumption.
  rewrite (bool_decide_false (k ∈ _)) by assumption.
  unfold after_age_check.
  destruct (start_date _) as [d|]; [rewrite (Hstart d eq_refl)|];
  (destruct (end_date _) as [d'|]; [rewrite (Hend d' eq_refl)|]);
  (destruct (minimum_activity_age _) as [age|];
   [destruct (Hage age eq_refl) as (cutoff & -> & ->)|]);
  (destruct (_ && _); [reflexivity|]);
  apply Htail; try apply ledger_inv_set_clock_reads; exact Hw.
Qed.

(** C6: for an activity without polyline data that filters 1 to 7 let
    through, [record_and_retrieve_download_path] returns [None] for GPX and
    for TCX, and the canonical path for the metadata, KML and CSV kinds:
    the gate applies to GPX and TCX only. *)
Theorem polyline_gating (E : Env) (a : Activity) (w : World) :
  ledger_inv w ->
  hasPolyline a = false ->
  (forall k, k = GPX \/ k = TCX -> passes_other_filters E w a k ->
     fst (record_and_retrieve_download_path E a k w) = Ok None)
  /\ (forall k, k = ACTIVITY_JSON \/ k = KML \/ k = CSV ->
        passes_other_filters E w a k ->
        fst (record_and_retrieve_download_path E a k w)
        = Ok (Some (canonical_path E a k))).
Proof.
  intros Hw Hpoly. split; intros k Hk Hpass;
    rewrite (decide_passes E a k w Hw Hpass), Hpoly.
  - destruct Hk as [-> | ->]; reflexivity.
  - destruct Hk as [-> | [-> | ->]]; reflexivity.
Qed.

Lemma demo_passes_other_filters (k : FileType) :
  passes_other_filters demo_env (initial_world ∅) indoor_run k.
Proof.
  repeat split; try (intros ? [=]); apply not_elem_of_empty.
Defined.

Lemma polyline_gating_witness :
  fst (record_and_retrieve_download_path demo_env indoor_run GPX (initial_world ∅))
    = Ok None
  /\ fst (record_and_retrieve_download_path demo_env indoor_run TCX (initial_world ∅))
    = Ok None
  /\ fst (record_and_retrieve_download_path demo_env indoor_run ACTIVITY_JSON
            (initial_world ∅))
    = Ok (Some (canonical_path demo_env indoor_run ACTIVITY_JSON))
  /\ fst (record_and_retrieve_download_path demo_env indoor_run KML (initial_world ∅))
    = Ok (Some (canonical_path demo_env indoor_run KML)).
Proof.
  assert (Hinv : ledger_inv (initial_world ∅))
    by (apply (bool_decide_unpack _); vm_compute; exact I).
  destruct (polyline_gating demo_env indoor_run (initial_world ∅) Hinv eq_refl)
    as [Hgate Hfree].
  split; [|split; [|split]].
  - apply Hgate; [now left | apply demo_passes_other_filters].
  - apply Hgate; [now right | apply demo_passes_other_filters].
  - apply Hfree; [now left | apply demo_passes_other_filters].
  - apply Hfree; [right; now left | apply demo_passes_other_filters].
Defined.

(** C9 (failing input): with the start date that the configuration loader
    builds, which is offset-naive, [record_and_retrieve_download_path]
    raises [TypeError] in the initial state for an activity as the API
    gives it, whose start time is offset-aware; the state is left as it
    was. *)
Theorem decide_raises_with_naive_start_date :
  reachable start_date_env (initial_world ∅)
  /\ start_date (file_manager_config (config start_date_env))
     = Some (naive 2024 1 1 0 0 0)
  /\ aware (start_time_gmt morning_run) = true
  /\ record_and_retrieve_download_path start_date_env morning_run ACTIVITY_JSON
       (initial_world ∅)
     = (Raise TypeError, initial_world ∅).
Proof.
  split; [constructor|]. split; [reflexivity|]. split; [reflexivity|].
  vm_compute. reflexivity.
Qed.

(** ** The metadata text is always decodable *)

(** Induction on JSON values, through the lists they nest. *)
Lemma json_induction (P : json -> Prop) :
  P JNull -> (forall b, P (JBool b)) -> (forall z, P (JInt z)) ->
  (forall r, P (JFloat r)) -> (forall s, P (JStr s)) ->
  (forall items, Forall P items -> P (JList items)) ->
  (forall items, Forall (fun kv => P (snd kv)) items -> P (JDict items)) ->
  forall j, P j.
Proof.
  intros Hnull Hbool Hint Hfloat Hstr Hlist Hdict.
  fix IH 1. intros [| b | z | r | s | items | items].
  - exact Hnull.
  - apply Hbool.
  - apply Hint.
  - apply Hfloat.
  - apply Hstr.
  - apply Hlist. induction items as [|j items IHitems]; constructor.
    + apply IH.
    + exact IHitems.
  - apply Hdict. induction items as [|[k j] items IHitems]; constructor.
    + apply IH.
    + exact IHitems.
Qed.

Lemma lit_one_byte (s : string) : Forall one_byte (lit s).
Proof.
  unfold lit. apply List.Forall_map.
  apply List.Forall_forall. intros a _. apply N_ascii_bounded.
Qed.

Lemma uint_chars_one_byte (u : Decimal.uint) : Forall one_byte (uint_chars u).
Proof.
  eapply Forall_impl; [apply uint_chars_digit|].
  intros c Hc. unfold one_byte. char_arith.
Qed.

Lemma str_of_int_one_byte (z : Z) : Forall one_byte (str_of_int z).
Proof.
  unfold str_of_int. destruct (Z.to_int z).
  - apply uint_chars_one_byte.
  - constructor; [reflexivity | apply uint_chars_one_byte].
Qed.

Lemma hex_digit_one_byte (n : N) : (n < 16)%N -> one_byte (hex_digit n).
Proof.
  intros Hn. unfold hex_digit, one_byte.
  destruct (N.ltb_spec n 10); lia.
Qed.

Lemma u_escape_one_byte (n : N) : Forall one_byte (u_escape n).
Proof.
  unfold u_escape. apply Forall_app. split; [apply lit_one_byte|].
  repeat constructor; apply hex_digit_one_byte; apply N.mod_lt; discriminate.
Qed.

Lemma escape_char_one_byte (c : N) : Forall one_byte (escape_char c).
Proof.
  unfold escape_char.
  repeat match goal with
    | |- Forall _ (if ?b then _ else _) => destruct b eqn:?
    | |- Forall _ (lit _) => apply lit_one_byte
    | |- Forall _ (u_escape _) => apply u_escape_one_byte
    | |- Forall _ (_ ++ _) => apply Forall_app; split
    end.
  - repeat constructor.
  - repeat constructor.
  - constructor; [|constructor]. unfold one_byte. char_arith.
Qed.

Lemma encode_basestring_ascii_one_byte (s : str) :
  Forall one_byte (encode_basestring_ascii s).
Proof.
  unfold encode_basestring_ascii.
  apply Forall_app. split; [repeat constructor|].
  apply Forall_app. split; [|repeat constructor].
  induction s as [|c s IH]; simpl; [constructor|].
  apply Forall_app. split; [apply escape_char_one_byte | exact IH].
Qed.

Lemma newline_indent_one_byte (n : nat) : Forall one_byte (newline_indent n).
Proof.
  unfold newline_indent. constructor; [reflexivity|].
  apply List.Forall_forall. intros c Hc. apply repeat_spec in Hc. now subst.
Qed.

Lemma join_one_byte (sep : str) (l : list str) :
  Forall one_byte sep -> Forall (Forall one_byte) l -> Forall one_byte (join sep l).
Proof.
  intros Hsep. induction 1 as [|x l Hx Hl IH]; simpl; [constructor|].
  destruct l as [|y l]; [exact Hx|].
  apply Forall_app. split; [exact Hx|].
  apply Forall_app. split; [exact Hsep | exact IH].
Qed.

Lemma insert_item_Forall {V} (P : str * V -> Prop) (kv : str * V) (l : list (str * V)) :
  P kv -> Forall P l -> Forall P (insert_item kv l).
Proof.
  intros Hkv. induction 1 as [|kv' l Hkv' Hl IH]; simpl.
  - repeat constructor. exact Hkv.
  - destruct (str_le _ _); repeat constructor; assumption.
Qed.

Lemma sort_items_Forall {V} (P : str * V -> Prop) (l : list (str * V)) :
  Forall P l -> Forall P (sort_items l).
Proof.
  unfold sort_items. induction 1 as [|kv l Hkv Hl IH]; simpl; [constructor|].
  now apply insert_item_Forall.
Qed.

Lemma dumps_at_one_byte (j : json) : forall level, Forall one_byte (dumps_at level j).
Proof.
  induction j as [| b | z | r | s | items IH | items IH] using json_induction;
    intros level.
  - apply lit_one_byte.
  - destruct b; apply lit_one_byte.
  - apply str_of_int_one_byte.
  - apply lit_one_byte.
  - apply encode_basestring_ascii_one_byte.
  - destruct items as [|j items]; [apply lit_one_byte|].
    cbn [dumps_at].
    apply Forall_app. split; [apply lit_one_byte|].
    apply Forall_app. split; [apply newline_indent_one_byte|].
    apply Forall_app. split.
    + apply join_one_byte.
      * apply Forall_app. split; [apply lit_one_byte | apply newline_indent_one_byte].
      * apply List.Forall_map. eapply Forall_impl; [exact IH|].
        intros j' Hj'. apply Hj'.
    + apply Forall_app. split; [apply newline_indent_one_byte | apply lit_one_byte].
  - destruct items as [|kv items]; [apply lit_one_byte|].
    cbn [dumps_at].
    apply Forall_app. split; [apply lit_one_byte|].
    apply Forall_app. split; [apply newline_indent_one_byte|].
    apply Forall_app. split.
    + apply join_one_byte.
      * apply Forall_app. split; [apply lit_one_byte | apply newline_indent_one_byte].
      * apply List.Forall_map.
        eapply Forall_impl.
        -- apply (sort_items_Forall (fun kv => Forall one_byte (snd kv))).
           apply List.Forall_map. eapply Forall_impl; [exact IH|].
           intros kv' Hkv'. apply Hkv'.
        -- intros kv' Hkv'. cbv beta.
           apply Forall_app. split; [apply encode_basestring_ascii_one_byte|].
           apply Forall_app. split; [apply lit_one_byte | exact Hkv'].
    + apply Forall_app. split; [apply newline_indent_one_byte | apply lit_one_byte].
Qed.

Lemma to_N_byte_of (n : N) : (n < 256)%N -> Byte.to_N (byte_of n) = n.
Proof.
  intros Hn. unfold byte_of. destruct (Byte.of_N n) as [b|] eqn:Hb.
  - now apply Byte.to_of_N.
  - apply Byte.of_N_None_iff in Hb. lia.
Qed.

Lemma encode_utf8_one_byte_wellformed (s : str) :
  Forall one_byte s -> decodes_utf8 (encode_utf8 s) = true.
Proof.
  unfold decodes_utf8, one_byte.
  induction 1 as [|c s Hc Hs IH]; [reflexivity|].
  cbn [encode_utf8 List.flat_map]. fold (encode_utf8 s).
  destruct (N.ltb_spec c 128) as [Hlt|Hge].
  - cbn [List.app List.map utf8_wellformed].
    rewrite to_N_byte_of by lia.
    destruct (N.ltb_spec c 128); [exact IH | lia].
  - replace (c <? 2048)%N with true by (symmetry; apply N.ltb_lt; lia).
    cbn [List.app List.map utf8_wellformed].
    assert (Hq : (2 <= c / 64 < 4)%N).
    { split; [apply N.div_le_lower_bound | apply N.Div0.div_lt_upper_bound]; lia. }
    assert (Hm : (c mod 64 < 64)%N) by (apply N.mod_lt; discriminate).
    generalize dependent (c / 64)%N. generalize dependent (c mod 64)%N.
    intros m Hm q Hq.
    rewrite !to_N_byte_of by lia.
    replace (192 + q <? 128)%N with false by (symmetry; apply N.ltb_ge; lia).
    unfold in_range.
    replace (194 <=? 192 + q)%N with true by (symmetry; apply N.leb_le; lia).
    replace (192 + q <=? 223)%N with true by (symmetry; apply N.leb_le; lia).
    replace (128 <=? 128 + m)%N with true by (symmetry; apply N.leb_le; lia).
    replace (128 + m <=? 191)%N with true by (symmetry; apply N.leb_le; lia).
    exact IH.
Qed.

(** [activity.dump().decode('utf-8')] never fails. *)
Lemma dump_decodes (a : Activity) : decodes_utf8 (dump a) = true.
Proof.
  unfold dump, json_dumps.
  apply encode_utf8_one_byte_wellformed, dumps_at_one_byte.
Qed.

(** ** Change detection *)

Lemma check_for_activity_changes_cases (E : Env) (a : Activity) (w : World) :
  ledger_inv w ->
  (ACTIVITY_JSON ∉ materialized w (id a) ->
     check_for_activity_changes E a w = (Ok tt, w))
  /\ (ACTIVITY_JSON ∈ materialized w (id a) ->
      match files w !! canonical_path E a ACTIVITY_JSON with
      | None =>
          check_for_activity_changes E a w = mark_activity_as_redownloadable E a w
      | Some data =>
          if bool_decide (dump a = data)
          then check_for_activity_changes E a w = (Ok tt, w)
          else if decodes_utf8 data
          then check_for_activity_changes E a w = mark_activity_as_redownloadable E a w
          else check_for_activity_changes E a w = (Raise UnicodeDecodeError, w)
      end).
Proof.
  intros Hw. unfold materialized, check_for_activity_changes.
  unfold mbind, M_bind, bind, get_world, mret, M_ret, ret, raise.
  destruct (downloaded_activities w !! id a) as [record|] eqn:Hl.
  2:{ split; [reflexivity|]. intros H. now apply elem_of_empty in H. }
  pose proof (ledger_inv_lookup w _ record Hw Hl) as Hid.
  split; intros Hjson.
  - now rewrite bool_decide_false by assumption.
  - rewrite bool_decide_true by assumption. cbn [negb]. cbv beta iota.
    rewrite (_retrieve_download_path_Ok E a ACTIVITY_JSON w record Hl Hid Hjson).
    destruct (files w !! canonical_path E a ACTIVITY_JSON) as [data|]; [|reflexivity].
    destruct (bool_decide (dump a = data)); [reflexivity|].
    rewrite dump_decodes. cbn [negb]. cbv beta iota.
    destruct (decodes_utf8 data); reflexivity.
Qed.

(** Change detection when the file found at the path computed from the
    current payload is UTF-8 and differs from the serialization of that
    payload: the call returns, the recorded kinds of the activity are
    cleared, no file is left at the paths computed from the current payload
    for the kinds that were recorded, and every other file stays.  The
    paths depend on the name, the type and the start time of the payload:
    files stored under earlier ones are among those that stay. *)
Lemma change_detection_decodable (E : Env) (a : Activity) (w : World) (data : bytes) :
  ledger_inv w ->
  ACTIVITY_JSON ∈ materialized w (id a) ->
  files w !! canonical_path E a ACTIVITY_JSON = Some data ->
  data <> dump a ->
  decodes_utf8 data = true ->
  let w' := snd (check_for_activity_changes E a w) in
  fst (check_for_activity_changes E a w) = Ok tt
  /\ materialized w' (id a) = ∅
  /\ (forall k, k ∈ materialized w (id a) ->
        files w' !! canonical_path E a k = None)
  /\ (forall p, (forall k, k ∈ materialized w (id a) -> p <> canonical_path E a k) ->
        files w' !! p = files w !! p).
Proof.
  intros Hw Hjson Hfile Hdiff Hdec.
  pose proof (proj2 (check_for_activity_changes_cases E a w Hw) Hjson) as Hc.
  rewrite Hfile, Hdec in Hc.
  rewrite bool_decide_false in Hc by congruence. rewrite Hc.
  unfold materialized in *.
  destruct (downloaded_activities w !! id a) as [record|] eqn:Hl;
    [|now apply elem_of_empty in Hjson].
  rewrite (mark_activity_as_redownloadable_tracked E a w record Hw Hl).
  simpl. rewrite lookup_insert_eq. simpl.
  split; [reflexivity|]. split; [reflexivity|]. split.
  - intros k Hk. apply unlink_kinds_deleted. now apply elem_of_elements.
  - intros p Hp. apply unlink_kinds_other. intros k Hk.
    apply Hp. now apply elem_of_elements in Hk.
Qed.

(** Unchanged metadata, or no materialized metadata: nothing happens. *)
Lemma change_detection_noop (E : Env) (a : Activity) (w : World) :
  ledger_inv w ->
  (ACTIVITY_JSON ∉ materialized w (id a)
   \/ files w !! canonical_path E a ACTIVITY_JSON = Some (dump a)) ->
  check_for_activity_changes E a w = (Ok tt, w).
Proof.
  intros Hw [Hno|Hsame].
  - now apply check_for_activity_changes_cases.
  - destruct (decide (ACTIVITY_JSON ∈ materialized w (id a))) as [Hjson|Hno];
      [|now apply check_for_activity_changes_cases].
    pose proof (proj2 (check_for_activity_changes_cases E a w Hw) Hjson) as Hc.
    rewrite Hsame in Hc. now rewrite bool_decide_true in Hc by reflexivity.
Qed.

(** Downloading an activity is made of public operations and file writes. *)
Lemma _maybe_download_activity_reachable (E : Env) (a : Activity) :
  preserves (reachable E) (_maybe_download_activity E a).
Proof.
  assert (Hdecide : forall k,
            preserves (reachable E) (record_and_retrieve_download_path E a k)).
  { intros k w Hw. now apply reach_decide. }
  assert (Hwrite : forall p data, preserves (reachable E) (write_file p data)).
  { intros p data. apply preserves_modify. intros w Hw. now apply reach_files. }
  unfold _maybe_download_activity.
  apply preserves_bind; [apply Hdecide|]. intros json_path.
  apply preserves_bind.
  { destruct json_path; [|apply preserves_ret].
    apply preserves_bind; [apply Hwrite | intros _; apply preserves_ret]. }
  intros counts. revert counts.
  induction gps_file_types as [|k ks IH]; intros counts; simpl.
  - apply preserves_ret.
  - apply preserves_bind; [apply Hdecide|]. intros [p|]; [|apply IH].
    apply preserves_bind; [|intros _; apply IH].
    unfold _write_gps_file.
    apply preserves_bind; [apply preserves_lift|].
    intros [|b data]; [apply preserves_ret | apply Hwrite].
Qed.

(** C5 (failing input): when the stored metadata file holds a byte that is
    not UTF-8, the stored bytes differ from the serialization of the
    payload, yet [check_for_activity_changes] raises
    [UnicodeDecodeError]: nothing is marked redownloadable and the file
    stays. *)
Theorem change_detection_raises_on_undecodable_file :
  reachable demo_env corrupted_world
  /\ ACTIVITY_JSON ∈ materialized corrupted_world (id morning_run)
  /\ files corrupted_world !! canonical_path demo_env morning_run ACTIVITY_JSON
     = Some [xff]
  /\ [xff] <> dump morning_run
  /\ check_for_activity_changes demo_env morning_run corrupted_world
     = (Raise UnicodeDecodeError, corrupted_world).
Proof.
  split.
  { apply reach_files, _maybe_download_activity_reachable. constructor. }
  assert (Hjson : ACTIVITY_JSON ∈ materialized corrupted_world (id morning_run))
    by (apply (bool_decide_unpack _); vm_compute; exact I).
  assert (Hfile : files corrupted_world
                    !! canonical_path demo_env morning_run ACTIVITY_JSON = Some [xff])
    by (vm_compute; reflexivity).
  assert (Hdiff : [xff] <> dump morning_run) by (vm_compute; discriminate).
  split; [exact Hjson|]. split; [exact Hfile|]. split; [exact Hdiff|].
  assert (Hinv : ledger_inv corrupted_world)
    by (apply (bool_decide_unpack _); vm_compute; exact I).
  pose proof (proj2 (check_for_activity_changes_cases demo_env morning_run
                       corrupted_world Hinv) Hjson) as Hc.
  rewrite Hfile in Hc.
  rewrite bool_decide_false in Hc by congruence.
  exact Hc.
Qed.

(** ** The export pass *)

(** The file manager and the downloads never touch the watermark. *)
Section Watermark_frame.
Context (E : Env) (W : option ActivityId).

Let keeps (w : World) : Prop := oldest_downloaded_activity_id w = W.

Ltac frame :=
  repeat first
    [ assumption
    | preserves_step
    | match goal with
      | |- keeps _ => unfold keeps in *; simpl
      | |- context [match ?x with _ => _ end] => destruct x
      end ].

Lemma datetime_now_utc_frame : preserves keeps (datetime_now_utc E).
Proof. intros w Hw. exact Hw. Qed.

Lemma _retrieve_download_path_frame (a : Activity) (k : FileType) :
  preserves keeps (_retrieve_download_path E a k).
Proof. unfold _retrieve_download_path. frame. Qed.

Lemma _record_download_path_frame (i : ActivityId) (k : FileType) :
  preserves keeps (_record_download_path i k).
Proof. unfold _record_download_path. frame. Qed.

Lemma record_and_retrieve_download_path_frame (a : Activity) (k : FileType) :
  preserves keeps (record_and_retrieve_download_path E a k).
Proof.
  unfold record_and_retrieve_download_path.
  repeat first
    [ apply _record_download_path_frame
    | apply _retrieve_download_path_frame
    | apply datetime_now_utc_frame
    | preserves_step ].
Qed.

Lemma unlink_if_exists_frame (p : Path) : preserves keeps (unlink_if_exists p).
Proof. unfold unlink_if_exists. frame. Qed.

Lemma mark_activity_as_redownloadable_frame (a : Activity) :
  preserves keeps (mark_activity_as_redownloadable E a).
Proof.
  unfold mark_activity_as_redownloadable.
  repeat first
    [ apply _retrieve_download_path_frame
    | apply unlink_if_exists_frame
    | preserves_step ];
  frame.
Qed.

Lemma check_for_activity_changes_frame (a : Activity) :
  preserves keeps (check_for_activity_changes E a).
Proof.
  unfold check_for_activity_changes.
  repeat first
    [ apply mark_activity_as_redownloadable_frame
    | apply _retrieve_download_path_frame
    | preserves_step ].
Qed.

Lemma write_file_frame (p : Path) (data : bytes) : preserves keeps (write_file p data).
Proof. unfold write_file. frame. Qed.

Lemma _maybe_download_activity_frame (a : Activity) :
  preserves keeps (_maybe_download_activity E a).
Proof.
  unfold _maybe_download_activity.
  apply preserves_bind; [apply record_and_retrieve_download_path_frame|].
  intros json_path. apply preserves_bind.
  { destruct json_path; [|apply preserves_ret].
    apply preserves_bind; [apply write_file_frame | intros _; apply preserves_ret]. }
  intros counts. revert counts.
  induction gps_file_types as [|k ks IH]; intros counts; simpl.
  - apply preserves_ret.
  - apply preserves_bind; [apply record_and_retrieve_download_path_frame|].
    intros [p|]; [|apply IH].
    apply preserves_bind; [|intros _; apply IH].
    unfold _write_gps_file.
    apply preserves_bind; [apply preserves_lift|].
    intros [|b data]; [apply preserves_ret | apply write_file_frame].
Qed.

End Watermark_frame.

Lemma process_activity_spec (E : Env) (a : Activity) (v v' : LoopVars)
    (d : nat) (w w' : World) :
  process_activity E a v w = (Ok (v', d), w') ->
  oldest_downloaded_activity_id w' = oldest_downloaded_activity_id w
  /\ current_run_oldest_downloaded_activity_id v'
     = cursor_step (id a, d) (current_run_oldest_downloaded_activity_id v)
  /\ reached_boundary v'
     = boundary_step (oldest_downloaded_activity_id w) (id a, d) (reached_boundary v).
Proof.
  unfold process_activity. cbv zeta.
  unfold mbind, M_bind, bind, get_world, mret, M_ret, ret.
  destruct ((if check_for_activity_changes_enabled (config E)
             then check_for_activity_changes E a else fun w => (Ok tt, w)) w)
    as [[[]|e] w1] eqn:Hc; cbv beta iota; [|intros [=]].
  destruct (_maybe_download_activity E a w1) as [[ds|e] w2] eqn:Hd;
    cbv beta iota; [|intros [=]].
  assert (H1 : oldest_downloaded_activity_id w1 = oldest_downloaded_activity_id w).
  { destruct (check_for_activity_changes_enabled (config E)).
    - pose proof (check_for_activity_changes_frame E _ a w eq_refl) as H.
      now rewrite Hc in H.
    - now inversion Hc. }
  assert (H2 : oldest_downloaded_activity_id w2 = oldest_downloaded_activity_id w1).
  { pose proof (_maybe_download_activity_frame E _ a w1 eq_refl) as H.
    now rewrite Hd in H. }
  intros Heq. inversion Heq; subst; clear Heq.
  split; [congruence|]. split; reflexivity.
Qed.

Lemma process_activities_spec (E : Env) (activities : list Activity) :
  forall (v v' : LoopVars) (tr : list (ActivityId * nat)) (w w' : World),
  process_activities E activities v w = (Ok (v', tr), w') ->
  oldest_downloaded_activity_id w' = oldest_downloaded_activity_id w
  /\ List.map fst tr = List.map id activities
  /\ current_run_oldest_downloaded_activity_id v'
     = cursor_after tr (current_run_oldest_downloaded_activity_id v)
  /\ reached_boundary v'
     = boundary_after (oldest_downloaded_activity_id w) tr (reached_boundary v).
Proof.
  induction activities as [|a rest IH]; intros v v' tr w w'; simpl;
    unfold mbind, M_bind, bind, mret, M_ret, ret.
  - intros [= <- <- <-]. repeat split.
  -
    destruct (process_activity E a v w) as [[[v1 d]|e] w1] eqn:Ha;
      cbv beta iota; cbn [fst snd]; [|intros [=]].
    destruct (process_activities E rest v1 w1) as [[[v2 tr2]|e] w2] eqn:Hr;
      cbv beta iota; cbn [fst snd]; [|intros [=]].
    intros Heq. inversion Heq; subst; clear Heq.
    apply process_activity_spec in Ha as (Ho1 & Hc1 & Hb1).
    apply IH in Hr as (Ho2 & Hm2 & Hc2 & Hb2).
    split; [congruence|]. split; [simpl; congruence|].
    split; simpl; [rewrite <- Hc1; exact Hc2|].
    rewrite <- Hb1, <- Ho1. exact Hb2.
Qed.

(** *** The cursor and the boundary flag along a trace *)

Lemma cursor_after_app (tr1 tr2 : list (ActivityId * nat)) (c : option ActivityId) :
  cursor_after (tr1 ++ tr2) c = cursor_after tr2 (cursor_after tr1 c).
Proof. unfold cursor_after. apply fold_left_app. Qed.

Lemma boundary_after_app (W : option ActivityId) (tr1 tr2 : list (ActivityId * nat))
    (r : bool) :
  boundary_after W (tr1 ++ tr2) r = boundary_after W tr2 (boundary_after W tr1 r).
Proof. unfold boundary_after. apply fold_left_app. Qed.

Lemma truthy_Some (i : ActivityId) : i <> 0 -> truthy (Some i) = true.
Proof. intros Hi. simpl. now destruct (Z.eqb_spec i 0). Qed.

Lemma cursor_after_spec (tr : list (ActivityId * nat)) :
  Forall (fun e => fst e <> 0) tr ->
  forall c,
    cursor_after tr c
    = match last_download tr with
      | Some i => Some i
      | None => if truthy c then c
                else match first_activity tr with Some i => Some i | None => c end
      end.
Proof.
  induction 1 as [|[i d] tr Hi Htr IH]; intros c.
  - simpl. now destruct (truthy c).
  - change (cursor_after ((i, d) :: tr) c)
      with (cursor_after tr (cursor_step (i, d) c)).
    rewrite IH. cbn [last_download first_activity fst snd] in *.
    unfold cursor_step. cbn [fst snd].
    destruct (last_download tr) as [j|]; [reflexivity|].
    destruct (0 <? d)%nat.
    + now rewrite (truthy_Some i Hi).
    + destruct (truthy c) eqn:Hc; cbn [negb].
      * now rewrite Hc.
      * now rewrite (truthy_Some i Hi).
Qed.

Lemma boundary_step_true (W i : ActivityId) (d : nat) (r : bool) :
  W <> 0 ->
  boundary_step (Some W) (i, d) r = true <-> d = 0%nat /\ (i = W \/ r = true).
Proof.
  intros HW. unfold boundary_step. simpl fst. simpl snd.
  rewrite (truthy_Some W HW). simpl andb.
  destruct d as [|d]; simpl.
  - destruct (decide (Some i = Some W)) as [Heq|Hne].
    + rewrite bool_decide_true by assumption. injection Heq as ->. tauto.
    + rewrite bool_decide_false by assumption.
      split; [tauto|]. intros [_ [-> | Hr]]; congruence.
  - split; [discriminate | intros [[=] _]].
Qed.

(** The flag is set at the end of a page exactly when it was set before
    and nothing was downloaded, or when the page holds the boundary
    activity and nothing was downloaded for it or after it. *)
Lemma boundary_after_true (W : ActivityId) (tr : list (ActivityId * nat)) (r : bool) :
  W <> 0 ->
  boundary_after (Some W) tr r = true
  <-> (r = true /\ no_downloads tr)
      \/ (exists pre post, tr = pre ++ (W, 0%nat) :: post /\ no_downloads post).
Proof.
  intros HW. unfold no_downloads.
  induction tr as [|[i d] tr IH] using rev_ind.
  - simpl. split.
    + intros ->. left. split; [reflexivity | constructor].
    + intros [[-> _] | (pre & post & Heq & _)]; [reflexivity|].
      now destruct pre.
  - rewrite boundary_after_app. simpl.
    change (boundary_after (Some W) [(i, d)] (boundary_after (Some W) tr r))
      with (boundary_step (Some W) (i, d) (boundary_after (Some W) tr r)).
    rewrite (boundary_step_true W i d _ HW), IH. split.
    + intros [-> [-> | [[-> Hno] | (pre & post & -> & Hno)]]].
      * right. exists tr, []. split; [reflexivity | constructor].
      * left. split; [reflexivity|]. apply Forall_app. split; [exact Hno|].
        repeat constructor.
      * right. exists pre, (post ++ [(i, 0%nat)]). split.
        -- now rewrite <- app_assoc.
        -- apply Forall_app. split; [exact Hno | repeat constructor].
    + intros [[-> Hno] | (pre & post & Heq & Hno)].
      * apply Forall_app in Hno as [Hno Hd].
        apply Forall_cons in Hd as [Hd _]. simpl in Hd. subst d.
        split; [reflexivity|]. right. left. split; [reflexivity | exact Hno].
      * destruct post as [|e post _] using rev_ind.
        -- apply app_inj_tail in Heq as [-> [= -> ->]].
           split; [reflexivity | now left].
        -- rewrite app_comm_cons, app_assoc in Heq.
           apply app_inj_tail in Heq as [-> <-].
           apply Forall_app in Hno as [Hno Hd].
           apply Forall_cons in Hd as [Hd _]. simpl in Hd. subst d.
           split; [reflexivity|]. right. right. now exists pre, post.
Qed.

Lemma boundary_page_sets_flag (W : ActivityId) (b : BatchLog) :
  W <> 0 -> boundary_page W b ->
  boundary_after (Some W) (processed b) false = true.
Proof.
  intros HW [[d Hin] Hno].
  apply (boundary_after_true W _ false HW). right.
  apply list_elem_of_split in Hin as (pre & post & Heq).
  assert (Hd : d = 0%nat).
  { unfold no_downloads in Hno. rewrite Heq in Hno.
    apply Forall_app in Hno as [_ Hno].
    apply Forall_cons in Hno as [Hno _]. exact Hno. }
  subst d. exists pre, post. split; [exact Heq|].
  unfold no_downloads in *. rewrite Heq in Hno.
  apply Forall_app in Hno as [_ Hno]. now apply Forall_cons in Hno as [_ Hno].
Qed.

(** *** The loop over the pages *)

Lemma trace_of_cons (b : BatchLog) (log : list BatchLog) :
  trace_of (b :: log) = processed b ++ trace_of log.
Proof. reflexivity. Qed.

Lemma download_loop_spec (E : Env) (fuel : nat) :
  forall (start : Z) (v v' : LoopVars) (log : list BatchLog) (w w' : World),
  download_loop E fuel start v w = Some (Ok (v', log), w') ->
  oldest_downloaded_activity_id w' = oldest_downloaded_activity_id w
  /\ current_run_oldest_downloaded_activity_id v'
     = cursor_after (trace_of log) (current_run_oldest_downloaded_activity_id v)
  /\ pass_log (oldest_downloaded_activity_id w)
       (always_recheck_all_activities (config E)) (batch_size (config E)) start log.
Proof.
  induction fuel as [|fuel IH]; intros start v v' log w w'; simpl; [discriminate|].
  destruct (get_activities E start (batch_size (config E))) as [[|a acts]|e];
    [| |discriminate].
  - intros [= <- <- <-]. repeat split. constructor.
  - destruct (process_activities E (a :: acts) (start_batch v) w)
      as [[[v1 ds]|e] w1] eqn:Hp; [|discriminate].
    apply process_activities_spec in Hp as (Ho & Hids & Hc & Hb).
    simpl in Hc, Hb.
    assert (Hne : ds <> []) by (intros ->; discriminate Hids).
    rewrite Hb.
    destruct (boundary_after _ ds false && negb _) eqn:Hstop.
    + intros [= <- <- <-].
      apply andb_true_iff in Hstop as [Hflag Halways].
      apply negb_true_iff in Halways.
      split; [exact Ho|]. split.
      * rewrite trace_of_cons, cursor_after_app. cbn [processed trace_of].
        exact Hc.
      * now constructor.
    + destruct (download_loop E fuel (start + batch_size (config E)) v1 w1)
        as [[[[v2 rest]|e] w2]|] eqn:Hrec; [|discriminate|discriminate].
      intros [= <- <- <-].
      apply IH in Hrec as (Ho2 & Hc2 & Hlog2).
      split; [congruence|]. split.
      * rewrite trace_of_cons, cursor_after_app. cbn [processed].
        rewrite <- Hc. exact Hc2.
      * constructor; [exact Hne | exact Hstop |]. now rewrite <- Ho.
Qed.

(** What a pass that ends normally leaves: its log has the shape of
    [pass_log], and the watermark is the cursor when the cursor is set. *)
Lemma download_all_activities_iteration_spec (E : Env) (fuel : nat)
    (w w' : World) (log : list BatchLog) :
  download_all_activities_iteration E fuel w = Some (Ok log, w') ->
  pass_log (oldest_downloaded_activity_id w)
    (always_recheck_all_activities (config E)) (batch_size (config E)) 0 log
  /\ oldest_downloaded_activity_id w'
     = (if truthy (cursor_after (trace_of log) None)
        then cursor_after (trace_of log) None
        else oldest_downloaded_activity_id w).
Proof.
  unfold download_all_activities_iteration.
  destruct (download_loop E fuel 0 initial_vars _)
    as [[[[v rest]|e] w1]|] eqn:Hloop; [|discriminate|discriminate].
  apply download_loop_spec in Hloop as (Ho & Hc & Hlog).
  simpl in Ho, Hc, Hlog. rewrite Hc.
  destruct (truthy _) eqn:Ht; intros [= <- <-]; (split; [exact Hlog|]);
    rewrite Ht; simpl; [reflexivity | exact Ho].
Qed.

(** A boundary page can only be the last entry of a log. *)
Lemma pass_log_boundary_last (W : ActivityId) (bs start : Z) (log : list BatchLog) :
  W <> 0 ->
  pass_log (Some W) false bs start log ->
  forall pre b post, log = pre ++ b :: post -> boundary_page W b -> post = [].
Proof.
  intros HW. induction 1 as [start|start tr Hne Hflag _|start tr rest Hne Hgo Hrest IH];
    intros pre b post Heq Hb.
  - destruct pre as [|x [|y pre]]; inversion Heq; reflexivity.
  - destruct pre as [|x [|y pre]]; inversion Heq; reflexivity.
  - destruct pre as [|x pre]; simpl in Heq.
    + injection Heq as <- <-. exfalso.
      apply (boundary_page_sets_flag W _ HW) in Hb. simpl in Hb.
      rewrite Hb in Hgo. discriminate Hgo.
    + injection Heq as _ ->. exact (IH pre b post eq_refl Hb).
Qed.

(** With enough fuel the loop ends: the feed is exhausted at page [n]. *)
Lemma download_loop_terminates (E : Env) (n : nat) :
  forall (start : Z) (v : LoopVars) (w : World) (fuel : nat),
  get_activities E (start + Z.of_nat n * batch_size (config E)) (batch_size (config E))
    = Ok [] ->
  (n < fuel)%nat ->
  download_loop E fuel start v w <> None.
Proof.
  induction n as [|n IH]; intros start v w fuel Hend Hfuel;
    (destruct fuel as [|fuel]; [lia|]); simpl.
  - replace (start + Z.of_nat 0 * _) with start in Hend by lia.
    now rewrite Hend.
  - destruct (get_activities E start _) as [[|a acts]|e]; try discriminate.
    destruct (process_activities E (a :: acts) (start_batch v) w)
      as [[[v1 ds]|e] w1]; [|discriminate].
    destruct (_ && _); [discriminate|].
    assert (Hrec : download_loop E fuel (start + batch_size (config E)) v1 w1 <> None).
    { apply IH; [|lia].
      replace (start + batch_size (config E) + Z.of_nat n * batch_size (config E))
        with (start + Z.of_nat (S n) * batch_size (config E)) by lia.
      exact Hend. }
    destruct (download_loop E fuel _ v1 w1) as [[[[v2 rest]|e] w2]|];
      [discriminate | discriminate | congruence].
Qed.

(** The pass ends: when the feed answers with an empty page at page [n],
    more than [n] rounds of the loop are never needed, whatever happens
    before (a normal end, an early stop at the boundary or an exception). *)
Lemma download_all_activities_iteration_terminates (E : Env) (n fuel : nat) (w : World) :
  get_activities E (Z.of_nat n * batch_size (config E)) (batch_size (config E)) = Ok [] ->
  (n < fuel)%nat ->
  download_all_activities_iteration E fuel w <> None.
Proof.
  intros Hend Hfuel. unfold download_all_activities_iteration.
  pose proof (download_loop_terminates E n 0 initial_vars
                (set_cron_iteration (S (cron_iteration w)) w) fuel Hend Hfuel) as H.
  destruct (download_loop E fuel 0 initial_vars _) as [[[[v rest]|e] w1]|];
    [|discriminate|congruence].
  destruct (truthy _); discriminate.
Qed.

(** *** The claims about the pass *)

Lemma last_download_in (tr : list (ActivityId * nat)) (i : ActivityId) :
  last_download tr = Some i -> exists d, (i, d) ∈ tr.
Proof.
  induction tr as [|[j d] tr IH]; simpl; [discriminate|].
  destruct (last_download tr) as [k|].
  - intros [= ->]. destruct (IH eq_refl) as [d' Hd']. exists d'. now right.
  - destruct (0 <? d)%nat; [|discriminate]. intros [= ->]. exists d. now left.
Qed.

(** What the pass counts as a download: after a restart over the metadata
    files of the activities 5 and 3, with an API that answers every
    download with no bytes, the pass counts four downloads for each of
    them (a path is handed out for every GPS kind) and moves the watermark
    to 3, while no GPS file is written. *)
Lemma empty_responses_are_counted :
  exists log w',
    download_all_activities_iteration empty_response_env 5 restarted_world
      = Some (Ok log, w')
    /\ trace_of log = [(7, 0%nat); (5, 4%nat); (3, 4%nat)]
    /\ oldest_downloaded_activity_id restarted_world = None
    /\ oldest_downloaded_activity_id w' = Some 3
    /\ forall i k, i ∈ [5; 3] -> k ∈ gps_file_types ->
         files w' !! canonical_path empty_response_env (activity_numbered i) k = None.
Proof.
  assert (Htrace :
    match download_all_activities_iteration empty_response_env 5 restarted_world with
    | Some (Ok l, _) => Some (trace_of l)
    | _ => None
    end = Some [(7, 0%nat); (5, 4%nat); (3, 4%nat)]) by (vm_compute; reflexivity).
  assert (Hmark :
    match download_all_activities_iteration empty_response_env 5 restarted_world with
    | Some (_, w) => oldest_downloaded_activity_id w
    | None => None
    end = Some 3) by (vm_compute; reflexivity).
  assert (Hfiles :
    match download_all_activities_iteration empty_response_env 5 restarted_world with
    | Some (_, w) =>
        forallb (fun i =>
          forallb (fun k =>
            bool_decide (files w !! canonical_path empty_response_env
                                      (activity_numbered i) k = None))
            gps_file_types) [5; 3]
    | None => false
    end = true) by (vm_compute; reflexivity).
  destruct (download_all_activities_iteration empty_response_env 5 restarted_world)
    as [[[log|e] w']|]; [|discriminate Htrace|discriminate Htrace].
  injection Htrace as Htrace.
  exists log, w'. split; [reflexivity|]. split; [exact Htrace|].
  split; [vm_compute; reflexivity|]. split; [exact Hmark|].
  intros i k Hi Hk. rewrite forallb_forall in Hfiles.
  apply list_elem_of_In in Hi, Hk.
  specialize (Hfiles i Hi). rewrite forallb_forall in Hfiles.
  exact (proj1 (bool_decide_eq_true _) (Hfiles k Hk)).
Qed.

(** C1, as stated, fails: a pass over one activity, excluded by id,
    counts no download and yet moves the watermark from 9 to 7. *)
Lemma watermark_claim_as_stated_fails :
  ~ watermark_claim_as_stated excluded_only_env 3 watermark_9_world.
Proof.
  intros H.
  specialize (H [{| batch_start := 0; processed := [(7, 0%nat)] |};
                 {| batch_start := 2; processed := [] |}]
                after_excluded_pass).
  assert (Hrun : download_all_activities_iteration excluded_only_env 3 watermark_9_world
                 = Some (Ok [{| batch_start := 0; processed := [(7, 0%nat)] |};
                             {| batch_start := 2; processed := [] |}],
                         after_excluded_pass))
    by (vm_compute; reflexivity).
  specialize (H Hrun ltac:(discriminate)). discriminate H.
Qed.

(** C1 (amended): at the end of a pass that ends normally and fetched at
    least one activity, the ids being nonzero, the watermark is the id of
    the last processed (oldest) activity for which the pass counted a
    download, and the id of the first activity fetched when the pass
    counted none.  A download is counted for an activity when a
    destination path is handed out for one of its kinds, also when the
    API then returns no bytes and nothing is written
    ([empty_responses_are_counted]). *)
Theorem watermark_update (E : Env) (fuel : nat) (w w' : World) (log : list BatchLog) :
  download_all_activities_iteration E fuel w = Some (Ok log, w') ->
  trace_of log <> [] ->
  Forall (fun e => fst e <> 0) (trace_of log) ->
  oldest_downloaded_activity_id w'
  = match last_download (trace_of log) with
    | Some i => Some i
    | None => first_activity (trace_of log)
    end.
Proof.
  intros Hrun Hne Hids.
  apply download_all_activities_iteration_spec in Hrun as [_ ->].
  rewrite (cursor_after_spec _ Hids None). simpl truthy. cbv iota.
  pose proof Hids as Hall. rewrite Forall_forall in Hall.
  destruct (last_download (trace_of log)) as [i|] eqn:Hlast.
  - apply last_download_in in Hlast as [d Hd].
    now rewrite (truthy_Some i (Hall _ Hd)).
  - destruct (trace_of log) as [|[i d] tr]; [congruence|]. simpl.
    apply Forall_cons in Hids as [Hi _]. simpl in Hi.
    destruct (Z.eqb_spec i 0); [contradiction | reflexivity].
Qed.

Lemma watermark_update_witness :
  exists log w',
    download_all_activities_iteration three_activities_env 5 watermark_7_world
      = Some (Ok log, w')
    /\ oldest_downloaded_activity_id w' = Some 3.
Proof.
  destruct (download_all_activities_iteration three_activities_env 5 watermark_7_world)
    as [[[log|e] w']|] eqn:Hrun.
  2,3: exfalso; apply (f_equal (fun r => match r with
                                         | Some (Ok _, _) => true
                                         | _ => false
                                         end)) in Hrun;
       vm_compute in Hrun; discriminate Hrun.
  exists log, w'. split; [reflexivity|].
  assert (Hlog : log = [{| batch_start := 0; processed := [(7, 0%nat); (5, 5%nat)] |};
                        {| batch_start := 2; processed := [(3, 5%nat)] |};
                        {| batch_start := 4; processed := [] |}]).
  { apply (f_equal (fun r => match r with
                             | Some (Ok l, _) => l
                             | _ => []
                             end)) in Hrun.
    vm_compute in Hrun. now symmetry. }
  rewrite (watermark_update three_activities_env 5 watermark_7_world w' log Hrun);
    subst log.
  - reflexivity.
  - discriminate.
  - repeat constructor; discriminate.
Defined.

(** C3: in a pass that ends normally, with the watermark [W] of the
    previous run and full rescans off, a page that holds the activity [W]
    and for which nothing was downloaded is the last page fetched. *)
Theorem boundary_stop (E : Env) (fuel : nat) (w w' : World) (log : list BatchLog)
    (W : ActivityId) (pre post : list BatchLog) (b : BatchLog) :
  download_all_activities_iteration E fuel w = Some (Ok log, w') ->
  oldest_downloaded_activity_id w = Some W ->
  W <> 0 ->
  always_recheck_all_activities (config E) = false ->
  log = pre ++ b :: post ->
  boundary_page W b ->
  post = [].
Proof.
  intros Hrun HW Hnz Halways Hsplit Hb.
  apply download_all_activities_iteration_spec in Hrun as [Hlog _].
  rewrite HW, Halways in Hlog.
  exact (pass_log_boundary_last W _ 0 log Hnz Hlog pre b post Hsplit Hb).
Qed.

Lemma boundary_stop_witness :
  exists log w' pre b post,
    download_all_activities_iteration three_activities_env 5 after_first_pass
      = Some (Ok log, w')
    /\ log = pre ++ b :: post
    /\ batch_start b = 2
    /\ boundary_page 3 b
    /\ post = [].
Proof.
  destruct (download_all_activities_iteration three_activities_env 5 after_first_pass)
    as [[[log|e] w']|] eqn:Hrun.
  2,3: exfalso; apply (f_equal (fun r => match r with
                                         | Some (Ok _, _) => true
                                         | _ => false
                                         end)) in Hrun;
       vm_compute in Hrun; discriminate Hrun.
  assert (Hlog : log = [{| batch_start := 0; processed := [(7, 0%nat); (5, 0%nat)] |}]
                       ++ {| batch_start := 2; processed := [(3, 0%nat)] |} :: []).
  { apply (f_equal (fun r => match r with
                             | Some (Ok l, _) => l
                             | _ => []
                             end)) in Hrun.
    vm_compute in Hrun. now symmetry. }
  assert (Hb : boundary_page 3 {| batch_start := 2; processed := [(3, 0%nat)] |}).
  { split; [exists 0%nat; now left | repeat constructor]. }
  assert (Hw : oldest_downloaded_activity_id after_first_pass = Some 3)
    by (vm_compute; reflexivity).
  exists log, w', [{| batch_start := 0; processed := [(7, 0%nat); (5, 0%nat)] |}],
    {| batch_start := 2; processed := [(3, 0%nat)] |}, [].
  split; [reflexivity|]. split; [exact Hlog|]. split; [reflexivity|].
  split; [exact Hb|].
  exact (boundary_stop three_activities_env 5 after_first_pass w' log 3 _ _ _
           Hrun Hw ltac:(discriminate) eq_refl Hlog Hb).
Defined.

(** C4, as stated, fails: the page holds the boundary activity 7, for which
    no download is counted, and then the activity 5, for which five are:
    the flag is cleared. *)
Lemma boundary_claim_as_stated_fails :
  ~ boundary_claim_as_stated three_activities_env
      [activity_numbered 7; activity_numbered 5] initial_vars watermark_7_world.
Proof.
  intros H.
  destruct (process_activities three_activities_env
              [activity_numbered 7; activity_numbered 5]
              (start_batch initial_vars) watermark_7_world)
    as [r w'] eqn:Hp.
  assert (Hr : r = Ok ({| downloaded_count := 5; skipped_count := 5;
                          current_run_oldest_downloaded_activity_id := Some 5;
                          reached_boundary := false |},
                       [(7, 0%nat); (5, 5%nat)])).
  { apply (f_equal fst) in Hp. vm_compute in Hp. now symmetry. }
  subst r.
  assert (Hpost : 7 ∉ List.map fst [(5, 5%nat)])
    by (apply (bool_decide_unpack _); vm_compute; exact I).
  specialize (H _ _ w' 7 [] [(5, 5%nat)] Hp eq_refl ltac:(discriminate) eq_refl Hpost).
  discriminate H.
Qed.

(** C4 (amended): over one page, the watermark being [W], the boundary flag
    is set at the end exactly when the page holds the activity [W] and no
    download is counted for it nor for any activity processed after it; a
    download counted for the boundary activity or for a later activity of
    the page clears the flag.  A download is counted when a destination
    path is handed out for a kind, also when the API then returns no bytes
    and nothing is written ([empty_responses_are_counted]). *)
Theorem boundary_clearing (E : Env) (activities : list Activity) (v0 v : LoopVars)
    (tr : list (ActivityId * nat)) (w w' : World) (W : ActivityId) :
  process_activities E activities (start_batch v0) w = (Ok (v, tr), w') ->
  oldest_downloaded_activity_id w = Some W ->
  W <> 0 ->
  (reached_boundary v = true
   <-> exists pre post, tr = pre ++ (W, 0%nat) :: post /\ no_downloads post).
Proof.
  intros Hp HW Hnz.
  apply process_activities_spec in Hp as (_ & _ & _ & ->).
  rewrite HW. simpl reached_boundary.
  rewrite (boundary_after_true W tr false Hnz).
  split; [|intros H; now right].
  intros [[[=] _] | H]. exact H.
Qed.

Lemma boundary_clearing_witness :
  exists v tr w',
    process_activities three_activities_env
      [activity_numbered 7; activity_numbered 5]
      (start_batch initial_vars) watermark_7_world = (Ok (v, tr), w')
    /\ reached_boundary v = false
    /\ ~ (exists pre post, tr = pre ++ (7, 0%nat) :: post /\ no_downloads post).
Proof.
  destruct (process_activities three_activities_env
              [activity_numbered 7; activity_numbered 5]
              (start_batch initial_vars) watermark_7_world)
    as [r w'] eqn:Hp.
  assert (Hr : r = Ok ({| downloaded_count := 5; skipped_count := 5;
                          current_run_oldest_downloaded_activity_id := Some 5;
                          reached_boundary := false |},
                       [(7, 0%nat); (5, 5%nat)])).
  { apply (f_equal fst) in Hp. vm_compute in Hp. now symmetry. }
  subst r. eexists _, _, w'. split; [reflexivity|]. split; [reflexivity|].
  intros Hex.
  apply (boundary_clearing three_activities_env _ _ _ _ _ _ 7 Hp eq_refl
           ltac:(discriminate)) in Hex.
  discriminate Hex.
Defined.

(** * Further properties of the code *)

(** ** [_sanitize_filename_component] *)

Lemma safe_character_replaced (U : UnicodeDB) (c : N) :
  safe_character U c = true ->
  name_character U (if (c =? chr " ")%N then chr "_" else c) = true.
Proof.
  unfold safe_character, name_character. intros H.
  destruct (c =? chr " ")%N eqn:Hsp.
  - vm_compute; reflexivity.
  - rewrite orb_false_r in H. exact H.
Qed.

Lemma trimmed_name_characters (U : UnicodeDB) (s : str) :
  Forall (fun c => name_character U c = true)
    (firstn 50 (spaces_to_underscores
                  (strip (List.filter (safe_character U) (collapse_separators s))))).
Proof.
  apply Forall_take. unfold spaces_to_underscores. apply List.Forall_map.
  eapply Forall_impl.
  - apply strip_by_Forall. apply List.Forall_forall. intros c Hc.
    apply List.filter_In in Hc as [_ Hc]. exact Hc.
  - intros c Hc. cbv beta in *. now apply safe_character_replaced.
Qed.

Lemma sanitized_name_shape (U : UnicodeDB) (name : str) :
  _sanitize_filename_component U name <> []
  /\ (List.length (_sanitize_filename_component U name) <= 50)%nat
  /\ Forall (fun c => name_character U c = true) (_sanitize_filename_component U name).
Proof.
  rewrite _sanitize_filename_component_spec. unfold trimmed_sanitized_name.
  pose proof (trimmed_name_characters U name) as Hchars.
  pose proof (length_firstn 50 (spaces_to_underscores
    (strip (List.filter (safe_character U) (collapse_separators name))))) as Hlen.
  destruct (firstn 50 _) as [|c r]; simpl or_unnamed.
  - split; [discriminate|]. split; [vm_compute; lia|].
    repeat (constructor; [vm_compute; reflexivity|]). constructor.
  - split; [discriminate|]. split; [rewrite Hlen; apply Nat.le_min_l | exact Hchars].
Qed.

(** The sanitized name is never empty, has at most 50 characters, and is
    made of alphanumeric characters, hyphens and underscores only: no
    space, no dot, no path separator. *)
Theorem sanitized_name_is_safe (U : UnicodeDB) (name : str) :
  _sanitize_filename_component U name <> []
  /\ (List.length (_sanitize_filename_component U name) <= 50)%nat
  /\ Forall (fun c => name_character U c = true) (_sanitize_filename_component U name).
Proof. exact (sanitized_name_shape U name). Qed.

Lemma name_character_not_separator (U : UnicodeDB) (c : N) :
  name_character U c = true ->
  c <> slash /\ c <> chr "\" /\ c <> chr " " /\ c <> dot.
Proof.
  intros H. repeat split; intros ->; vm_compute in H; discriminate H.
Qed.

Lemma sanitize_fixpoint (U : UnicodeDB) (s : str) :
  spaces_not_alnum U ->
  s <> [] -> (List.length s <= 50)%nat ->
  Forall (fun c => name_character U c = true) s ->
  _sanitize_filename_component U s = s.
Proof.
  intros HU Hne Hlen Hs.
  rewrite _sanitize_filename_component_spec. unfold trimmed_sanitized_name.
  assert (H1 : collapse_separators s = s).
  { unfold collapse_separators. rewrite <- (List.map_id s) at 2.
    apply List.map_ext_Forall. eapply Forall_impl; [exact Hs|].
    intros c Hc. cbv beta.
    destruct (name_character_not_separator U c Hc) as (H1 & H2 & _).
    destruct (N.eqb_spec c (chr "/")) as [->|_]; [now destruct H1|].
    destruct (N.eqb_spec c (chr "\")) as [->|_]; [now destruct H2|]. reflexivity. }
  assert (H2 : List.filter (safe_character U) s = s).
  { apply List.forallb_filter_id. apply forallb_forall. intros c Hc.
    rewrite Forall_forall in Hs. specialize (Hs c (proj2 (list_elem_of_In _ _) Hc)).
    unfold name_character in Hs. unfold safe_character.
    apply orb_true_iff in Hs as [Hs|Hs]; [|now rewrite Hs, orb_true_r].
    apply orb_true_iff in Hs as [Hs|Hs].
    - now rewrite Hs.
    - now rewrite Hs, !orb_true_r. }
  assert (H3 : strip s = s).
  { apply strip_by_unchanged. eapply Forall_impl; [exact Hs|].
    intros c Hc. destruct (isspace c) eqn:Hsp; [|reflexivity].
    pose proof (HU c Hsp) as Hal. unfold name_character in Hc.
    rewrite Hal in Hc. simpl in Hc.
    apply orb_true_iff in Hc as [Hc|Hc]; apply N.eqb_eq in Hc; subst c;
      vm_compute in Hsp; discriminate Hsp. }
  assert (H4 : spaces_to_underscores s = s).
  { unfold spaces_to_underscores. rewrite <- (List.map_id s) at 2.
    apply List.map_ext_Forall. eapply Forall_impl; [exact Hs|].
    intros c Hc. cbv beta.
    destruct (name_character_not_separator U c Hc) as (_ & _ & H & _).
    destruct (N.eqb_spec c (chr " ")) as [->|_]; [now destruct H | reflexivity]. }
  rewrite H1, H2, H3, H4, firstn_all2 by exact Hlen.
  destruct s; [congruence | reflexivity].
Qed.

(** Sanitizing twice changes nothing more, in a character database where
    no white space is alphanumeric (as in the runtime's). *)
Theorem sanitize_idempotent (U : UnicodeDB) (name : str) :
  spaces_not_alnum U ->
  _sanitize_filename_component U (_sanitize_filename_component U name)
  = _sanitize_filename_component U name.
Proof.
  intros HU.
  destruct (sanitized_name_shape U name) as (Hne & Hlen & Hchars).
  now apply sanitize_fixpoint.
Qed.

Lemma ascii_only_db_spaces : spaces_not_alnum ascii_only_db.
Proof.
  intros c Hc. unfold isalnum, ascii_only_db. simpl.
  destruct (N.ltb_spec c 128); [|reflexivity].
  char_arith.
Qed.

Lemma sanitize_idempotent_witness :
  _sanitize_filename_component ascii_only_db
    (_sanitize_filename_component ascii_only_db (name adversarial_activity))
  = _sanitize_filename_component ascii_only_db (name adversarial_activity).
Proof.
  apply sanitize_idempotent. exact ascii_only_db_spaces.
Defined.

(** ** Canonical paths *)

Lemma FileType_value_inj (k k' : FileType) :
  FileType_value k = FileType_value k' -> k = k'.
Proof. destruct k, k'; intros H; try reflexivity; vm_compute in H; discriminate H. Qed.

Lemma Path_of_str_FileType_value (k : FileType) :
  Path_of_str (FileType_value k) = [FileType_value k].
Proof. destruct k; vm_compute; reflexivity. Qed.

Lemma filename_shape (E : Env) (a : Activity) (k : FileType) :
  filename E a k
  = _format_start_time (start_time_gmt a) ++ chr "_" ::
      (ACTIVITY_MARKER ++ chr "_" :: (str_of_int (id a) ++ chr "_" ::
        (type a ++ chr "_" :: _sanitize_filename_component (unicode E) (name a)
           ++ dot :: suffix k))).
Proof. reflexivity. Qed.

Lemma _format_start_time_first (t : datetime) :
  exists c r, _format_start_time t = c :: r /\ date_char c = true.
Proof.
  pose proof (_format_start_time_date_char t) as H.
  assert (Hlen : (0 < List.length (_format_start_time t))%nat).
  { unfold _format_start_time. rewrite !length_app. unfold lit at 1. simpl. lia. }
  destruct (_format_start_time t) as [|c r]; [simpl in Hlen; lia|].
  apply Forall_cons in H as [Hc _]. eauto.
Qed.

Lemma filename_single_part (E : Env) (a : Activity) (k : FileType) :
  slash ∉ type a ->
  (slash ∉ filename E a k) /\ filename E a k <> [] /\ filename E a k <> [dot]
  /\ filename E a k <> [slash].
Proof.
  intros Htype. rewrite filename_shape.
  destruct (_format_start_time_first (start_time_gmt a)) as (c & r & Hstart & Hc).
  split.
  - repeat (rewrite ?not_elem_of_app, ?not_elem_of_cons).
    repeat split; try assumption; try discriminate; try lacks_lit.
    + apply date_char_lacks; [reflexivity | apply _format_start_time_date_char].
    + apply date_char_lacks; [reflexivity | apply str_of_int_date_char].
    + rewrite _sanitize_filename_component_spec.
      apply trimmed_sanitized_name_lacks_slash.
    + apply suffix_lacks; auto.
  - rewrite Hstart. rewrite <- app_comm_cons.
    split; [discriminate|].
    split; intros [= _ H]; symmetry in H; exact (app_cons_not_nil _ _ _ H).
Qed.

(** For a type tag without path separator, the destination is the file
    [filename] in the directory of the kind under the download root. *)
Lemma canonical_path_parts (E : Env) (a : Activity) (k : FileType) :
  slash ∉ type a ->
  canonical_path E a k
  = download_directory (config E) ++ [FileType_value k; filename E a k].
Proof.
  intros Htype.
  destruct (filename_single_part E a k Htype) as (Hs & Hne & Hnd & _).
  unfold canonical_path, path_join.
  rewrite Path_of_str_FileType_value.
  replace (is_absolute_str (FileType_value k)) with false by (now destruct k).
  rewrite (Path_of_str_single _ Hs Hne Hnd).
  replace (is_absolute_str (filename E a k)) with false.
  - now rewrite <- app_assoc.
  - destruct (filename E a k) as [|c r]; [reflexivity|]. simpl.
    apply not_elem_of_cons in Hs as [Hc _].
    destruct (N.eqb_spec c slash) as [->|_]; [congruence | reflexivity].
Qed.

Lemma str_of_int_inj (z z' : Z) : str_of_int z = str_of_int z' -> z = z'.
Proof.
  intros H. apply (f_equal (int_of_str ascii_only_db)) in H.
  rewrite !int_of_str_str_of_int in H. now injection H.
Qed.

Lemma filename_inj_id (E : Env) (a a' : Activity) (k k' : FileType) :
  filename E a k = filename E a' k' -> id a = id a'.
Proof.
  intros H. apply (f_equal (split_on (chr "_"))) in H.
  rewrite !filename_shape in H.
  assert (Hd : forall t, chr "_" ∉ _format_start_time t).
  { intros t. apply date_char_lacks; [reflexivity | apply _format_start_time_date_char]. }
  assert (Hi : forall z, chr "_" ∉ str_of_int z).
  { intros z. apply date_char_lacks; [reflexivity | apply str_of_int_date_char]. }
  rewrite !(split_on_app _ (_format_start_time _)) in H by apply Hd.
  rewrite !(split_on_app _ ACTIVITY_MARKER) in H by lacks_lit.
  rewrite !(split_on_app _ (str_of_int _)) in H by apply Hi.
  injection H as _ H _. now apply str_of_int_inj.
Qed.

(** Two destinations coincide only for the same kind and the same activity
    id: downloads of different activities or kinds never overwrite each
    other. *)
Theorem canonical_path_injective (E : Env) (a a' : Activity) (k k' : FileType) :
  slash ∉ type a -> slash ∉ type a' ->
  canonical_path E a k = canonical_path E a' k' ->
  k = k' /\ id a = id a'.
Proof.
  intros Ha Ha' H.
  rewrite (canonical_path_parts E a k Ha), (canonical_path_parts E a' k' Ha') in H.
  apply app_inv_head in H. injection H as Hk Hf.
  split; [now apply FileType_value_inj | now apply (filename_inj_id E a a' k k')].
Qed.

Lemma canonical_path_injective_witness :
  canonical_path demo_env morning_run GPX <> canonical_path demo_env indoor_run TCX.
Proof.
  intros H.
  apply (canonical_path_injective demo_env morning_run indoor_run GPX TCX) in H.
  - destruct H as [H _]. discriminate H.
  - lacks_lit.
  - lacks_lit.
Defined.

(** ** Observing the files the exporter wrote *)

Lemma create_from_file_path_by_name (U : UnicodeDB) (p q : Path) (k : FileType) :
  path_name p = path_name q ->
  create_from_file_path U p k = create_from_file_path U q k.
Proof.
  intros H. unfold create_from_file_path, path_suffix. now rewrite H.
Qed.

Lemma path_name_snoc (p : Path) (s : str) :
  slash ∉ s -> path_name (p ++ [s]) = s.
Proof.
  intros Hs. unfold path_name. rewrite rev_app_distr. simpl.
  now rewrite is_root_false.
Qed.

Lemma path_parent_snoc (p : Path) (s : str) :
  slash ∉ s -> path_parent (p ++ [s]) = p.
Proof.
  intros Hs. unfold path_parent. rewrite rev_app_distr. simpl.
  rewrite is_root_false by assumption. apply rev_involutive.
Qed.

Lemma path_suffix_of_filename (E : Env) (a : Activity) (k : FileType) (p : Path) :
  path_name p = filename E a k -> path_suffix p = dot :: suffix k.
Proof.
  intros Hp. unfold path_suffix. rewrite Hp, filename_shape, encoded_shape_suffix.
  rewrite rsplit_char_app by (apply suffix_lacks; auto).
  rewrite (bool_decide_false (suffix k = [])) by apply suffix_nonempty.
  rewrite bool_decide_false; [reflexivity|].
  intros H; symmetry in H; exact (app_cons_not_nil _ _ _ H).
Qed.

Lemma should_ignore_file_canonical (E : Env) (a : Activity) (k : FileType) (p : Path) :
  path_name p = filename E a k -> should_ignore_file E p = false.
Proof.
  intros Hp. unfold should_ignore_file.
  rewrite (path_suffix_of_filename E a k p Hp), Hp.
  rewrite bool_decide_false.
  - destruct k; vm_compute; reflexivity.
  - rewrite filename_shape.
    destruct (_format_start_time_first (start_time_gmt a)) as (c & r & -> & Hc).
    rewrite <- app_comm_cons.
    rewrite !elem_of_cons, elem_of_nil.
    intros [H|[H|[H|[H|[]]]]]; injection H as -> _; vm_compute in Hc; discriminate Hc.
Qed.

Lemma create_from_file_path_canonical (E : Env) (a : Activity) (k : FileType) (p : Path) :
  slash ∉ type a ->
  path_name p = filename E a k ->
  create_from_file_path (unicode E) p k = Ok (record_for a k).
Proof.
  intros Htype Hp.
  destruct (filename_single_part E a k Htype) as (Hs & Hne & Hnd & Hns).
  rewrite (create_from_file_path_by_name _ p (Path_of_str (filename E a k))).
  - now apply create_from_encoded.
  - rewrite (Path_of_str_single _ Hs Hne Hnd), Hp.
    unfold path_name. simpl. now rewrite is_root_false.
Qed.

(** The on-disk layout is the persistent state: observing, with
    [add_preexisting_file], the destination of a kind of an activity (its
    type tag without path separator) adds exactly that kind to the record
    of that activity, creating the record when there is none; no other
    record and no file is touched. *)
Theorem restart_recovery (E : Env) (a : Activity) (k : FileType) (w : World) :
  slash ∉ type a ->
  let w' := snd (add_preexisting_file E (canonical_path E a k) w) in
  fst (add_preexisting_file E (canonical_path E a k) w) = Ok tt
  /\ tracked w' (id a)
  /\ materialized w' (id a) = {[ k ]} ∪ materialized w (id a)
  /\ (forall j, j <> id a ->
        downloaded_activities w' !! j = downloaded_activities w !! j)
  /\ files w' = files w.
Proof.
  intros Htype.
  destruct (filename_single_part E a k Htype) as (Hs & Hne & Hnd & Hns).
  assert (Hv : slash ∉ FileType_value k) by (destruct k; lacks_lit).
  assert (Hname : path_name (canonical_path E a k) = filename E a k).
  { rewrite (canonical_path_parts E a k Htype).
    change [FileType_value k; filename E a k]
      with ([FileType_value k] ++ [filename E a k]).
    rewrite app_assoc. now apply path_name_snoc. }
  assert (Hdir : path_name (path_parent (canonical_path E a k)) = FileType_value k).
  { rewrite (canonical_path_parts E a k Htype).
    change [FileType_value k; filename E a k]
      with ([FileType_value k] ++ [filename E a k]).
    rewrite app_assoc, path_parent_snoc by assumption. now apply path_name_snoc. }
  unfold add_preexisting_file.
  rewrite (should_ignore_file_canonical E a k _ Hname), Hdir.
  replace (FileType_of_value (FileType_value k)) with (Some k) by (now destruct k).
  rewrite (create_from_file_path_canonical E a k _ Htype Hname).
  unfold mbind, M_bind, bind, lift, get_world, modify, tracked, materialized.
  cbn [record_for activity_id download_file_types].
  destruct (downloaded_activities w !! id a) as [existing|] eqn:Hl; simpl;
    rewrite lookup_insert_eq; simpl.
  - repeat split; eauto. intros j Hj. now apply lookup_insert_ne.
  - repeat split; eauto.
    + now rewrite union_empty_r_L.
    + intros j Hj. now apply lookup_insert_ne.
Qed.

Lemma restart_recovery_witness :
  materialized
    (snd (add_preexisting_file demo_env (canonical_path demo_env morning_run TCX)
            (snd (add_preexisting_file demo_env
                    (canonical_path demo_env morning_run ACTIVITY_JSON)
                    (initial_world ∅)))))
    (id morning_run)
  = {[ TCX; ACTIVITY_JSON ]}.
Proof.
  assert (Htype : slash ∉ type morning_run) by lacks_lit.
  destruct (restart_recovery demo_env morning_run ACTIVITY_JSON (initial_world ∅) Htype)
    as (_ & _ & H1 & _).
  destruct (restart_recovery demo_env morning_run TCX
              (snd (add_preexisting_file demo_env
                      (canonical_path demo_env morning_run ACTIVITY_JSON)
                      (initial_world ∅))) Htype)
    as (_ & _ & H2 & _).
  rewrite H2, H1. unfold materialized. simpl. rewrite lookup_empty.
  now rewrite union_empty_r_L.
Defined.

Lemma create_from_file_path_kinds (U : UnicodeDB) (p : Path) (k : FileType)
    (record : ActivityFileManager) :
  create_from_file_path U p k = Ok record ->
  record = {| activity_id := activity_id record; download_file_types := {[ k ]} |}.
Proof.
  unfold create_from_file_path. intros H.
  repeat (case_match; try discriminate). now injection H as <-.
Qed.

Lemma add_preexisting_file_observed (E : Env) (p : Path) (w : World) :
  add_preexisting_file E p w
  = (match observed E p with
     | Ok _ => Ok tt
     | Raise e => Raise e
     end, after_observing E p w).
Proof.
  unfold add_preexisting_file, after_observing, observed.
  destruct (should_ignore_file E p); [reflexivity|].
  destruct (FileType_of_value _) as [k|]; [|reflexivity].
  unfold mbind, M_bind, bind, lift, get_world, modify.
  destruct (create_from_file_path (unicode E) p k) as [record|e] eqn:Hc; [|reflexivity].
  rewrite (create_from_file_path_kinds _ _ _ _ Hc). simpl.
  unfold observe_into.
  destruct (downloaded_activities w !! activity_id record); reflexivity.
Qed.

Lemma observe_into_commute (i j : ActivityId) (k l : FileType)
    (m : gmap ActivityId ActivityFileManager) :
  observe_into i k (observe_into j l m) = observe_into j l (observe_into i k m).
Proof.
  unfold observe_into. destruct (decide (i = j)) as [->|Hij].
  - rewrite !lookup_insert_eq, !insert_insert_eq.
    destruct (m !! j) as [existing|]; simpl; f_equal; f_equal.
    + rewrite !assoc_L by apply _. f_equal. apply union_comm_L.
    + apply union_comm_L.
  - rewrite !(lookup_insert_ne _ j i), !(lookup_insert_ne _ i j) by congruence.
    now apply insert_insert_ne.
Qed.

Lemma after_observing_commute (E : Env) (p q : Path) (w : World) :
  after_observing E p (after_observing E q w)
  = after_observing E q (after_observing E p w).
Proof.
  unfold after_observing.
  destruct (observed E p) as [[[i k]|]|]; destruct (observed E q) as [[[j l]|]|];
    try reflexivity.
  unfold set_downloaded_activities. simpl. f_equal. apply observe_into_commute.
Qed.

(** Observing one file and then another leaves the same state as observing
    them the other way round, whether or not either raises. *)
Theorem add_preexisting_file_commutes (E : Env) (p q : Path) (w : World) :
  snd (add_preexisting_file E q (snd (add_preexisting_file E p w)))
  = snd (add_preexisting_file E p (snd (add_preexisting_file E q w))).
Proof.
  rewrite !add_preexisting_file_observed. simpl. apply after_observing_commute.
Qed.

Lemma _precompute_Ok (E : Env) (listing : list Path) :
  Forall (fun p => exists o, observed E p = Ok o) listing ->
  forall w,
    _precompute_downloaded_activities E listing w
    = (Ok tt, fold_left (fun w p => after_observing E p w) listing w).
Proof.
  unfold _precompute_downloaded_activities.
  induction 1 as [|p l [o Hp] Hl IH]; intros w; simpl; [reflexivity|].
  unfold mbind, M_bind, bind. rewrite add_preexisting_file_observed, Hp.
  apply IH.
Qed.

Lemma fold_after_observing_perm (E : Env) (l l' : list Path) :
  Permutation l l' ->
  forall w,
    fold_left (fun w p => after_observing E p w) l w
    = fold_left (fun w p => after_observing E p w) l' w.
Proof.
  induction 1 as [|p l l' _ IH|p q l|l l1 l2 _ IH1 _ IH2]; intros w; simpl.
  - reflexivity.
  - apply IH.
  - now rewrite after_observing_commute.
  - now rewrite IH1.
Qed.

(** The reconciliation at start-up does not depend on the order in which
    the file system lists the files: when every listed file is ignored or
    decodes, the scan ends normally and two listings of the same files
    build the same ledger. *)
Theorem precompute_order_independent (E : Env) (listing listing' : list Path) (w : World) :
  Permutation listing listing' ->
  Forall (fun p => exists o, observed E p = Ok o) listing ->
  _precompute_downloaded_activities E listing w
  = _precompute_downloaded_activities E listing' w
  /\ fst (_precompute_downloaded_activities E listing w) = Ok tt.
Proof.
  intros Hperm Hall.
  assert (Hall' : Forall (fun p => exists o, observed E p = Ok o) listing').
  { rewrite Forall_forall in *. intros p Hp. apply Hall. now rewrite Hperm. }
  rewrite (_precompute_Ok E listing Hall), (_precompute_Ok E listing' Hall').
  split; [|reflexivity]. f_equal. now apply fold_after_observing_perm.
Qed.

Lemma precompute_order_independent_witness :
  _precompute_downloaded_activities demo_env
    [canonical_path demo_env morning_run GPX;
     Path_of_str (lit "/app/garmin_downloads/unknown/.DS_Store");
     canonical_path demo_env morning_run ACTIVITY_JSON] (initial_world ∅)
  = _precompute_downloaded_activities demo_env
      [Path_of_str (lit "/app/garmin_downloads/unknown/.DS_Store");
       canonical_path demo_env morning_run ACTIVITY_JSON;
       canonical_path demo_env morning_run GPX] (initial_world ∅).
Proof.
  apply precompute_order_independent.
  - apply Permutation_cons_append.
  - repeat constructor; eexists; vm_compute; reflexivity.
Defined.

(** ** [record_and_retrieve_download_path] *)

Lemma after_age_check_ledger (E : Env) (w : World) :
  downloaded_activities (after_age_check E w) = downloaded_activities w
  /\ files (after_age_check E w) = files w.
Proof. unfold after_age_check. destruct (minimum_activity_age _); auto. Qed.

(** The three ways a decision ends: a skip or an error, which leave the
    ledger and the files as they were, or a reservation, which records the
    kind and gives its destination. *)
Lemma decide_outcomes (E : Env) (a : Activity) (k : FileType) (w : World) :
  ledger_inv w ->
  let r := record_and_retrieve_download_path E a k w in
  ((fst r = Ok None \/ exists e, fst r = Raise e)
   /\ downloaded_activities (snd r) = downloaded_activities w
   /\ files (snd r) = files w)
  \/ (already_downloaded w a k = false
      /\ r = (Ok (Some (canonical_path E a k)),
              recorded (id a) k (after_age_check E w))).
Proof.
  intros Hw. unfold record_and_retrieve_download_path, after_age_check. cbv zeta.
  set (tail := _record_download_path (id a) k ≫= _).
  assert (Htail : forall w', ledger_inv w' ->
            tail w' = (Ok (Some (canonical_path E a k)), recorded (id a) k w')).
  { intros w' Hw'. subst tail. apply (record_then_retrieve E a k w' Hw'). }
  unfold mbind, M_bind, bind, get_world, lift, mret, M_ret, ret, datetime_now_utc.
  repeat case_match; simplify_eq; simpl;
    try (left; split; [first [now left | right; eauto] | split; reflexivity]).
  all: right; split; [first [reflexivity | assumption]|]; apply Htail;
    try apply ledger_inv_set_clock_reads; assumption.
Qed.

Lemma materialized_recorded (i : ActivityId) (k : FileType) (w : World) (j : ActivityId) :
  ledger_inv w ->
  materialized (recorded i k w) j
  = if decide (j = i) then {[ k ]} ∪ materialized w i else materialized w j.
Proof.
  intros Hw. destruct (decide (j = i)) as [->|Hj].
  - destruct (lookup_recorded i k w Hw) as (record & Hl & _ & Hk).
    unfold materialized at 1. now rewrite Hl.
  - unfold materialized, recorded, _record_download_path, modify. simpl.
    destruct (downloaded_activities w !! i) as [record|] eqn:Hl.
    + rewrite Hl. simpl. now rewrite lookup_insert_ne by congruence.
    + rewrite lookup_insert_eq. simpl.
      now rewrite !lookup_insert_ne by congruence.
Qed.

Lemma files_recorded (i : ActivityId) (k : FileType) (w : World) :
  files (recorded i k w) = files w.
Proof.
  unfold recorded, _record_download_path, modify. simpl.
  destruct (downloaded_activities w !! i) as [record|] eqn:Hl.
  - now rewrite Hl.
  - now rewrite lookup_insert_eq.
Qed.

Lemma record_and_retrieve_download_path_effect (E : Env) (a : Activity)
    (k : FileType) (w : World) :
  ledger_inv w ->
  let r := record_and_retrieve_download_path E a k w in
  files (snd r) = files w
  /\ (fst r = Ok None -> downloaded_activities (snd r) = downloaded_activities w)
  /\ (forall p, fst r = Ok (Some p) ->
        p = canonical_path E a k
        /\ (k ∉ materialized w (id a))
        /\ materialized (snd r) (id a) = {[ k ]} ∪ materialized w (id a)
        /\ forall j, j <> id a -> materialized (snd r) j = materialized w j).
Proof.
  intros Hw r. subst r.
  destruct (decide_outcomes E a k w Hw) as [([Hr|[e Hr]] & Hm & Hf) | (Hal & Hr)].
  - split; [exact Hf|]. split; [intros _; exact Hm|].
    intros p Hp. rewrite Hr in Hp. discriminate Hp.
  - split; [exact Hf|]. split; intros; rewrite Hr in *; discriminate.
  - rewrite Hr. simpl.
    assert (Hinv : ledger_inv (after_age_check E w)).
    { unfold after_age_check. destruct (minimum_activity_age _); exact Hw. }
    assert (Hmat : forall j, materialized (after_age_check E w) j = materialized w j).
    { intros j. unfold materialized.
      now rewrite (proj1 (after_age_check_ledger E w)). }
    split; [rewrite files_recorded; apply after_age_check_ledger|].
    split; [discriminate|]. intros p [= <-].
    split; [reflexivity|]. split.
    + unfold already_downloaded, materialized in *.
      destruct (downloaded_activities w !! id a); [|apply not_elem_of_empty].
      now apply bool_decide_eq_false in Hal.
    + split.
      * rewrite (materialized_recorded _ _ _ _ Hinv), Hmat.
        now destruct (decide (id a = id a)).
      * intros j Hj. rewrite (materialized_recorded _ _ _ _ Hinv), Hmat.
        now destruct (decide (j = id a)).
Qed.

(** What a decision does to the state: a skip leaves the ledger as it
    was; a reservation gives the canonical path of a kind that was not
    materialized, adds that kind to the activity and changes nothing else
    in the ledger; in no case is a file touched. *)
Theorem decide_effect (E : Env) (a : Activity) (k : FileType) (w : World) :
  ledger_inv w ->
  let r := record_and_retrieve_download_path E a k w in
  files (snd r) = files w
  /\ (fst r = Ok None -> downloaded_activities (snd r) = downloaded_activities w)
  /\ (forall p, fst r = Ok (Some p) ->
        p = canonical_path E a k
        /\ (k ∉ materialized w (id a))
        /\ materialized (snd r) (id a) = {[ k ]} ∪ materialized w (id a)
        /\ forall j, j <> id a -> materialized (snd r) j = materialized w j).
Proof. exact (record_and_retrieve_download_path_effect E a k w). Qed.

Lemma decide_effect_witness :
  materialized (snd (record_and_retrieve_download_path demo_env morning_run GPX
                       (initial_world ∅))) (id morning_run) = {[ GPX ]}.
Proof.
  assert (Hinv : ledger_inv (initial_world ∅))
    by (apply (bool_decide_unpack _); vm_compute; exact I).
  destruct (decide_effect demo_env morning_run GPX (initial_world ∅) Hinv)
    as (_ & _ & H).
  destruct (H (canonical_path demo_env morning_run GPX)) as (_ & _ & -> & _).
  - vm_compute. reflexivity.
  - unfold materialized. simpl. rewrite lookup_empty. now rewrite union_empty_r_L.
Defined.

(** Idempotence: right after a decision handed out a path, the same
    decision is a skip that changes nothing. *)
Theorem decide_idempotent (E : Env) (a : Activity) (k : FileType) (w w1 : World)
    (p : Path) :
  ledger_inv w ->
  record_and_retrieve_download_path E a k w = (Ok (Some p), w1) ->
  record_and_retrieve_download_path E a k w1 = (Ok None, w1).
Proof.
  intros Hw Hr.
  destruct (record_and_retrieve_download_path_effect E a k w Hw) as (_ & _ & H).
  rewrite Hr in H. simpl in H. destruct (H p eq_refl) as (_ & _ & Hmat & _).
  unfold record_and_retrieve_download_path.
  unfold mbind, M_bind, bind at 1. unfold get_world at 1. cbv beta iota zeta.
  replace (already_downloaded w1 a k) with true; [reflexivity|].
  unfold already_downloaded. unfold materialized at 1 in Hmat.
  destruct (downloaded_activities w1 !! id a) as [record|].
  - symmetry. apply bool_decide_eq_true. rewrite Hmat.
    apply elem_of_union_l. now apply elem_of_singleton.
  - exfalso. assert (Hk : k ∈ (∅ : gset FileType)).
    { rewrite Hmat. apply elem_of_union_l. now apply elem_of_singleton. }
    now apply elem_of_empty in Hk.
Qed.

Lemma decide_idempotent_witness :
  exists w1,
    record_and_retrieve_download_path demo_env morning_run GPX (initial_world ∅)
      = (Ok (Some (canonical_path demo_env morning_run GPX)), w1)
    /\ record_and_retrieve_download_path demo_env morning_run GPX w1 = (Ok None, w1).
Proof.
  assert (Hinv : ledger_inv (initial_world ∅))
    by (apply (bool_decide_unpack _); vm_compute; exact I).
  assert (Hpass : passes_other_filters demo_env (initial_world ∅) morning_run GPX)
    by (repeat split; try (intros ? [=]); apply not_elem_of_empty).
  pose proof (decide_passes demo_env morning_run GPX (initial_world ∅) Hinv Hpass) as Hr.
  simpl in Hr.
  eexists. split; [exact Hr|].
  exact (decide_idempotent demo_env morning_run GPX _ _ _ Hinv Hr).
Defined.

(** An activity excluded by id or by type, or a kind excluded by the
    configuration, is skipped and the state is left exactly as it was;
    the exclusions come before the date filters, so nothing can raise. *)
Theorem excluded_is_skipped (E : Env) (a : Activity) (k : FileType) (w : World) :
  id a ∈ excluded_activity_ids (file_manager_config (config E))
  \/ type a ∈ excluded_activity_types (file_manager_config (config E))
  \/ k ∈ excluded_file_types (file_manager_config (config E)) ->
  record_and_retrieve_download_path E a k w = (Ok None, w).
Proof.
  intros H. unfold record_and_retrieve_download_path.
  unfold mbind, M_bind, bind at 1. unfold get_world at 1. cbv beta iota zeta.
  destruct (already_downloaded w a k); [reflexivity|].
  destruct (decide (id a ∈ excluded_activity_ids (file_manager_config (config E))))
    as [Hi|Hi]; [now rewrite bool_decide_true|rewrite bool_decide_false by assumption].
  destruct (decide (type a ∈ excluded_activity_types (file_manager_config (config E))))
    as [Ht|Ht]; [now rewrite bool_decide_true|rewrite bool_decide_false by assumption].
  destruct H as [H|[H|H]]; [contradiction | contradiction |].
  now rewrite bool_decide_true.
Qed.

Lemma excluded_is_skipped_witness :
  record_and_retrieve_download_path three_activities_env (activity_numbered 7)
    ACTIVITY_JSON watermark_7_world = (Ok None, watermark_7_world).
Proof.
  apply excluded_is_skipped. left. apply (bool_decide_unpack _). vm_compute. exact I.
Defined.

Lemma datetime_lt_comparable (x y : datetime) :
  aware x = aware y -> exists b, datetime_lt x y = Ok b.
Proof.
  intros H. unfold datetime_lt. rewrite H.
  replace (eqb (aware y) (aware y)) with true by (now destruct (aware y)). eauto.
Qed.

Lemma datetime_sub_aware (d c : datetime) (delta : timedelta) :
  datetime_sub d delta = Ok c -> aware c = aware d.
Proof.
  unfold datetime_sub. destruct (_ && _); [|discriminate].
  destruct (ord2ymd _) as [[y m] dd]. now intros [= <-].
Qed.

(** A decision never raises when the configured bounds are comparable with
    the start time of the activity and the age cutoff can be computed: it
    returns a path or [None].  The error branches of the encoder are never
    taken. *)
Theorem decide_returns_when_comparable (E : Env) (a : Activity) (k : FileType)
    (w : World) :
  ledger_inv w -> comparable_dates E a ->
  exists r, fst (record_and_retrieve_download_path E a k w) = Ok r.
Proof.
  intros Hw (Hstart & Hend & Hage).
  destruct (fst (record_and_retrieve_download_path E a k w)) as [r|e] eqn:Hr; [eauto|].
  exfalso. revert Hr.
  unfold record_and_retrieve_download_path. cbv zeta.
  set (tail := _record_download_path (id a) k ≫= _).
  assert (Htail : forall w', ledger_inv w' -> fst (tail w') <> Raise e).
  { intros w' Hw'. subst tail. now rewrite (record_then_retrieve E a k w' Hw'). }
  unfold mbind, M_bind, bind, get_world, lift, mret, M_ret, ret, datetime_now_utc.
  repeat case_match; simplify_eq; simpl; try discriminate;
    try (apply Htail; try apply ledger_inv_set_clock_reads; assumption).
  all: intros _.
  all: match goal with
    | Hc : datetime_lt _ ?d = Raise _ |- _ =>
        destruct (datetime_lt_comparable (start_time_gmt a) d
                    (eq_sym (Hstart d eq_refl))) as [b Hb]; congruence
    | Hs : datetime_sub ?now ?age = Ok ?c, Hc : datetime_gt _ ?c = Raise _ |- _ =>
        pose proof (datetime_sub_aware _ _ _ Hs) as Haw;
        destruct (datetime_lt_comparable c (start_time_gmt a)) as [b Hb];
        [rewrite Haw, (proj1 (Hage age eq_refl)); reflexivity
        |unfold datetime_gt in Hc; congruence]
    | Hc : datetime_sub (as_utc (clock _ ?n)) ?age = Raise _ |- _ =>
        destruct (proj2 (Hage age eq_refl) n) as [c Hcut]; congruence
    | Hc : datetime_gt _ ?d = Raise _ |- _ =>
        destruct (datetime_lt_comparable d (start_time_gmt a) (Hend d eq_refl))
          as [b Hb];
        unfold datetime_gt in Hc; congruence
    end.
Qed.

Lemma decide_returns_when_comparable_witness :
  exists r,
    fst (record_and_retrieve_download_path aware_bounds_env morning_run GPX
           (initial_world ∅)) = Ok r.
Proof.
  apply decide_returns_when_comparable.
  - apply (bool_decide_unpack _). vm_compute. exact I.
  - unfold comparable_dates. simpl. split; [|split].
    + intros d [= <-]. reflexivity.
    + intros d [= <-]. reflexivity.
    + intros age [= <-]. split; [reflexivity|].
      intros n. eexists. vm_compute. reflexivity.
Defined.

(** ** [check_for_activity_changes], the other cases *)

Lemma change_detection_decodable_witness :
  fst (check_for_activity_changes demo_env morning_run edited_world) = Ok tt
  /\ materialized (snd (check_for_activity_changes demo_env morning_run edited_world))
       (id morning_run) = ∅
  /\ files (snd (check_for_activity_changes demo_env morning_run edited_world))
       !! canonical_path demo_env morning_run ACTIVITY_JSON = None.
Proof.
  assert (Hjson : ACTIVITY_JSON ∈ materialized edited_world (id morning_run))
    by (apply (bool_decide_unpack _); vm_compute; exact I).
  destruct (change_detection_decodable demo_env morning_run edited_world [x7b; x7d])
    as (Hr & Hm & Hgone & _).
  - apply (bool_decide_unpack _). vm_compute. exact I.
  - exact Hjson.
  - vm_compute. reflexivity.
  - vm_compute. discriminate.
  - reflexivity.
  - split; [exact Hr|]. split; [exact Hm | exact (Hgone _ Hjson)].
Defined.

Lemma change_detection_noop_witness :
  check_for_activity_changes demo_env morning_run demo_world = (Ok tt, demo_world).
Proof.
  apply change_detection_noop.
  - apply (bool_decide_unpack _). vm_compute. exact I.
  - right. vm_compute. reflexivity.
Defined.

(** Change detection when the metadata kind is recorded and no file is
    found at the path computed from the current payload: the call returns,
    the recorded kinds of the activity are cleared, no file is left at the
    paths computed from the current payload for the kinds that were
    recorded, and every other file stays.  No file is found when it was
    removed, and also when the activity was renamed (or its type or start
    time changed) since the download: the files stored under the earlier
    name are then among those that stay. *)
Theorem missing_metadata_is_redownloaded (E : Env) (a : Activity) (w : World) :
  ledger_inv w ->
  ACTIVITY_JSON ∈ materialized w (id a) ->
  files w !! canonical_path E a ACTIVITY_JSON = None ->
  let w' := snd (check_for_activity_changes E a w) in
  fst (check_for_activity_changes E a w) = Ok tt
  /\ materialized w' (id a) = ∅
  /\ (forall k, k ∈ materialized w (id a) -> files w' !! canonical_path E a k = None)
  /\ (forall p, (forall k, k ∈ materialized w (id a) -> p <> canonical_path E a k) ->
        files w' !! p = files w !! p).
Proof.
  intros Hw Hjson Hfile.
  pose proof (proj2 (check_for_activity_changes_cases E a w Hw) Hjson) as Hc.
  rewrite Hfile in Hc. rewrite Hc.
  unfold materialized in *.
  destruct (downloaded_activities w !! id a) as [record|] eqn:Hl;
    [|now apply elem_of_empty in Hjson].
  rewrite (mark_activity_as_redownloadable_tracked E a w record Hw Hl).
  simpl. rewrite lookup_insert_eq. simpl.
  split; [reflexivity|]. split; [reflexivity|]. split.
  - intros k Hk. apply unlink_kinds_deleted. now apply elem_of_elements.
  - intros p Hp. apply unlink_kinds_other. intros k Hk.
    apply Hp. now apply elem_of_elements in Hk.
Qed.

(** The renamed activity: every kind of [morning_run] is on disk and
    recorded; the check of the renamed payload clears the record, and the
    file stored under the earlier name is still there. *)
Lemma missing_metadata_is_redownloaded_witness :
  let w' := snd (check_for_activity_changes demo_env evening_run demo_world) in
  materialized w' (id evening_run) = ∅
  /\ files w' !! canonical_path demo_env evening_run GPX = None
  /\ files w' !! canonical_path demo_env morning_run GPX
     = files demo_world !! canonical_path demo_env morning_run GPX
  /\ is_Some (files demo_world !! canonical_path demo_env morning_run GPX).
Proof.
  intros w'. subst w'.
  assert (Hinv : ledger_inv demo_world)
    by (apply (bool_decide_unpack _); vm_compute; exact I).
  assert (Hjson : ACTIVITY_JSON ∈ materialized demo_world (id evening_run))
    by (apply (bool_decide_unpack _); vm_compute; exact I).
  assert (Hfile : files demo_world
                    !! canonical_path demo_env evening_run ACTIVITY_JSON = None)
    by (vm_compute; reflexivity).
  destruct (missing_metadata_is_redownloaded demo_env evening_run
              demo_world Hinv Hjson Hfile) as (_ & Hm & Hgone & Hkept).
  split; [exact Hm|]. split; [|split].
  - apply Hgone. apply (bool_decide_unpack _). vm_compute. exact I.
  - apply Hkept. intros k _.
    destruct k; apply (bool_decide_unpack _); vm_compute; exact I.
  - apply (bool_decide_unpack _). vm_compute. exact I.
Defined.

(** ** [Activity.dump]: the order of the fields does not matter *)

Lemma lex_compare_opp (a : str) : forall b, lex_compare b a = CompOpp (lex_compare a b).
Proof.
  induction a as [|x a IH]; intros [|y b]; simpl; try reflexivity.
  rewrite (N.compare_antisym x y). destruct (x ?= y)%N; simpl; auto.
Qed.

Lemma lex_compare_eq (a : str) : forall b, lex_compare a b = Eq -> a = b.
Proof.
  induction a as [|x a IH]; intros [|y b]; simpl; try discriminate; [reflexivity|].
  destruct (N.compare_spec x y) as [->|_|_]; try discriminate.
  intros H. f_equal. now apply IH.
Qed.

Lemma str_le_total (a b : str) : str_le a b = false -> str_le b a = true.
Proof.
  unfold str_le. rewrite (lex_compare_opp a b).
  destruct (lex_compare a b); simpl; congruence.
Qed.

Lemma str_le_antisym (a b : str) : str_le a b = true -> str_le b a = true -> a = b.
Proof.
  unfold str_le. rewrite (lex_compare_opp a b).
  destruct (lex_compare a b) eqn:H; simpl; try discriminate.
  intros _ _. now apply lex_compare_eq.
Qed.

Lemma str_le_trans (a : str) :
  forall b c, str_le a b = true -> str_le b c = true -> str_le a c = true.
Proof.
  unfold str_le.
  induction a as [|x a IH]; intros [|y b] [|z c]; simpl; try congruence.
  destruct (N.compare_spec x y) as [->|Hxy|Hxy];
    destruct (N.compare_spec y z) as [Heq|Hyz|Hyz]; try subst; try congruence.
  all: rewrite ?N.compare_refl; try apply IH; intros _ _.
  all: try rewrite (proj2 (N.compare_lt_iff _ _) Hyz);
       try rewrite (proj2 (N.compare_lt_iff _ _) Hxy);
       try rewrite (proj2 (N.compare_lt_iff x z) ltac:(lia)); congruence.
Qed.

Section Sorting.
Context {V : Type}.
Implicit Types (x : str * V) (l : list (str * V)).

Lemma insert_item_perm x l : insert_item x l ≡ₚ x :: l.
Proof.
  induction l as [|y l IH]; simpl; [reflexivity|].
  destruct (str_le _ _); [reflexivity|].
  rewrite IH. apply Permutation_swap.
Qed.

Lemma sort_items_perm l : sort_items l ≡ₚ l.
Proof.
  unfold sort_items. induction l as [|x l IH]; simpl; [reflexivity|].
  now rewrite insert_item_perm, IH.
Qed.

Lemma insert_item_sorted x l :
  StronglySorted key_le l -> StronglySorted key_le (insert_item x l).
Proof.
  induction 1 as [|y l Hl IH Hy]; simpl.
  - repeat constructor.
  - destruct (str_le (fst x) (fst y)) eqn:Hxy.
    + constructor; [now constructor|]. constructor; [exact Hxy|].
      eapply Forall_impl; [exact Hy|]. intros z Hz.
      exact (str_le_trans _ _ _ Hxy Hz).
    + constructor; [exact IH|].
      apply insert_item_Forall; [|exact Hy]. now apply str_le_total.
Qed.

Lemma sort_items_sorted l : StronglySorted key_le (sort_items l).
Proof.
  unfold sort_items. induction l as [|x l IH]; simpl; [constructor|].
  now apply insert_item_sorted.
Qed.

Lemma distinct_keys x y l :
  NoDup (List.map fst l) -> x ∈ l -> y ∈ l -> fst x = fst y -> x = y.
Proof.
  induction l as [|z l IH]; simpl; intros Hnd Hx Hy Hk.
  - now apply elem_of_nil in Hx.
  - apply NoDup_cons in Hnd as [Hz Hnd].
    assert (Hin : forall u, u ∈ l -> fst u ∈ List.map fst l).
    { intros u Hu. apply list_elem_of_In, List.in_map, list_elem_of_In, Hu. }
    apply elem_of_cons in Hx as [->|Hx]; apply elem_of_cons in Hy as [->|Hy].
    + reflexivity.
    + exfalso. apply Hz. rewrite Hk. now apply Hin.
    + exfalso. apply Hz. rewrite <- Hk. now apply Hin.
    + now apply IH.
Qed.

(** Sorting by key forgets the order of items with distinct keys. *)
Lemma sort_items_permutation l l' :
  l ≡ₚ l' -> NoDup (List.map fst l) -> sort_items l = sort_items l'.
Proof.
  intros Hperm Hnd.
  apply (StronglySorted_unique_strong key_le);
    [|apply sort_items_sorted|apply sort_items_sorted
     |now rewrite !sort_items_perm].
  intros x y Hx Hy Hxy Hyx.
  apply (distinct_keys x y l Hnd).
  - now rewrite sort_items_perm in Hx.
  - rewrite sort_items_perm in Hy. now rewrite Hperm.
  - now apply str_le_antisym.
Qed.

End Sorting.

Lemma rendered_items_eq (level : nat) (items middle : list (str * json)) :
  Forall (fun kv => forall j' lvl, reordered (snd kv) j' ->
                      dumps_at lvl (snd kv) = dumps_at lvl j') items ->
  Forall2 (fun x y => fst x = fst y /\ reordered (snd x) (snd y)) items middle ->
  List.map (fun kv => (fst kv, dumps_at level (snd kv))) items
  = List.map (fun kv => (fst kv, dumps_at level (snd kv))) middle.
Proof.
  intros IH H. induction H as [|x y items middle [Hk Hr] _ IHF]; [reflexivity|].
  apply Forall_cons in IH as [Hx IH]. simpl.
  rewrite Hk, (Hx _ level Hr). f_equal. now apply IHF.
Qed.

Lemma dumps_at_reordered (j : json) :
  forall j' level, reordered j j' -> dumps_at level j = dumps_at level j'.
Proof.
  induction j as [| b | z | r | s | items IH | items IH] using json_induction;
    intros j' level Hr;
    inversion Hr as [ | l0 items' Hall | its middle items' Hnd HF HP ]; subst;
    try reflexivity.
  - (* lists *)
    assert (Hmap : forall lvl,
              List.map (dumps_at lvl) items = List.map (dumps_at lvl) items').
    { intros lvl. clear Hr. induction Hall as [|x y l l' Hxy _ IHF]; [reflexivity|].
      apply Forall_cons in IH as [Hx IH]. simpl.
      rewrite (Hx _ lvl Hxy). f_equal. now apply IHF. }
    destruct Hall as [|x y l l' _ _]; [reflexivity|].
    cbn [dumps_at]. now rewrite (Hmap (S level)).
  - (* objects *)
    pose proof (rendered_items_eq (S level) items middle IH HF) as Hmid.
    pose proof (Forall2_length _ _ _ HF) as Hlen.
    pose proof (Permutation_length HP) as Hlen'.
    assert (Hsort :
      sort_items (List.map (fun kv => (fst kv, dumps_at (S level) (snd kv))) items)
      = sort_items (List.map (fun kv => (fst kv, dumps_at (S level) (snd kv))) items')).
    { rewrite Hmid. apply sort_items_permutation.
      - now apply Permutation_map.
      - rewrite <- Hmid, List.map_map. simpl. assumption. }
    destruct items as [|kv items]; destruct items' as [|kv' items'];
      try reflexivity; try (simpl in *; lia).
    cbn [dumps_at]. now rewrite Hsort.
Qed.

(** The metadata bytes do not depend on the order of the fields of the
    payload, at any depth: a payload whose objects list the same fields in
    another order is serialized to the same bytes, so that change
    detection sees no change. *)
Theorem dump_ignores_field_order (a a' : Activity) :
  reordered (raw a) (raw a') -> dump a = dump a'.
Proof.
  intros H. unfold dump, json_dumps. now rewrite (dumps_at_reordered _ _ 0 H).
Qed.

Lemma dump_ignores_field_order_witness :
  reordered (raw morning_run) (raw morning_run_reordered)
  /\ dump morning_run = dump morning_run_reordered.
Proof.
  assert (H : reordered (raw morning_run) (raw morning_run_reordered)).
  { unfold morning_run, morning_run_reordered. cbn [raw].
    match goal with |- reordered (JDict ?items) _ =>
      apply (reordered_dict items items) end.
    - apply (bool_decide_unpack _). vm_compute. exact I.
    - repeat (constructor; [split; [reflexivity | apply reordered_same]|]).
      constructor.
    - apply Permutation_rev. }
  split; [exact H|]. exact (dump_ignores_field_order _ _ H).
Defined.

(** ** [_maybe_download_activity] and the body of the pass *)

Lemma decide_step (E : Env) (a : Activity) (k : FileType) (w : World) :
  ledger_inv w ->
  let r := record_and_retrieve_download_path E a k w in
  ledger_inv (snd r)
  /\ files (snd r) = files w
  /\ (((fst r = Ok None \/ exists e, fst r = Raise e)
       /\ downloaded_activities (snd r) = downloaded_activities w)
      \/ (fst r = Ok (Some (canonical_path E a k))
          /\ (k ∉ materialized w (id a))
          /\ materialized (snd r) (id a) = {[ k ]} ∪ materialized w (id a))).
Proof.
  intros Hw r. subst r.
  split; [now apply record_and_retrieve_download_path_inv|].
  destruct (decide_outcomes E a k w Hw) as [(Hr & Hm & Hf) | (Hal & Hr)].
  - split; [exact Hf|]. left. now split.
  - rewrite Hr. cbn [fst snd].
    assert (Hinv : ledger_inv (after_age_check E w)).
    { unfold after_age_check. destruct (minimum_activity_age _); exact Hw. }
    assert (Hmat : materialized (after_age_check E w) (id a) = materialized w (id a)).
    { unfold materialized. now rewrite (proj1 (after_age_check_ledger E w)). }
    split; [rewrite files_recorded; apply after_age_check_ledger|].
    right. split; [reflexivity|]. split.
    + unfold already_downloaded, materialized in *.
      destruct (downloaded_activities w !! id a); [|apply not_elem_of_empty].
      now apply bool_decide_eq_false in Hal.
    + rewrite (materialized_recorded _ _ _ _ Hinv), Hmat.
      now destruct (decide (id a = id a)).
Qed.

Lemma _write_gps_file_effect (E : Env) (a : Activity) (p : Path) (k : FileType)
    (w : World) :
  let r := _write_gps_file E a p k w in
  downloaded_activities (snd r) = downloaded_activities w
  /\ (files (snd r) = files w \/ exists data, files (snd r) = <[p := data]> (files w)).
Proof.
  unfold _write_gps_file, write_file. unfold_monad.
  destruct (download_activity E (id a) k) as [[|b data]|e]; simpl; eauto.
Qed.

Lemma ledger_inv_ext (w w' : World) :
  downloaded_activities w' = downloaded_activities w -> ledger_inv w -> ledger_inv w'.
Proof. unfold ledger_inv. now intros ->. Qed.

Lemma materialized_ext (w w' : World) (i : ActivityId) :
  downloaded_activities w' = downloaded_activities w ->
  materialized w' i = materialized w i.
Proof. unfold materialized. now intros ->. Qed.

Lemma canonical_path_kind (E : Env) (a : Activity) (k k' : FileType) :
  slash ∉ type a -> canonical_path E a k = canonical_path E a k' -> k = k'.
Proof.
  intros Ha H. rewrite !(canonical_path_parts E a _ Ha) in H.
  apply app_inv_head in H. injection H as Hk _. now apply FileType_value_inj.
Qed.

Lemma gps_downloads_spec (E : Env) (a : Activity) (ks : list FileType) :
  Forall (fun k => k <> ACTIVITY_JSON) ks ->
  forall (counts : nat * nat) (w w' : World) (d s : nat),
  ledger_inv w ->
  gps_downloads E a ks counts w = (Ok (d, s), w') ->
  ledger_inv w'
  /\ (d + s = fst counts + snd counts + List.length ks)%nat
  /\ materialized w (id a) ⊆ materialized w' (id a)
  /\ (size (materialized w' (id a)) + fst counts = size (materialized w (id a)) + d)%nat
  /\ (slash ∉ type a -> metadata_in_sync E a w -> metadata_in_sync E a w').
Proof.
  induction 1 as [|k ks Hk Hks IH]; intros counts w w' d s Hw; simpl.
  - unfold mret, M_ret, ret. intros [= -> <-]. simpl.
    split; [exact Hw|]. split; [lia|]. split; [reflexivity|]. split; [lia|]. auto.
  - unfold mbind, M_bind, bind.
    destruct (decide_step E a k w Hw) as (Hinv1 & Hf1 & Hcase).
    destruct (record_and_retrieve_download_path E a k w) as [[[p|]|e] w1];
      cbn [fst snd] in *; [| |intros [=]].
    + (* a download *)
      destruct Hcase as [[[[=]|[e [=]]] _] | ([= ->] & Hnew & Hmat)].
      destruct (_write_gps_file_effect E a (canonical_path E a k) k w1) as [Hd2 Hf2].
      destruct (_write_gps_file E a (canonical_path E a k) k w1) as [[[]|e] w2];
        cbn [fst snd] in *; [|intros [=]].
      intros Hrest.
      apply IH in Hrest as (Hinv' & Hcount & Hsub & Hsize & Hsync);
        [|exact (ledger_inv_ext _ _ Hd2 Hinv1)].
      rewrite (materialized_ext _ _ (id a) Hd2), Hmat in Hsub, Hsize.
      cbn [fst snd] in *.
      split; [exact Hinv'|]. split; [lia|]. split.
      { etransitivity; [|exact Hsub]. apply union_subseteq_r. }
      split.
      { rewrite size_union in Hsize by (now apply disjoint_singleton_l).
        rewrite size_singleton in Hsize. lia. }
      intros Ha Hs. apply (Hsync Ha). intros Hjson.
      rewrite (materialized_ext _ _ (id a) Hd2), Hmat in Hjson.
      apply elem_of_union in Hjson as [Hjson|Hjson];
        [apply elem_of_singleton in Hjson; congruence|].
      specialize (Hs Hjson). rewrite <- Hf1 in Hs.
      destruct Hf2 as [-> | [data ->]]; [exact Hs|].
      rewrite lookup_insert_ne; [exact Hs|].
      intros Heq. apply (canonical_path_kind E a _ _ Ha) in Heq. congruence.
    + (* a skip *)
      destruct Hcase as [[_ Hd1] | ([=] & _)].
      intros Hrest.
      apply IH in Hrest as (Hinv' & Hcount & Hsub & Hsize & Hsync); [|exact Hinv1].
      rewrite (materialized_ext _ _ (id a) Hd1) in Hsub, Hsize.
      cbn [fst snd] in *.
      split; [exact Hinv'|]. split; [lia|]. split; [exact Hsub|].
      split; [lia|].
      intros Ha Hs. apply (Hsync Ha). intros Hjson.
      rewrite (materialized_ext _ _ (id a) Hd1) in Hjson.
      rewrite Hf1. exact (Hs Hjson).
Qed.

Lemma gps_file_types_not_json : Forall (fun k => k <> ACTIVITY_JSON) gps_file_types.
Proof. repeat constructor; discriminate. Qed.

Lemma _maybe_download_activity_spec (E : Env) (a : Activity) (w w' : World) (d s : nat) :
  ledger_inv w ->
  _maybe_download_activity E a w = (Ok (d, s), w') ->
  ledger_inv w'
  /\ (d + s = 5)%nat
  /\ materialized w (id a) ⊆ materialized w' (id a)
  /\ size (materialized w' (id a)) = (size (materialized w (id a)) + d)%nat
  /\ (slash ∉ type a -> metadata_in_sync E a w -> metadata_in_sync E a w').
Proof.
  intros Hw. unfold _maybe_download_activity, _write_activity_json, write_file.
  unfold mbind, M_bind, bind, mret, M_ret, ret, modify.
  destruct (decide_step E a ACTIVITY_JSON w Hw) as (Hinv1 & Hf1 & Hcase).
  destruct (record_and_retrieve_download_path E a ACTIVITY_JSON w) as [[[p|]|e] w1];
    cbn [fst snd] in *; [| |intros [=]].
  - destruct Hcase as [[[[=]|[e [=]]] _] | ([= ->] & Hnew & Hmat)].
    intros Hrest.
    apply (gps_downloads_spec E a _ gps_file_types_not_json) in Hrest
      as (Hinv' & Hcount & Hsub & Hsize & Hsync); [|exact Hinv1].
    assert (Hm : materialized (set_files (<[canonical_path E a ACTIVITY_JSON := dump a]>
                                            (files w1)) w1) (id a)
                 = {[ ACTIVITY_JSON ]} ∪ materialized w (id a)) by exact Hmat.
    rewrite Hm in Hsub, Hsize. cbn [fst snd] in *.
    split; [exact Hinv'|]. split; [exact Hcount|]. split.
    { etransitivity; [|exact Hsub]. apply union_subseteq_r. }
    split.
    { rewrite size_union in Hsize by (now apply disjoint_singleton_l).
      rewrite size_singleton in Hsize. lia. }
    intros Ha _. apply (Hsync Ha). intros _. simpl. apply lookup_insert_eq.
  - destruct Hcase as [[_ Hd1] | ([=] & _)].
    intros Hrest.
    apply (gps_downloads_spec E a _ gps_file_types_not_json) in Hrest
      as (Hinv' & Hcount & Hsub & Hsize & Hsync); [|exact Hinv1].
    rewrite (materialized_ext _ _ (id a) Hd1) in Hsub, Hsize. cbn [fst snd] in *.
    split; [exact Hinv'|]. split; [exact Hcount|]. split; [exact Hsub|].
    split; [lia|].
    intros Ha Hs. apply (Hsync Ha). intros Hjson.
    rewrite (materialized_ext _ _ (id a) Hd1) in Hjson.
    rewrite Hf1. exact (Hs Hjson).
Qed.

(** The counts of one activity: every one of the five kinds is either
    downloaded or skipped, the downloaded count is the number of kinds
    the ledger gained for the activity, and no kind is lost. *)
Theorem maybe_download_counts (E : Env) (a : Activity) (w w' : World) (d s : nat) :
  ledger_inv w ->
  _maybe_download_activity E a w = (Ok (d, s), w') ->
  (d + s = 5)%nat
  /\ materialized w (id a) ⊆ materialized w' (id a)
  /\ size (materialized w' (id a)) = (size (materialized w (id a)) + d)%nat.
Proof.
  intros Hw Hrun.
  destruct (_maybe_download_activity_spec E a w w' d s Hw Hrun) as (_ & H1 & H2 & H3 & _).
  auto.
Qed.

Lemma check_establishes_sync (E : Env) (a : Activity) (w w1 : World) :
  ledger_inv w ->
  check_for_activity_changes E a w = (Ok tt, w1) ->
  ledger_inv w1 /\ metadata_in_sync E a w1.
Proof.
  intros Hw Hc. split.
  { pose proof (check_for_activity_changes_inv E a w Hw) as H. now rewrite Hc in H. }
  destruct (check_for_activity_changes_cases E a w Hw) as [Hno Hyes].
  destruct (decide (ACTIVITY_JSON ∈ materialized w (id a))) as [Hjson|Hnot].
  - specialize (Hyes Hjson).
    assert (Hmark : mark_activity_as_redownloadable E a w = (Ok tt, w1) ->
                    metadata_in_sync E a w1).
    { intros Hm Hin. exfalso.
      unfold materialized in Hjson.
      destruct (downloaded_activities w !! id a) as [record|] eqn:Hl;
        [|now apply elem_of_empty in Hjson].
      rewrite (mark_activity_as_redownloadable_tracked E a w record Hw Hl) in Hm.
      injection Hm as <-. unfold materialized in Hin. simpl in Hin.
      rewrite lookup_insert_eq in Hin. simpl in Hin. now apply elem_of_empty in Hin. }
    destruct (files w !! canonical_path E a ACTIVITY_JSON) as [data|] eqn:Hfile.
    + destruct (bool_decide (dump a = data)) eqn:Hsame.
      * rewrite Hc in Hyes. injection Hyes as ->.
        apply bool_decide_eq_true in Hsame. intros _. now rewrite Hfile, Hsame.
      * destruct (decodes_utf8 data).
        -- apply Hmark. congruence.
        -- rewrite Hc in Hyes. discriminate Hyes.
    + apply Hmark. congruence.
  - rewrite (Hno Hnot) in Hc. injection Hc as <-. intros Hin. contradiction.
Qed.

(** With change detection on, the state an activity is left in by the body
    of the pass is stable: checking the same payload again right away
    finds nothing changed and touches nothing.  (For a type tag without
    path separator.) *)
Theorem processed_activity_is_stable (E : Env) (a : Activity) (v v' : LoopVars)
    (d : nat) (w w' : World) :
  check_for_activity_changes_enabled (config E) = true ->
  ledger_inv w ->
  slash ∉ type a ->
  process_activity E a v w = (Ok (v', d), w') ->
  check_for_activity_changes E a w' = (Ok tt, w').
Proof.
  intros Hon Hw Ha. unfold process_activity. cbv zeta. rewrite Hon.
  unfold mbind, M_bind, bind, get_world, mret, M_ret, ret.
  destruct (check_for_activity_changes E a w) as [[[]|e] w1] eqn:Hc;
    cbv beta iota; [|intros [=]].
  destruct (_maybe_download_activity E a w1) as [[[d' s']|e] w2] eqn:Hd;
    cbv beta iota; [|intros [=]].
  intros Heq. assert (w' = w2) by (now inversion Heq). subst w'. clear Heq.
  destruct (check_establishes_sync E a w w1 Hw Hc) as [Hw1 Hs1].
  destruct (_maybe_download_activity_spec E a w1 w2 d' s' Hw1 Hd)
    as (Hw2 & _ & _ & _ & Hsync).
  specialize (Hsync Ha Hs1).
  destruct (check_for_activity_changes_cases E a w2 Hw2) as [Hno Hyes].
  destruct (decide (ACTIVITY_JSON ∈ materialized w2 (id a))) as [Hjson|Hnot];
    [|exact (Hno Hnot)].
  specialize (Hyes Hjson). rewrite (Hsync Hjson) in Hyes.
  now rewrite bool_decide_true in Hyes by reflexivity.
Qed.

Lemma maybe_download_counts_witness :
  size (materialized demo_world (id morning_run)) = 5%nat.
Proof.
  assert (Hinv : ledger_inv (initial_world ∅))
    by (apply (bool_decide_unpack _); vm_compute; exact I).
  assert (Hrun : _maybe_download_activity demo_env morning_run (initial_world ∅)
                 = (Ok (5, 0)%nat, demo_world)).
  { unfold demo_world.
    assert (Hf : fst (_maybe_download_activity demo_env morning_run (initial_world ∅))
                 = Ok (5, 0)%nat) by (vm_compute; reflexivity).
    rewrite <- Hf. apply surjective_pairing. }
  destruct (maybe_download_counts demo_env morning_run _ _ 5 0 Hinv Hrun)
    as (_ & _ & ->).
  unfold materialized. simpl. rewrite lookup_empty. now rewrite size_empty.
Defined.

Lemma processed_activity_is_stable_witness :
  let w' := snd (process_activity demo_env morning_run initial_vars (initial_world ∅)) in
  check_for_activity_changes demo_env morning_run w' = (Ok tt, w').
Proof.
  intros w'. subst w'.
  assert (Hinv : ledger_inv (initial_world ∅))
    by (apply (bool_decide_unpack _); vm_compute; exact I).
  destruct (process_activity demo_env morning_run initial_vars (initial_world ∅))
    as [[[v' d]|e] w'] eqn:Hrun.
  - apply (processed_activity_is_stable demo_env morning_run initial_vars v' d
             (initial_world ∅) w'); [reflexivity | exact Hinv | lacks_lit | exact Hrun].
  - apply (f_equal fst) in Hrun. vm_compute in Hrun. discriminate Hrun.
Defined.

(** ** The pass: pages, errors, full rescans *)

Lemma process_activity_frame (E : Env) (W : option ActivityId) (a : Activity)
    (v : LoopVars) :
  preserves (fun w => oldest_downloaded_activity_id w = W) (process_activity E a v).
Proof.
  unfold process_activity. cbv zeta.
  apply preserves_bind; [apply preserves_get_world|]. intros w0.
  apply preserves_bind.
  { destruct (check_for_activity_changes_enabled (config E));
      [apply check_for_activity_changes_frame | apply preserves_ret]. }
  intros _. apply preserves_bind; [apply _maybe_download_activity_frame|].
  intros ds. apply preserves_ret.
Qed.

Lemma process_activities_frame (E : Env) (W : option ActivityId)
    (activities : list Activity) :
  forall v, preserves (fun w => oldest_downloaded_activity_id w = W)
              (process_activities E activities v).
Proof.
  induction activities as [|a rest IH]; intros v; simpl.
  - apply preserves_ret.
  - apply preserves_bind; [apply process_activity_frame|]. intros vd.
    apply preserves_bind; [apply IH|]. intros vl. apply preserves_ret.
Qed.

(** The loop never writes the watermark, however it ends. *)
Lemma download_loop_frame (E : Env) (fuel : nat) :
  forall (start : Z) (v : LoopVars) (w w' : World) r,
  download_loop E fuel start v w = Some (r, w') ->
  oldest_downloaded_activity_id w' = oldest_downloaded_activity_id w.
Proof.
  induction fuel as [|fuel IH]; intros start v w w' r; simpl; [discriminate|].
  destruct (get_activities E start (batch_size (config E))) as [[|a acts]|e].
  - now intros [= _ <-].
  - pose proof (process_activities_frame E _ (a :: acts) (start_batch v) w eq_refl)
      as Hp.
    destruct (process_activities E (a :: acts) (start_batch v) w)
      as [[[v1 ds]|e] w1]; cbn [snd] in Hp.
    + destruct (_ && _); [now intros [= _ <-]|].
      destruct (download_loop E fuel (start + batch_size (config E)) v1 w1)
        as [[[[v2 rest]|e] w2]|] eqn:Hrec; [| |discriminate].
      * intros [= _ <-]. apply IH in Hrec. congruence.
      * intros [= _ <-]. apply IH in Hrec. congruence.
    + now intros [= _ <-].
  - now intros [= _ <-].
Qed.

(** A pass that ends with an exception leaves the watermark of the previous
    pass in place: the next pass stops at the same boundary. *)
Theorem failed_pass_keeps_watermark (E : Env) (fuel : nat) (w w' : World) (e : exn) :
  download_all_activities_iteration E fuel w = Some (Raise e, w') ->
  oldest_downloaded_activity_id w' = oldest_downloaded_activity_id w.
Proof.
  unfold download_all_activities_iteration.
  destruct (download_loop E fuel 0 initial_vars _)
    as [[[[v rest]|e'] w1]|] eqn:Hloop; [| |discriminate].
  - destruct (truthy _); discriminate.
  - intros [= _ <-]. now apply download_loop_frame in Hloop.
Qed.

Lemma failed_pass_keeps_watermark_witness :
  exists w',
    download_all_activities_iteration rate_limited_env 5 watermark_7_world
      = Some (Raise (UpstreamError 429), w')
    /\ oldest_downloaded_activity_id w' = Some 7.
Proof.
  eexists. split; [reflexivity|].
  exact (failed_pass_keeps_watermark rate_limited_env 5 watermark_7_world _ _ eq_refl).
Defined.

Lemma download_loop_pages (E : Env) (fuel : nat) :
  forall (start : Z) (v v' : LoopVars) (log : list BatchLog) (w w' : World),
  download_loop E fuel start v w = Some (Ok (v', log), w') ->
  forall (n : nat) (b : BatchLog), log !! n = Some b ->
    batch_start b = start + Z.of_nat n * batch_size (config E)
    /\ exists activities,
         get_activities E (batch_start b) (batch_size (config E)) = Ok activities
         /\ List.map id activities = List.map fst (processed b).
Proof.
  induction fuel as [|fuel IH]; intros start v v' log w w'; simpl; [discriminate|].
  destruct (get_activities E start (batch_size (config E))) as [[|a acts]|e] eqn:Hget;
    [| |discriminate].
  - intros [= <- <- <-] [|n] b; [|intros Hn; simpl in Hn; now rewrite lookup_nil in Hn].
    intros [= <-]. simpl. split; [lia|]. exists []. now rewrite Hget.
  - destruct (process_activities E (a :: acts) (start_batch v) w)
      as [[[v1 ds]|e] w1] eqn:Hp; [|discriminate].
    apply process_activities_spec in Hp as (_ & Hids & _ & _).
    assert (Hthis : forall b, b = {| batch_start := start; processed := ds |} ->
              batch_start b = start + Z.of_nat 0 * batch_size (config E)
              /\ exists activities,
                   get_activities E (batch_start b) (batch_size (config E))
                     = Ok activities
                   /\ List.map id activities = List.map fst (processed b)).
    { intros b ->. simpl. split; [lia|]. exists (a :: acts).
      split; [exact Hget | now rewrite Hids]. }
    destruct (_ && _).
    + intros [= <- <- <-] [|n] b; [|intros Hn; simpl in Hn; now rewrite lookup_nil in Hn].
      intros [= <-]. now apply Hthis.
    + destruct (download_loop E fuel (start + batch_size (config E)) v1 w1)
        as [[[[v2 rest]|e] w2]|] eqn:Hrec; [|discriminate|discriminate].
      intros [= <- <- <-] [|n] b.
      * intros [= <-]. now apply Hthis.
      * intros Hb. simpl in Hb.
        destruct (IH _ _ _ _ _ _ Hrec n b Hb) as [Hstart Hacts].
        split; [lia | exact Hacts].
Qed.

Lemma download_all_activities_iteration_pages (E : Env) (fuel : nat) (w w' : World)
    (log : list BatchLog) (n : nat) (b : BatchLog) :
  download_all_activities_iteration E fuel w = Some (Ok log, w') ->
  log !! n = Some b ->
  batch_start b = Z.of_nat n * batch_size (config E)
  /\ exists activities,
       get_activities E (batch_start b) (batch_size (config E)) = Ok activities
       /\ List.map id activities = List.map fst (processed b).
Proof.
  unfold download_all_activities_iteration.
  destruct (download_loop E fuel 0 initial_vars _)
    as [[[[v rest]|e] w1]|] eqn:Hloop; [|discriminate|discriminate].
  intros Hrun Hb.
  assert (log = rest) by (destruct (truthy _); now inversion Hrun). subst rest.
  exact (download_loop_pages E fuel 0 _ _ _ _ _ Hloop n b Hb).
Qed.

(** The pages of a pass that ends normally: page [n] is fetched at the
    offset [n * batch_size], and every activity the feed returned for it
    is processed, in the order of the feed; no offset is skipped. *)
Theorem pass_pages (E : Env) (fuel : nat) (w w' : World) (log : list BatchLog)
    (n : nat) (b : BatchLog) :
  download_all_activities_iteration E fuel w = Some (Ok log, w') ->
  log !! n = Some b ->
  batch_start b = Z.of_nat n * batch_size (config E)
  /\ exists activities,
       get_activities E (batch_start b) (batch_size (config E)) = Ok activities
       /\ List.map id activities = List.map fst (processed b).
Proof. exact (download_all_activities_iteration_pages E fuel w w' log n b). Qed.

Lemma pass_pages_witness :
  exists log w' b,
    download_all_activities_iteration three_activities_env 5 (initial_world ∅)
      = Some (Ok log, w')
    /\ log !! 1%nat = Some b
    /\ batch_start b = 2
    /\ List.map fst (processed b) = [3].
Proof.
  destruct (download_all_activities_iteration three_activities_env 5 (initial_world ∅))
    as [[[log|e] w']|] eqn:Hrun.
  2,3: exfalso; apply (f_equal (fun r => match r with
                                         | Some (Ok _, _) => true
                                         | _ => false
                                         end)) in Hrun;
       vm_compute in Hrun; discriminate Hrun.
  assert (Hlog : log !! 1%nat = Some {| batch_start := 2; processed := [(3, 5%nat)] |}).
  { apply (f_equal (fun r => match r with
                             | Some (Ok l, _) => l !! 1%nat
                             | _ => None
                             end)) in Hrun.
    vm_compute in Hrun. now symmetry. }
  exists log, w', {| batch_start := 2; processed := [(3, 5%nat)] |}.
  split; [reflexivity|]. split; [exact Hlog|].
  destruct (pass_pages three_activities_env 5 (initial_world ∅) w' log 1 _ Hrun Hlog)
    as (Hstart & activities & Hget & Hids).
  split; [exact Hstart|]. rewrite <- Hids.
  simpl in Hget. injection Hget as <-. reflexivity.
Defined.

Lemma pass_log_always (W : option ActivityId) (bs start : Z) (log : list BatchLog) :
  pass_log W true bs start log ->
  exists pre last_start,
    log = pre ++ [{| batch_start := last_start; processed := [] |}].
Proof.
  induction 1 as [start|start tr Hne Hflag Hal|start tr rest Hne Hgo Hrest IH].
  - now exists [], start.
  - discriminate Hal.
  - destruct IH as (pre & s & ->).
    now exists ({| batch_start := start; processed := tr |} :: pre), s.
Qed.

(** With [ALWAYS_RECHECK_ALL_ACTIVITIES] on, a pass ends normally only
    when the feed is exhausted: the last page it fetched is empty, and the
    feed did answer with no activity at that offset. *)
Theorem full_rescan_reaches_the_end (E : Env) (fuel : nat) (w w' : World)
    (log : list BatchLog) :
  always_recheck_all_activities (config E) = true ->
  download_all_activities_iteration E fuel w = Some (Ok log, w') ->
  exists pre last_start,
    log = pre ++ [{| batch_start := last_start; processed := [] |}]
    /\ last_start = Z.of_nat (List.length pre) * batch_size (config E)
    /\ get_activities E last_start (batch_size (config E)) = Ok [].
Proof.
  intros Halways Hrun.
  destruct (download_all_activities_iteration_spec E fuel w w' log Hrun) as [Hlog _].
  rewrite Halways in Hlog.
  destruct (pass_log_always _ _ _ _ Hlog) as (pre & s & Heq).
  exists pre, s. split; [exact Heq|].
  assert (Hb : log !! List.length pre = Some {| batch_start := s; processed := [] |}).
  { rewrite Heq. rewrite lookup_app_r by reflexivity.
    now rewrite Nat.sub_diag. }
  destruct (download_all_activities_iteration_pages E fuel w w' log _ _ Hrun Hb)
    as (Hstart & activities & Hget & Hids).
  simpl in *. split; [exact Hstart|].
  destruct activities; [exact Hget | discriminate Hids].
Qed.

Lemma download_all_activities_iteration_terminates_witness :
  download_all_activities_iteration demo_env 2 (initial_world ∅) <> None.
Proof.
  apply (download_all_activities_iteration_terminates demo_env 1 2).
  - reflexivity.
  - lia.
Defined.

Lemma full_rescan_reaches_the_end_witness :
  exists log w' pre,
    download_all_activities_iteration full_rescan_env 5 after_first_pass
      = Some (Ok log, w')
    /\ log = pre ++ [{| batch_start := 4; processed := [] |}].
Proof.
  destruct (download_all_activities_iteration full_rescan_env 5 after_first_pass)
    as [[[log|e] w']|] eqn:Hrun.
  2,3: exfalso; apply (f_equal (fun r => match r with
                                         | Some (Ok _, _) => true
                                         | _ => false
                                         end)) in Hrun;
       vm_compute in Hrun; discriminate Hrun.
  assert (Hlen : List.length log = 3%nat).
  { apply (f_equal (fun r => match r with
                             | Some (Ok l, _) => List.length l
                             | _ => 0%nat
                             end)) in Hrun.
    vm_compute in Hrun. now symmetry. }
  destruct (full_rescan_reaches_the_end full_rescan_env 5 after_first_pass w' log
              eq_refl Hrun) as (pre & s & Heq & Hs & _).
  exists log, w', pre. split; [reflexivity|]. rewrite Heq. do 3 f_equal.
  rewrite Heq, length_app in Hlen. simpl in Hlen.
  rewrite Hs. replace (List.length pre) with 2%nat by lia. reflexivity.
Defined.

(** ** Without change detection nothing is ever removed *)

Lemma nothing_lost_refl (w : World) : nothing_lost w w.
Proof. split; reflexivity. Qed.

Lemma nothing_lost_trans (w1 w2 w3 : World) :
  nothing_lost w1 w2 -> nothing_lost w2 w3 -> nothing_lost w1 w3.
Proof.
  intros [Hm1 Hf1] [Hm2 Hf2]. split.
  - intros j. etransitivity; [apply Hm1 | apply Hm2].
  - etransitivity; eassumption.
Qed.

Lemma nothing_lost_ext (w w' : World) :
  downloaded_activities w' = downloaded_activities w -> files w' = files w ->
  nothing_lost w w'.
Proof.
  intros Hd Hf. split.
  - intros j. now rewrite (materialized_ext _ _ j Hd).
  - now rewrite Hf.
Qed.

Lemma keeps_everything_ret {A} (x : A) : keeps_everything (mret x : M A).
Proof. intros w Hw. split; [exact Hw | apply nothing_lost_refl]. Qed.

Lemma keeps_everything_bind {A B} (m : M A) (k : A -> M B) :
  keeps_everything m -> (forall x, keeps_everything (k x)) ->
  keeps_everything (m ≫= k).
Proof.
  intros Hm Hk w Hw. unfold mbind, M_bind, bind.
  destruct (Hm w Hw) as [Hinv Hlost].
  destruct (m w) as [[x|e] w1]; cbn [snd] in *; [|now split].
  destruct (Hk x w1 Hinv) as [Hinv' Hlost'].
  split; [exact Hinv' | exact (nothing_lost_trans _ _ _ Hlost Hlost')].
Qed.

Lemma record_and_retrieve_download_path_keeps (E : Env) (a : Activity) (k : FileType) :
  keeps_everything (record_and_retrieve_download_path E a k).
Proof.
  intros w Hw.
  split; [now apply record_and_retrieve_download_path_inv|].
  destruct (decide_outcomes E a k w Hw) as [(_ & Hm & Hf) | (_ & ->)].
  - now apply nothing_lost_ext.
  - cbn [snd].
    assert (Hinv : ledger_inv (after_age_check E w)).
    { unfold after_age_check. destruct (minimum_activity_age _); exact Hw. }
    destruct (after_age_check_ledger E w) as [Hd Hf].
    split.
    + intros j. rewrite (materialized_recorded _ _ _ _ Hinv).
      rewrite <- (materialized_ext _ _ j Hd).
      destruct (decide (j = id a)) as [->|_]; [apply union_subseteq_r | reflexivity].
    + now rewrite files_recorded, Hf.
Qed.

Lemma write_file_keeps (p : Path) (data : bytes) : keeps_everything (write_file p data).
Proof.
  intros w Hw. unfold write_file, modify. cbn [snd]. split; [exact Hw|].
  split; [reflexivity|]. simpl. rewrite dom_insert_L. apply union_subseteq_r.
Qed.

Lemma _write_gps_file_keeps (E : Env) (a : Activity) (p : Path) (k : FileType) :
  keeps_everything (_write_gps_file E a p k).
Proof.
  unfold _write_gps_file.
  apply keeps_everything_bind.
  - intros w Hw. split; [exact Hw | apply nothing_lost_refl].
  - intros [|b data]; [apply keeps_everything_ret | apply write_file_keeps].
Qed.

Lemma _maybe_download_activity_keeps (E : Env) (a : Activity) :
  keeps_everything (_maybe_download_activity E a).
Proof.
  unfold _maybe_download_activity.
  apply keeps_everything_bind; [apply record_and_retrieve_download_path_keeps|].
  intros json_path. apply keeps_everything_bind.
  { destruct json_path; [|apply keeps_everything_ret].
    apply keeps_everything_bind; [apply write_file_keeps|].
    intros _. apply keeps_everything_ret. }
  intros counts. revert counts.
  induction gps_file_types as [|k ks IH]; intros counts; simpl.
  - apply keeps_everything_ret.
  - apply keeps_everything_bind; [apply record_and_retrieve_download_path_keeps|].
    intros [p|]; [|apply IH].
    apply keeps_everything_bind; [apply _write_gps_file_keeps | intros _; apply IH].
Qed.

Lemma process_activity_keeps (E : Env) (a : Activity) (v : LoopVars) :
  check_for_activity_changes_enabled (config E) = false ->
  keeps_everything (process_activity E a v).
Proof.
  intros Hoff. unfold process_activity. cbv zeta. rewrite Hoff.
  apply keeps_everything_bind.
  { intros w Hw. split; [exact Hw | apply nothing_lost_refl]. }
  intros w0. apply keeps_everything_bind; [apply keeps_everything_ret|].
  intros _. apply keeps_everything_bind; [apply _maybe_download_activity_keeps|].
  intros ds. apply keeps_everything_ret.
Qed.

Lemma process_activities_keeps (E : Env) (activities : list Activity) :
  check_for_activity_changes_enabled (config E) = false ->
  forall v, keeps_everything (process_activities E activities v).
Proof.
  intros Hoff. induction activities as [|a rest IH]; intros v; simpl.
  - apply keeps_everything_ret.
  - apply keeps_everything_bind; [now apply process_activity_keeps|]. intros vd.
    apply keeps_everything_bind; [apply IH|]. intros vl. apply keeps_everything_ret.
Qed.

Lemma download_loop_keeps (E : Env) (fuel : nat) :
  check_for_activity_changes_enabled (config E) = false ->
  forall (start : Z) (v : LoopVars) (w w' : World) r,
  ledger_inv w ->
  download_loop E fuel start v w = Some (r, w') ->
  ledger_inv w' /\ nothing_lost w w'.
Proof.
  intros Hoff.
  induction fuel as [|fuel IH]; intros start v w w' r Hw; simpl; [discriminate|].
  destruct (get_activities E start (batch_size (config E))) as [[|a acts]|e].
  - intros [= _ <-]. split; [exact Hw | apply nothing_lost_refl].
  - destruct (process_activities_keeps E (a :: acts) Hoff (start_batch v) w Hw)
      as [Hinv Hlost].
    destruct (process_activities E (a :: acts) (start_batch v) w)
      as [[[v1 ds]|e] w1]; cbn [snd] in *.
    + destruct (_ && _); [intros [= _ <-]; now split|].
      destruct (download_loop E fuel (start + batch_size (config E)) v1 w1)
        as [[[[v2 rest]|e] w2]|] eqn:Hrec; [| |discriminate].
      * intros [= _ <-]. destruct (IH _ _ _ _ _ Hinv Hrec) as [Hinv' Hlost'].
        split; [exact Hinv' | exact (nothing_lost_trans _ _ _ Hlost Hlost')].
      * intros [= _ <-]. destruct (IH _ _ _ _ _ Hinv Hrec) as [Hinv' Hlost'].
        split; [exact Hinv' | exact (nothing_lost_trans _ _ _ Hlost Hlost')].
    + intros [= _ <-]. now split.
  - intros [= _ <-]. split; [exact Hw | apply nothing_lost_refl].
Qed.

(** With [CHECK_FOR_ACTIVITY_CHANGES] off, a pass removes nothing, however
    it ends: every kind the ledger held is still held, and every file that
    existed still exists. *)
Theorem pass_without_change_detection_loses_nothing (E : Env) (fuel : nat)
    (w w' : World) r :
  check_for_activity_changes_enabled (config E) = false ->
  ledger_inv w ->
  download_all_activities_iteration E fuel w = Some (r, w') ->
  nothing_lost w w'.
Proof.
  intros Hoff Hw. unfold download_all_activities_iteration.
  destruct (download_loop E fuel 0 initial_vars _)
    as [[[[v rest]|e] w1]|] eqn:Hloop; [| |discriminate].
  - apply (download_loop_keeps E fuel Hoff) in Hloop as [_ Hlost]; [|exact Hw].
    destruct (truthy _); intros [= _ <-];
      (eapply nothing_lost_trans;
       [eapply nothing_lost_trans; [|exact Hlost]|]);
      now apply nothing_lost_ext.
  - intros [= _ <-].
    apply (download_loop_keeps E fuel Hoff) in Hloop as [_ Hlost]; [|exact Hw].
    eapply nothing_lost_trans; [|exact Hlost]. now apply nothing_lost_ext.
Qed.

Lemma pass_without_change_detection_loses_nothing_witness :
  exists r w',
    download_all_activities_iteration no_recheck_env 5 after_first_pass = Some (r, w')
    /\ nothing_lost after_first_pass w'.
Proof.
  destruct (download_all_activities_iteration no_recheck_env 5 after_first_pass)
    as [[r w']|] eqn:Hrun.
  2: exfalso; apply (f_equal (fun r => match r with
                                       | Some _ => true
                                       | None => false
                                       end)) in Hrun;
     vm_compute in Hrun; discriminate Hrun.
  exists r, w'. split; [reflexivity|].
  apply (pass_without_change_detection_loses_nothing no_recheck_env 5 _ _ r);
    [reflexivity | | exact Hrun].
  apply (bool_decide_unpack _). vm_compute. exact I.
Defined.

(** ** The filters of the configuration *)

Lemma lstrip_by_blank_app (sp : N -> bool) (l s : str) :
  Forall (fun c => sp c = true) l -> lstrip_by sp (l ++ s) = lstrip_by sp s.
Proof. induction 1 as [|c l Hc _ IH]; simpl; [reflexivity|]. now rewrite Hc. Qed.

Lemma strip_by_padded (sp : N -> bool) (l t r : str) :
  Forall (fun c => sp c = true) l -> Forall (fun c => sp c = true) r ->
  Forall (fun c => sp c = false) t ->
  strip_by sp (l ++ t ++ r) = t.
Proof.
  intros Hl Hr Ht. unfold strip_by.
  rewrite (lstrip_by_blank_app sp l _ Hl).
  destruct t as [|c t].
  - simpl. rewrite <- (app_nil_r r) at 1.
    rewrite (lstrip_by_blank_app sp r [] Hr). reflexivity.
  - assert (Hhead : lstrip_by sp ((c :: t) ++ r) = (c :: t) ++ r).
    { simpl. apply Forall_cons in Ht as [Hc _]. now rewrite Hc. }
    rewrite Hhead, rev_app_distr.
    rewrite (lstrip_by_blank_app sp (rev r)) by (now apply Forall_rev).
    rewrite lstrip_by_unchanged by (now apply Forall_rev).
    apply rev_involutive.
Qed.

Lemma split_on_join (sep : N) (l : list str) :
  l <> [] -> Forall (fun s => sep ∉ s) l -> split_on sep (join [sep] l) = l.
Proof.
  intros Hne H. induction H as [|x l Hx Hl IH]; [congruence|].
  destruct l as [|y l].
  - simpl. now apply split_on_without.
  - change (join [sep] (x :: y :: l)) with (x ++ sep :: join [sep] (y :: l)).
    rewrite (split_on_app sep x _ Hx). f_equal. now apply IH.
Qed.

Lemma blank_lacks (c : N) (s : str) : isspace c = false -> blank s -> c ∉ s.
Proof.
  intros Hc Hs Hin. unfold blank in Hs. rewrite Forall_forall in Hs.
  specialize (Hs c Hin). congruence.
Qed.

Lemma date_char_not_space (c : N) : date_char c = true -> isspace c = false.
Proof.
  unfold date_char, is_ascii_digit, isspace. unfold chr. eval_chars.
  intros H. char_arith.
Qed.

Section Comma_separated.
Context {A : Type} (show : A -> str).
Hypothesis show_solid : forall x, Forall (fun c => isspace c = false) (show x).
Hypothesis show_no_comma : forall x, chr "," ∉ show x.

Lemma padded_lacks_comma (item : str * A * str) :
  blank (fst (fst item)) -> blank (snd item) ->
  chr "," ∉ fst (fst item) ++ show (snd (fst item)) ++ snd item.
Proof.
  intros Hl Hr. rewrite !not_elem_of_app.
  repeat split; [now apply blank_lacks | apply show_no_comma | now apply blank_lacks].
Qed.

Lemma split_on_comma_separated (items : list (str * A * str)) :
  items <> [] -> padding_is_blank items ->
  split_on (chr ",") (comma_separated show items)
  = List.map (fun item => fst (fst item) ++ show (snd (fst item)) ++ snd item) items.
Proof.
  intros Hne Hpad. unfold comma_separated.
  change (lit ",") with [chr ","].
  apply split_on_join.
  - now destruct items.
  - apply Forall_map. eapply Forall_impl; [exact Hpad|].
    intros item [Hl Hr]. now apply padded_lacks_comma.
Qed.

Lemma strip_padded (item : str * A * str) :
  blank (fst (fst item)) -> blank (snd item) ->
  strip (fst (fst item) ++ show (snd (fst item)) ++ snd item) = show (snd (fst item)).
Proof. intros Hl Hr. now apply strip_by_padded. Qed.

End Comma_separated.

Lemma str_of_int_solid (z : Z) : Forall (fun c => isspace c = false) (str_of_int z).
Proof.
  eapply Forall_impl; [apply str_of_int_date_char|].
  intros c. apply date_char_not_space.
Qed.

Lemma str_of_int_no_comma (z : Z) : chr "," ∉ str_of_int z.
Proof. apply date_char_lacks; [reflexivity | apply str_of_int_date_char]. Qed.

Lemma str_of_int_nonempty (z : Z) : str_of_int z <> [].
Proof.
  intros H. pose proof (int_of_str_str_of_int ascii_only_db z) as Hz.
  rewrite H in Hz. discriminate Hz.
Qed.

Lemma add_excluded_activity_ids_padded (U : UnicodeDB)
    (items : list (str * ActivityId * str)) :
  padding_is_blank items ->
  forall ids,
  add_excluded_activity_ids U
    (List.map (fun item => fst (fst item) ++ str_of_int (snd (fst item)) ++ snd item)
              items) ids
  = inr (list_to_set (values items) ∪ ids).
Proof.
  induction 1 as [|item items [Hl Hr] _ IH]; intros ids.
  - simpl. now rewrite union_empty_l_L.
  - cbn [List.map add_excluded_activity_ids].
    rewrite (strip_padded str_of_int str_of_int_solid item Hl Hr).
    pose proof (str_of_int_nonempty (snd (fst item))) as Hne.
    rewrite int_of_str_str_of_int.
    destruct (str_of_int (snd (fst item))) as [|c r]; [congruence|].
    rewrite IH. f_equal. unfold values. cbn [List.map]. rewrite list_to_set_cons.
    apply set_eq. intros x. rewrite !elem_of_union. tauto.
Qed.

Lemma comma_separated_nonempty {A} (show : A -> str) (items : list (str * A * str)) :
  (forall x, show x <> []) -> items <> [] -> comma_separated show items <> [].
Proof.
  intros Hshow Hne. unfold comma_separated.
  destruct items as [|item [|item' items]]; [congruence| |]; cbn [List.map join].
  - intros H. apply app_eq_nil in H as [_ H]. apply app_eq_nil in H as [H _].
    exact (Hshow _ H).
  - intros H. apply app_eq_nil in H as [H _].
    apply app_eq_nil in H as [_ H]. apply app_eq_nil in H as [H _].
    exact (Hshow _ H).
Qed.

(** [EXCLUDED_ACTIVITY_IDS]: a comma-separated list of integers in decimal,
    each of at most 4300 digits (beyond, [int] raises), with any white
    space around them, is read as exactly the set of these integers. *)
Theorem excluded_activity_ids_roundtrip (U : UnicodeDB)
    (items : list (str * ActivityId * str)) :
  items <> [] ->
  padding_is_blank items ->
  Forall within_int_limit (values items) ->
  excluded_activity_ids_from_env U (Some (comma_separated str_of_int items))
  = inr (list_to_set (values items)).
Proof.
  intros Hne Hpad _. unfold excluded_activity_ids_from_env.
  pose proof (comma_separated_nonempty str_of_int items str_of_int_nonempty Hne) as Htext.
  rewrite (split_on_comma_separated str_of_int str_of_int_no_comma items Hne Hpad).
  destruct (comma_separated str_of_int items) as [|c r]; [congruence|].
  rewrite (add_excluded_activity_ids_padded U items Hpad).
  now rewrite union_empty_r_L.
Qed.

Lemma excluded_activity_ids_roundtrip_witness :
  excluded_activity_ids_from_env ascii_only_db (Some (lit " 12345678901,-7 "))
  = inr {[ 12345678901; -7 ]}.
Proof.
  assert (Hpad : padding_is_blank two_padded_ids).
  { repeat constructor. }
  assert (Hlimit : Forall within_int_limit (values two_padded_ids)).
  { repeat constructor; apply Z.ltb_lt; vm_compute; reflexivity. }
  pose proof (excluded_activity_ids_roundtrip ascii_only_db two_padded_ids
                ltac:(discriminate) Hpad Hlimit) as H.
  assert (Htext : comma_separated str_of_int two_padded_ids = lit " 12345678901,-7 ")
    by (vm_compute; reflexivity).
  rewrite Htext in H. rewrite H. reflexivity.
Defined.

Lemma FileType_of_value_FileType_value (k : FileType) :
  FileType_of_value (FileType_value k) = Some k.
Proof. destruct k; vm_compute; reflexivity. Qed.

Lemma FileType_of_value_Some (t : str) (k : FileType) :
  FileType_of_value t = Some k -> FileType_value k = t.
Proof.
  unfold FileType_of_value. intros H. apply List.find_some in H as [_ H].
  now apply bool_decide_eq_true in H.
Qed.

Lemma FileType_value_solid (k : FileType) :
  Forall (fun c => isspace c = false) (FileType_value k).
Proof. destruct k; repeat constructor. Qed.

Lemma FileType_value_no_comma (k : FileType) : chr "," ∉ FileType_value k.
Proof. destruct k; lacks_lit. Qed.

Lemma FileType_value_nonempty (k : FileType) : FileType_value k <> [].
Proof. destruct k; discriminate. Qed.

Lemma add_excluded_file_types_values (kinds : list FileType) :
  Forall (fun k => k <> ACTIVITY_JSON) kinds ->
  forall types,
  add_excluded_file_types (List.map FileType_value kinds) types
  = inr (list_to_set kinds ∪ types).
Proof.
  induction 1 as [|k kinds Hk _ IH]; intros types.
  - simpl. now rewrite union_empty_l_L.
  - cbn [List.map add_excluded_file_types].
    rewrite bool_decide_true
      by (apply list_elem_of_In, List.in_map; destruct k; simpl; tauto).
    cbn [negb].
    rewrite bool_decide_false
      by (intros Heq; apply FileType_value_inj in Heq; contradiction).
    rewrite FileType_of_value_FileType_value, IH. f_equal.
    rewrite list_to_set_cons.
    apply set_eq. intros x. rewrite !elem_of_union. tauto.
Qed.

Lemma stripped_items_comma_separated (items : list (str * FileType * str)) :
  items <> [] -> padding_is_blank items ->
  stripped_items (comma_separated FileType_value items)
  = List.map FileType_value (values items).
Proof.
  intros Hne Hpad. unfold stripped_items.
  rewrite (split_on_comma_separated FileType_value FileType_value_no_comma items Hne Hpad).
  clear Hne. unfold values.
  induction Hpad as [|item items [Hl Hr] _ IH]; [reflexivity|].
  cbn [List.map List.filter].
  rewrite (strip_padded FileType_value FileType_value_solid item Hl Hr).
  rewrite bool_decide_false by apply FileType_value_nonempty.
  cbn [negb]. now rewrite IH.
Qed.

(** [EXCLUDED_FILE_TYPES]: a comma-separated list of the values of GPS
    kinds, with any white space around them, is read as exactly the set of
    these kinds. *)
Theorem excluded_file_types_roundtrip (items : list (str * FileType * str)) :
  items <> [] ->
  padding_is_blank items ->
  Forall (fun k => k <> ACTIVITY_JSON) (values items) ->
  excluded_file_types_from_env (Some (comma_separated FileType_value items))
  = inr (list_to_set (values items)).
Proof.
  intros Hne Hpad Hgps. unfold excluded_file_types_from_env.
  pose proof (comma_separated_nonempty FileType_value items FileType_value_nonempty Hne)
    as Htext.
  rewrite (stripped_items_comma_separated items Hne Hpad).
  destruct (comma_separated FileType_value items) as [|c r]; [congruence|].
  rewrite (add_excluded_file_types_values _ Hgps).
  now rewrite union_empty_r_L.
Qed.

Lemma excluded_file_types_roundtrip_witness :
  excluded_file_types_from_env (Some (lit "kml  , csv")) = inr {[ KML; CSV ]}.
Proof.
  assert (Hpad : padding_is_blank two_padded_types).
  { repeat constructor. }
  pose proof (excluded_file_types_roundtrip two_padded_types
                ltac:(discriminate) Hpad ltac:(repeat constructor; discriminate)) as H.
  assert (Htext : comma_separated FileType_value two_padded_types = lit "kml  , csv")
    by (vm_compute; reflexivity).
  rewrite Htext in H. rewrite H. reflexivity.
Defined.

Lemma add_excluded_file_types_never_json (items : list str) :
  forall types s,
  add_excluded_file_types items types = inr s ->
  ACTIVITY_JSON ∉ types ->
  (ACTIVITY_JSON ∉ s) /\ (FileType_value ACTIVITY_JSON ∉ items).
Proof.
  induction items as [|t items IH]; intros types s; cbn [add_excluded_file_types].
  - intros [= <-] Hno. split; [exact Hno | apply not_elem_of_nil].
  - destruct (bool_decide (t ∈ _)); cbn [negb]; [|discriminate].
    destruct (bool_decide (t = FileType_value ACTIVITY_JSON)) eqn:Hjson; [discriminate|].
    apply bool_decide_eq_false in Hjson.
    destruct (FileType_of_value t) as [k|] eqn:Hk; [|discriminate].
    apply FileType_of_value_Some in Hk.
    intros Hrun Hno.
    apply IH in Hrun as [Hs Hitems].
    + split; [exact Hs|]. apply not_elem_of_cons. split; [congruence | exact Hitems].
    + apply not_elem_of_union. split; [|exact Hno].
      apply not_elem_of_singleton. intros <-. now apply Hjson.
Qed.

(** The metadata kind cannot be excluded by configuration: a value of
    [EXCLUDED_FILE_TYPES] that is accepted never yields a set that holds
    it, and none of its items is [activity_json]. *)
Theorem metadata_cannot_be_excluded (env : option str) (s : gset FileType) :
  excluded_file_types_from_env env = inr s ->
  (ACTIVITY_JSON ∉ s)
  /\ forall text, env = Some text -> FileType_value ACTIVITY_JSON ∉ stripped_items text.
Proof.
  unfold excluded_file_types_from_env.
  destruct env as [[|c text]|].
  - intros [= <-]. split; [apply not_elem_of_empty|].
    intros text [= <-]. apply not_elem_of_nil.
  - intros Hrun.
    apply add_excluded_file_types_never_json in Hrun as [Hs Hitems];
      [|apply not_elem_of_empty].
    split; [exact Hs|]. now intros text' [= <-].
  - intros [= <-]. split; [apply not_elem_of_empty | discriminate].
Qed.

Lemma metadata_cannot_be_excluded_witness :
  exists s, excluded_file_types_from_env (Some gpx_and_tcx) = inr s
            /\ (ACTIVITY_JSON ∉ s).
Proof.
  destruct (excluded_file_types_from_env (Some gpx_and_tcx)) as [e|s] eqn:Hrun.
  - exfalso. apply (f_equal (fun r => match r with inl _ => false | inr _ => true end))
      in Hrun. vm_compute in Hrun. discriminate Hrun.
  - exists s. split; [reflexivity|].
    exact (proj1 (metadata_cannot_be_excluded (Some gpx_and_tcx) s Hrun)).
Defined.

(** ** Start-up with a file that is not an export *)

Lemma observed_raises_ValueError (E : Env) (p : Path) (e : exn) :
  observed E p = Raise e -> exists why, e = ValueError why.
Proof.
  unfold observed, create_from_file_path.
  repeat case_match; intros [= <-]; simplify_eq; eauto.
Qed.

(** One file that [add_preexisting_file] rejects stops the start-up scan:
    whether a file is rejected does not depend on the state, and a listing
    that holds such a file makes [_precompute_downloaded_activities] raise
    a [ValueError], wherever the file stands in the listing. *)
Theorem stray_file_stops_startup (E : Env) (listing : list Path) (p : Path)
    (e : exn) (w0 w : World) :
  fst (add_preexisting_file E p w0) = Raise e ->
  p ∈ listing ->
  exists why,
    fst (_precompute_downloaded_activities E listing w) = Raise (ValueError why).
Proof.
  rewrite add_preexisting_file_observed. cbn [fst]. intros Hp Hin.
  assert (Hobs : exists e', observed E p = Raise e').
  { destruct (observed E p) as [o|e']; [discriminate | eauto]. }
  clear Hp. destruct Hobs as [e' Hobs].
  unfold _precompute_downloaded_activities. revert w.
  induction listing as [|q rest IH]; intros w; [now apply elem_of_nil in Hin|].
  cbn [for_each]. unfold mbind, M_bind, bind.
  rewrite add_preexisting_file_observed.
  destruct (observed E q) as [o|e''] eqn:Hq.
  - apply elem_of_cons in Hin as [->|Hin]; [congruence|]. now apply IH.
  - cbn [fst]. destruct (observed_raises_ValueError E q e'' Hq) as [why ->]. eauto.
Qed.

Lemma stray_file_stops_startup_witness :
  exists why,
    fst (_precompute_downloaded_activities demo_env
           [canonical_path demo_env morning_run ACTIVITY_JSON; stray_file]
           (initial_world ∅))
    = Raise (ValueError why).
Proof.
  apply (stray_file_stops_startup demo_env _ stray_file
           (ValueError NoMatchingFileType) (initial_world ∅)).
  - vm_compute. reflexivity.
  - apply elem_of_cons. right. apply elem_of_cons. now left.
Defined.

Lemma decide_raises_only_datetime_errors_witness :
  fst (record_and_retrieve_download_path start_date_env morning_run ACTIVITY_JSON
         (initial_world ∅)) = Raise TypeError
  /\ (TypeError = TypeError \/ TypeError = OverflowError).
Proof.
  assert (Hrun : fst (record_and_retrieve_download_path start_date_env morning_run
                        ACTIVITY_JSON (initial_world ∅)) = Raise TypeError)
    by (vm_compute; reflexivity).
  split; [exact Hrun|].
  apply (decide_raises_only_datetime_errors start_date_env morning_run ACTIVITY_JSON
           (initial_world ∅) TypeError); [|exact Hrun].
  apply (bool_decide_unpack _). vm_compute. exact I.
Defined.
